(** * Sounds of the Stratosphere: telemetry stream and playback engine

    A shallow embedding of the observation stream hook
    ([useObservationStream]: normaliser, synthetic generator, cursor,
    chronological merge, polling) and of the playback hook
    ([useObservationPlayback]), with the properties of the engine stated
    and proved over it.

    Conventions of the embedding.
    - A JavaScript number is a [number]: a real, an infinity or NaN.
      Where a result of the program depends on the rounding of a product
      ([setProgress], the seconds of [resolveTimestamp], [Math.hypot]) the
      operation is followed by [double], the rounding to the nearest
      double; elsewhere arithmetic on finite values is that of the reals,
      and the properties stated there are bounds and orders that hold for
      doubles as well.
    - An exception is the [Throw] of a [Result]; it carries the [message]
      of the Error, which is what [pull] stores.
    - The time value of a [Date] is an integer count of milliseconds, or
      absent for an Invalid Date; [getTime] then yields NaN, written [None].
    - What the code obtains from the ECMAScript host (string/number
      conversion, date parsing and printing, the clock, randomness) is a
      field of the class [Host]. *)

From Stdlib Require Import ZArith List String Bool Reals Lra Lia.
From Stdlib Require Import Permutation Sorted.
Import ListNotations.

Open Scope string_scope.
Open Scope list_scope.

(** ** JavaScript numbers *)

Inductive number : Type :=
| Fin (x : R)
| PosInf
| NegInf
| NaN.

(** [Number.isFinite] on a value that is already a number. *)
Definition Number_isFinite (n : number) : bool :=
  match n with Fin _ => true | _ => false end.

(** [clamp(value, min, max) = Math.min(Math.max(value, min), max)], the
    helper both hooks define, on reals. *)
Definition clamp (value min max : R) : R := Rmin (Rmax value min) max.

(** Integer part towards zero, as [ToIntegerOrInfinity] takes it. *)
Definition truncate (x : R) : Z :=
  if Rle_dec 0 x then Int_part x else (- Int_part (- x))%Z.

(** [Math.floor] and [Math.round] on a real; [Math.round] rounds halves
    towards plus infinity. *)
Definition Math_floor (x : R) : Z := Int_part x.
Definition Math_round (x : R) : Z := Int_part (x + / 2).

(** ** Double precision *)

(** The nearest integer, the even one at a tie. *)
Definition roundHalfEven (y : R) : Z :=
  let f := Int_part y in
  let r := (y - IZR f)%R in
  if Rlt_dec r (/ 2) then f
  else if Rlt_dec (/ 2) r then (f + 1)%Z
  else if Z.even f then f else (f + 1)%Z.

(** The binary places a double of magnitude [a] keeps after the point:
    the least [j] with [2^52 <= a * 2^j], so that the 53 bits of the
    significand end at [2^-j]; at most 1074, where the subnormal numbers
    end. *)
Fixpoint placesFrom (fuel j : nat) (a : R) : nat :=
  match fuel with
  | O => j
  | S fuel' => if Rle_dec (2 ^ 52) (a * 2 ^ j) then j else placesFrom fuel' (S j) a
  end.

Definition binaryPlaces (x : R) : nat := placesFrom 1074 0 (Rabs x).

(** The double a real result is rounded to: the nearest multiple of
    [2^-binaryPlaces], ties to the even significand.  From [2^53] on every
    double is an integer; the numbers this program computes there are
    integers (lengths are below [2^32], time values within 8.64e15, which
    is below [2^53]), and the model leaves such a value as it is. *)
Definition double (x : R) : R :=
  if Rle_dec (2 ^ 53) (Rabs x) then x
  else (IZR (roundHalfEven (x * 2 ^ binaryPlaces x)) / 2 ^ binaryPlaces x)%R.

(** The magnitude from which on a result is rounded to Infinity:
    [2^1024 - 2^970], half a unit in the last place above the largest
    double. *)
Definition overflowThreshold : R := (2 ^ 1024 - 2 ^ 970)%R.

(** [Math.hypot(a, b)]: an infinite argument wins over NaN; on finite
    arguments the norm, rounded, and Infinity when it overflows.  The
    function is implementation-approximated in ECMAScript; the model takes
    the correctly rounded value. *)
Definition Math_hypot (a b : number) : number :=
  match a, b with
  | (PosInf | NegInf), _ | _, (PosInf | NegInf) => PosInf
  | NaN, _ | _, NaN => NaN
  | Fin x, Fin y =>
      let norm := sqrt (x * x + y * y) in
      if Rle_dec overflowThreshold norm then PosInf else Fin (double norm)
  end.

(** ** Results of code that may throw *)

(** [Throw message]: an Error was thrown; [message] is its [message]
    property, without the name of the Error. *)

Inductive Result (A : Type) : Type :=
| Ok (a : A)
| Throw (message : string).

Arguments Ok {A} a.
Arguments Throw {A} message.

Definition bind {A B : Type} (r : Result A) (k : A -> Result B) : Result B :=
  match r with
  | Ok a => k a
  | Throw m => Throw m
  end.

Notation "x <- r ;; k" := (bind r (fun x => k))
  (at level 61, r at next level, right associativity).

(** [Array.prototype.map] with a callback that may throw: the first
    exception aborts the traversal. *)
Fixpoint mapM {A B : Type} (f : A -> Result B) (l : list A) : Result (list B) :=
  match l with
  | [] => Ok []
  | a :: l' => b <- f a ;; bs <- mapM f l' ;; Ok (b :: bs)
  end.

(** ** Dates *)

Inductive Date : Type :=
| ValidDate (t : Z)
| InvalidDate.

(** [getTime()]; [None] stands for NaN. *)
Definition getTime (d : Date) : option Z :=
  match d with ValidDate t => Some t | InvalidDate => None end.

(** The largest time value a Date holds: 8.64e15 ms. *)
Definition maxTimeValue : Z := 8640000000000000.

(** [new Date(ms)] for a number: [TimeClip]. *)
Definition Date_ofNumber (ms : number) : Date :=
  match ms with
  | Fin x =>
      if Rle_dec (Rabs x) (IZR maxTimeValue) then ValidDate (truncate x)
      else InvalidDate
  | _ => InvalidDate
  end.

(** ** Values of a decoded JSON document *)

(** An object or array is represented by what its [ToPrimitive]
    conversion does, the code only ever converting such a value with
    [Number(...)] or [String(...)]: the string it yields
    (["[object Object]"] for a plain object, the comma-joined elements for
    an array), or [None] when it throws a TypeError, as it does for an
    object whose own [toString] is not callable (the document
    [{"toString": 0}]) and for an array that holds one. *)
Inductive jsval : Type :=
| JUndefined
| JNull
| JBool (b : bool)
| JNumber (n : number)
| JString (s : string)
| JObject (primitive : option string).

(** The properties of a decoded value.  A property that is absent reads
    as [undefined]. *)
Definition Properties : Type := list (string * jsval).

Fixpoint prop (raw : Properties) (key : string) : jsval :=
  match raw with
  | [] => JUndefined
  | (k, v) :: rest => if String.eqb k key then v else prop rest key
  end.

(** [RawObservation = Record<string, unknown>] is a cast of what
    [JSON.parse] returned: an element of [parsed.observations] is [null],
    on which reading a property throws a TypeError, or a value with
    properties.  (A number, a string or a boolean in the array has none of
    the properties the normaliser reads: [ObjectRecord []].) *)
Inductive RawObservation : Type :=
| NullRecord
| ObjectRecord (properties : Properties).

(** [a ?? b] *)
Definition nullish (v : jsval) : bool :=
  match v with JUndefined | JNull => true | _ => false end.

Definition orElse (a b : jsval) : jsval := if nullish a then b else a.

Infix "??" := orElse (at level 45, right associativity).

(** ** The host *)

Class Host : Type := {
  (** [StringToNumber], the conversion [Number(s)] applies to a string *)
  StringToNumber : string -> number;
  (** [Number::toString] *)
  Number_toString : number -> string;
  (** [Date.parse], as [new Date(s)] applies it to a string *)
  Date_parse : string -> Date;
  (** the ISO-8601 rendering of a valid time value *)
  formatISO : Z -> string;
  (** [Date.now()] *)
  Date_now : Z;
  (** [crypto.randomUUID()], or the clock-and-random fallback.  The code
      draws a fresh id at every call; the model has one id per host, so it
      says nothing on how the ids of two such records differ. *)
  randomId : string;
  (** the message of the TypeError for an object that cannot be converted
      to a primitive value *)
  TypeError_toPrimitive : string;
  (** the message of the TypeError for reading the property [id] of [null] *)
  TypeError_nullRecord : string;
  (** the n-th draw of [Math.random()], in [0, 1) *)
  Math_random : nat -> R
}.

(** [Date.prototype.toISOString]: a RangeError on an Invalid Date, with
    the message ["Invalid time value"]. *)
Definition toISOString `{Host} (d : Date) : Result string :=
  match d with
  | ValidDate t => Ok (formatISO t)
  | InvalidDate => Throw "Invalid time value"
  end.

(** [Number(value)] *)
Definition Number_of `{Host} (v : jsval) : Result number :=
  match v with
  | JUndefined => Ok NaN
  | JNull => Ok (Fin 0)
  | JBool true => Ok (Fin 1)
  | JBool false => Ok (Fin 0)
  | JNumber n => Ok n
  | JString s => Ok (StringToNumber s)
  | JObject (Some p) => Ok (StringToNumber p)
  | JObject None => Throw TypeError_toPrimitive
  end.

(** [String(value)] *)
Definition String_of `{Host} (v : jsval) : Result string :=
  match v with
  | JUndefined => Ok "undefined"
  | JNull => Ok "null"
  | JBool true => Ok "true"
  | JBool false => Ok "false"
  | JNumber n => Ok (Number_toString n)
  | JString s => Ok s
  | JObject (Some p) => Ok p
  | JObject None => Throw TypeError_toPrimitive
  end.

(** ** Observations *)

Record DerivedObservation : Type := {
  id : string;
  missionId : string;
  timestamp : string;
  date : Date;
  altitude : number;
  temperature : number;
  humidity : number;
  speed_u : number;
  speed_v : number;
  windSpeed : number
}.

(** [StreamStatus = 'idle' | 'loading' | 'ready' | 'error'] *)
Inductive StreamStatus : Type :=
| StatusIdle
| StatusLoading
| StatusReady
| StatusError.

(** ** The normaliser *)

Section Normalizer.
Context `{Host}.

(** [coalesceNumber(values, fallback)]: the first value whose [Number(...)]
    conversion is finite, converted; the fallback when there is none.  A
    conversion that throws ends the search. *)
Fixpoint coalesceNumber (values : list jsval) (fallback : number) : Result number :=
  match values with
  | [] => Ok fallback
  | value :: rest =>
      num <- Number_of value ;;
      if Number_isFinite num then Ok num else coalesceNumber rest fallback
  end.

(** [value > 1e12 ? value : value * 1000], the milliseconds
    [resolveTimestamp] makes of a number; the product is a double. *)
Definition epochMilliseconds (value : R) : R :=
  if Rlt_dec 1000000000000 value then value else double (value * 1000).

(** The shared tail of the two numeric branches of [resolveTimestamp]:
    [new Date(ms).toISOString()]. *)
Definition epochToISO (value : R) : Result string :=
  toISOString (Date_ofNumber (Fin (epochMilliseconds value))).

(** [resolveTimestamp(value)].  A decoded record holds no [Date]
    instance, so the [instanceof Date] branch is never taken. *)
Definition resolveTimestamp (value : jsval) : Result string :=
  match value with
  | JNumber (Fin x) => epochToISO x
  | JString s =>
      match StringToNumber s with
      | Fin maybeNumber => epochToISO maybeNumber
      | _ => Ok s
      end
  | _ => toISOString (ValidDate Date_now)
  end.

Definition cryptoRandomId : string := randomId.

(** [normalizeObservation(raw)], its statements in the order of the
    source: the first exception ends it. *)
Definition normalizeObservation (raw : RawObservation) : Result DerivedObservation :=
  match raw with
  | NullRecord => Throw TypeError_nullRecord
  | ObjectRecord raw =>
      id <- String_of (prop raw "id" ?? prop raw "pk" ?? prop raw "timestamp"
                         ?? JString cryptoRandomId) ;;
      missionId <- String_of (prop raw "mission_id" ?? prop raw "mission"
                                ?? JString "unknown") ;;
      timestamp <- resolveTimestamp
                     (prop raw "timestamp" ?? prop raw "datetime"
                        ?? prop raw "observation_time"
                        ?? JNumber (Fin (IZR Date_now))) ;;
      let date := Date_parse timestamp in
      altitude <-
        coalesceNumber [prop raw "altitude"; prop raw "altitude_m";
                        prop raw "altitude_agl"; prop raw "altitude_from_gps"] (Fin 0) ;;
      temperature <-
        coalesceNumber [prop raw "temperature"; prop raw "temperature_c";
                        prop raw "temp"; prop raw "temperature_celsius"] (Fin 0) ;;
      humidity <-
        coalesceNumber [prop raw "humidity"; prop raw "relative_humidity";
                        prop raw "rh"; prop raw "humidity_percent"] (Fin 0) ;;
      speed_u <-
        coalesceNumber [prop raw "speed_u"; prop raw "wind_u";
                        prop raw "u_component"] (Fin 0) ;;
      speed_v <-
        coalesceNumber [prop raw "speed_v"; prop raw "wind_v";
                        prop raw "v_component"] (Fin 0) ;;
      let windSpeed := Math_hypot speed_u speed_v in
      Ok {| id := id; missionId := missionId; timestamp := timestamp; date := date;
            altitude := altitude; temperature := temperature; humidity := humidity;
            speed_u := speed_u; speed_v := speed_v; windSpeed := windSpeed |}
  end.

End Normalizer.

(** ** The synthetic generator *)

Section Synthetic.
Context `{Host}.

(** [randRange(min, max)], given the draw [u] of [Math.random()]. *)
Definition randRange (u : R) (min max : R) : R := (u * (max - min) + min)%R.

(** [easeInOut(t)], with the cosine of the reals: the value the code
    computes is the one [Math.cos] approximates, so what is stated of
    [easeInOut] below are its bounds, its end values and its order. *)
Definition easeInOut (t : R) : R := (0.5 * (1 - cos (PI * clamp t 0 1)))%R.

(** [ToLength(count)] for an integral count, as [Array.from({ length })]
    takes it. *)
Definition ToLength (count : Z) : nat := Z.to_nat count.

(** The callback of [Array.from] in [buildSyntheticObservations], at one
    index.  The six draws of [Math.random()] it makes are the draws
    [6 * index], ..., [6 * index + 5] of the host, in source order.
    [startMs] is [new Date(startIso).getTime()]; when it is NaN so is
    [timestampMs], and [toISOString] throws.  All operands are finite and
    every divisor is at least 1.  The arithmetic, the cosine and the sine
    are those of the reals: what is stated of the generator below are
    bounds on its values and the order of its instants, which hold for the
    doubles as well; nothing is stated that rests on the last bit of a
    value, as an equality between [windSpeed] and the norm of the
    components would. *)
Definition syntheticObservation (startMs : option Z) (count : Z) (index : nat)
  : Result DerivedObservation :=
  let durationMs := (24 * 60 * 60 * 1000)%R in
  let step := (durationMs / IZR (Z.max count 1))%R in
  let missionId := "windborne-sim"%string in
  let draw k := Math_random (6 * index + k) in
  let timestampMs :=
    match startMs with
    | Some s => Fin (IZR s + INR index * step + randRange (draw 0%nat) (-2) 2 * 60 * 1000)
    | None => NaN
    end in
  let progress := (INR index / IZR (Z.max 1 (count - 1)))%R in
  let altitude := (500 + easeInOut progress * 29000 + randRange (draw 1%nat) (-800) 800)%R in
  let temperature := (-65 + progress * 40 + randRange (draw 2%nat) (-5) 5)%R in
  let humidity :=
    clamp (25 + sin (progress * PI * 4) * 30 + randRange (draw 3%nat) (-5) 5) 5 95 in
  let windSpeed :=
    clamp (8 + cos (progress * PI * 3) * 18 + randRange (draw 4%nat) (-3) 3) 2 60 in
  let direction := (progress * PI * 2 + randRange (draw 5%nat) (-0.3) 0.3)%R in
  let speed_u := (cos direction * windSpeed)%R in
  let speed_v := (sin direction * windSpeed)%R in
  timestamp <- toISOString (Date_ofNumber timestampMs) ;;
  Ok {| id := (missionId ++ "-" ++ Number_toString timestampMs)%string;
        missionId := missionId;
        timestamp := timestamp;
        date := Date_ofNumber timestampMs;
        altitude := Fin altitude;
        temperature := Fin temperature;
        humidity := Fin humidity;
        speed_u := Fin speed_u;
        speed_v := Fin speed_v;
        windSpeed := Fin windSpeed |}.

Definition buildSyntheticObservations (startIso : string) (count : Z)
  : Result (list DerivedObservation) :=
  let startMs := getTime (Date_parse startIso) in
  mapM (syntheticObservation startMs count) (seq 0 (ToLength count)).

End Synthetic.

(** ** The chronological merge *)

(** A [Map<string, DerivedObservation>]: the entries in order of first
    insertion.  [set] on a key that is present replaces its value where it
    stands; on a new key it appends. *)
Definition JsMap : Type := list (string * DerivedObservation).

Fixpoint Map_set (m : JsMap) (key : string) (value : DerivedObservation) : JsMap :=
  match m with
  | [] => [(key, value)]
  | (k, v) :: rest =>
      if String.eqb k key then (key, value) :: rest
      else (k, v) :: Map_set rest key value
  end.

Definition Map_values (m : JsMap) : list DerivedObservation := map snd m.

(** [obs.id || obs.timestamp]: the empty string is the only falsy id. *)
Definition mergeKey (obs : DerivedObservation) : string :=
  if String.eqb (id obs) "" then timestamp obs else id obs.

(** The two [for ... of] loops of [mergeChronologically]. *)
Definition setAll (m : JsMap) (l : list DerivedObservation) : JsMap :=
  fold_left (fun merged obs => Map_set merged (mergeKey obs) obs) l m.

(** The comparator [(a, b) => a.date.getTime() - b.date.getTime()];
    [None] stands for NaN.  Time values are integers below 2^53, so the
    difference is exact. *)
Definition compareFn (a b : DerivedObservation) : option Z :=
  match getTime (date a), getTime (date b) with
  | Some x, Some y => Some (x - y)%Z
  | _, _ => None
  end.

(** [a] sorts after [b]: the comparator is positive (NaN counts as 0). *)
Definition sortsAfter (a b : DerivedObservation) : bool :=
  match compareFn a b with
  | Some d => (0 <? d)%Z
  | None => false
  end.

(** [Array.prototype.sort(compareFn)] is a stable sort: for a consistent
    comparator its result is the one stable sorted permutation, which
    insertion from the right computes.  With an Invalid Date in the array
    the comparator is not consistent and the order is left to the engine:
    the model is then a permutation of the input like the engine's result,
    but need not be the same one.  So every statement below on the order of
    a merged Series, or on the equality of two of them, is made for records
    with valid dates; the statements on membership and length hold for
    any permutation. *)
Fixpoint insertSorted (x : DerivedObservation) (l : list DerivedObservation)
  : list DerivedObservation :=
  match l with
  | [] => [x]
  | y :: rest => if sortsAfter x y then y :: insertSorted x rest else x :: l
  end.

Definition Array_sort (l : list DerivedObservation) : list DerivedObservation :=
  fold_right insertSorted [] l.

Definition mergeChronologically (current incoming : list DerivedObservation)
  : list DerivedObservation :=
  let merged := setAll (setAll [] current) incoming in
  Array_sort (Map_values merged).

(** ** Reading a merge map *)

Definition Map_keys (m : JsMap) : list string := map fst m.

(** [Map.prototype.get] *)
Fixpoint Map_get (m : JsMap) (key : string) : option DerivedObservation :=
  match m with
  | [] => None
  | (k, v) :: rest => if String.eqb k key then Some v else Map_get rest key
  end.

(** The last record of a list that carries a given merge key. *)
Fixpoint lastWithKey (l : list DerivedObservation) (key : string)
  : option DerivedObservation :=
  match l with
  | [] => None
  | obs :: rest =>
      match lastWithKey rest key with
      | Some later => Some later
      | None => if String.eqb (mergeKey obs) key then Some obs else None
      end
  end.

(** Every entry of a merge map stands under the key of its record. *)
Definition keyedByMergeKey (m : JsMap) : Prop :=
  Forall (fun entry => fst entry = mergeKey (snd entry)) m.

(** The entry [set] stores for a record, and the map
    [mergeChronologically] builds before it sorts. *)
Definition entryOf (obs : DerivedObservation) : string * DerivedObservation :=
  (mergeKey obs, obs).

Definition mergedMap (current incoming : list DerivedObservation) : JsMap :=
  setAll (setAll [] current) incoming.

(** ** Order on observations *)

Definition validInstant (obs : DerivedObservation) : Prop :=
  exists t, date obs = ValidDate t.

(** [a] is not later than [b], both instants being valid. *)
Definition notLater (a b : DerivedObservation) : Prop :=
  exists x y, date a = ValidDate x /\ date b = ValidDate y /\ (x <= y)%Z.

(** The order the comparator leaves between neighbours. *)
Definition inOrder (a b : DerivedObservation) : Prop := sortsAfter a b = false.

(** The records at one instant: a stable sort keeps them in the order
    they had. *)
Definition atInstant (t : Z) (obs : DerivedObservation) : bool :=
  match getTime (date obs) with
  | Some u => (u =? t)%Z
  | None => false
  end.

(** The invariant of the Series: ascending by instant, one record per
    merge key. *)
Definition seriesInvariant (series : list DerivedObservation) : Prop :=
  StronglySorted notLater series /\ NoDup (map mergeKey series).

Definition hasId (obs : DerivedObservation) : bool := negb (String.eqb (id obs) "").

(** ** The stream engine *)

(** The React state and the refs of [useObservationStream]. *)
Record StreamState : Type := {
  observations : list DerivedObservation;
  status : StreamStatus;
  error : option string;
  lastUpdated : option Z;
  lastTimestampRef : option string;
  missionRef : option string;
  sinceRef : string;
  cursorRef : number;
  hasDataRef : bool
}.

(** The options of the hook a poll reads, and the credential header that
    [buildAuthHeader] computed. *)
Record StreamOptions : Type := {
  mission : option string;
  limit : Z;
  authHeader : option string
}.

(** What one request meets: a rejected [fetch], or a response with its
    [ok] flag, its status code as printed, and its decoded body. *)
Inductive Payload : Type :=
| Unparsable
    (* JSON.parse throws, or the document is a falsy value *)
| Parsed (observationsField : option (list RawObservation)) (next_since : jsval)
    (* [observationsField] is present when [parsed.observations] is an array *).

Inductive FetchResponse : Type :=
| Rejected (message : string)
| Responded (ok : bool) (statusCode : string) (body : Payload).

Definition set_status (s : StreamStatus) (st : StreamState) : StreamState :=
  {| observations := observations st; status := s; error := error st;
     lastUpdated := lastUpdated st; lastTimestampRef := lastTimestampRef st;
     missionRef := missionRef st; sinceRef := sinceRef st;
     cursorRef := cursorRef st; hasDataRef := hasDataRef st |}.

Definition set_error (e : option string) (st : StreamState) : StreamState :=
  {| observations := observations st; status := status st; error := e;
     lastUpdated := lastUpdated st; lastTimestampRef := lastTimestampRef st;
     missionRef := missionRef st; sinceRef := sinceRef st;
     cursorRef := cursorRef st; hasDataRef := hasDataRef st |}.

(** [setObservations(l); setLastUpdated(new Date()); hasDataRef.current = true] *)
Definition set_data (l : list DerivedObservation) (now : Z) (st : StreamState)
  : StreamState :=
  {| observations := l; status := status st; error := error st;
     lastUpdated := Some now; lastTimestampRef := lastTimestampRef st;
     missionRef := missionRef st; sinceRef := sinceRef st;
     cursorRef := cursorRef st; hasDataRef := true |}.

Definition set_cursor (ts : option string) (c : number) (st : StreamState)
  : StreamState :=
  {| observations := observations st; status := status st; error := error st;
     lastUpdated := lastUpdated st; lastTimestampRef := ts;
     missionRef := missionRef st; sinceRef := sinceRef st;
     cursorRef := c; hasDataRef := hasDataRef st |}.

Section Stream.
Context `{Host}.

(** [isoToSeconds(isoString)] *)
Definition isoToSeconds (isoString : string) : number :=
  match getTime (Date_parse isoString) with
  | Some t => Fin (IZR (t / 1000))
  | None => NaN
  end.

(** The state the hook starts in, for the ISO string [defaultSinceIso]
    returned. *)
Definition initialState (missionId : option string) (sinceIso : string) : StreamState :=
  {| observations := []; status := StatusIdle; error := None;
     lastUpdated := None; lastTimestampRef := None;
     missionRef := missionId; sinceRef := sinceIso;
     cursorRef := isoToSeconds sinceIso; hasDataRef := false |}.

Definition resetState (st : StreamState) : StreamState :=
  {| observations := []; status := status st; error := error st;
     lastUpdated := None; lastTimestampRef := None;
     missionRef := missionRef st; sinceRef := sinceRef st;
     cursorRef := isoToSeconds (sinceRef st); hasDataRef := false |}.

(** The effect on [missionId] and [since]: when either differs from the
    refs, the refs are replaced, the state is reset and the status is
    ['loading']. *)
Definition onFilterChange (missionId : option string) (sinceIso : string)
  (st : StreamState) : StreamState :=
  let st1 :=
    {| observations := observations st; status := status st; error := error st;
       lastUpdated := lastUpdated st; lastTimestampRef := lastTimestampRef st;
       missionRef := missionId; sinceRef := sinceIso;
       cursorRef := isoToSeconds sinceIso; hasDataRef := hasDataRef st |} in
  set_status StatusLoading (resetState st1).

(** [applyCursorAdvance(normalized, nextSince)].  [Math.floor(t / 1000) + 1]
    on an integral time value is the integer quotient plus one; on NaN it
    is NaN. *)
Definition applyCursorAdvance (normalized : list DerivedObservation)
  (nextSince : jsval) (st : StreamState) : StreamState :=
  match normalized with
  | _ :: _ =>
      let last := List.last normalized
                    {| id := ""; missionId := ""; timestamp := ""; date := InvalidDate;
                       altitude := NaN; temperature := NaN; humidity := NaN;
                       speed_u := NaN; speed_v := NaN; windSpeed := NaN |} in
      set_cursor (Some (timestamp last))
        match getTime (date last) with
        | Some t => Fin (IZR (t / 1000 + 1))
        | None => NaN
        end st
  | [] =>
      match nextSince with
      | JNumber n => set_cursor (lastTimestampRef st) n st
      | _ => st
      end
  end.

(** [fetchBatch]: the batch and the state with the cursor advanced, or
    the message of the Error thrown. *)
Definition fetchBatch (opts : StreamOptions) (st : StreamState)
  (response : FetchResponse) : Result (list DerivedObservation * StreamState) :=
  match authHeader opts with
  | None =>
      Throw "Missing WindBorne API credentials (set VITE_WB_CLIENT_ID & VITE_WB_API_KEY)."
  | Some _ =>
      match response with
      | Rejected message => Throw message
      | Responded false statusCode _ =>
          Throw ("WindBorne API error (" ++ statusCode ++ ")")
      | Responded true _ Unparsable => Throw "Unexpected WindBorne response format"
      | Responded true _ (Parsed observationsField next_since) =>
          let rawList := match observationsField with Some l => l | None => [] end in
          normalized <- mapM normalizeObservation rawList ;;
          Ok (normalized, applyCursorAdvance normalized next_since st)
      end
  end.

Definition ingest (incoming : list DerivedObservation) (now : Z) (st : StreamState)
  : StreamState :=
  match incoming with
  | [] => st
  | _ :: _ => set_data (mergeChronologically (observations st) incoming) now st
  end.

Definition fallbackNotice : string :=
  "WindBorne API unavailable — playing a simulated mission inspired by recent flights.".

(** [pull], one poll, at clock reading [now].  When the synthetic
    generator throws inside the [catch] block the exception leaves
    [pull], and only the first [setStatus] has taken effect. *)
Definition pull (opts : StreamOptions) (response : FetchResponse) (now : Z)
  (st : StreamState) : StreamState :=
  let st1 :=
    set_status (match status st with StatusReady => StatusReady | _ => StatusLoading end) st in
  match fetchBatch opts st1 response with
  | Ok (batch, st2) =>
      set_error None (set_status StatusReady (ingest batch now st2))
  | Throw message =>
      if negb (hasDataRef st1) then
        match buildSyntheticObservations (sinceRef st1) (limit opts) with
        | Ok fallback =>
            set_error (Some fallbackNotice)
              (set_status StatusReady (set_data fallback now st1))
        | Throw _ => st1
        end
      else set_status StatusError (set_error (Some message) st1)
  end.

(** The states the engine passes through under fixed options. *)
Inductive reachable (opts : StreamOptions) : StreamState -> Prop :=
| reachable_initial : forall missionId sinceIso,
    reachable opts (initialState missionId sinceIso)
| reachable_pull : forall st response now,
    reachable opts st -> reachable opts (pull opts response now st)
| reachable_filter : forall st missionId sinceIso,
    reachable opts st -> reachable opts (onFilterChange missionId sinceIso st).

End Stream.

(** ** The playback hook *)

Definition MIN_DELAY_MS : R := 400.
Definition MAX_DELAY_MS : R := 10000.

(** [observations[i]] for an integral index: [undefined] out of range. *)
Definition at_index {A : Type} (l : list A) (i : Z) : option A :=
  if (i <? 0)%Z then None else nth_error l (Z.to_nat i).

(** What the scheduling effect does with the timer. *)
Inductive TimerEffect : Type :=
| ClearTimer
| SetTimeout (delay : number)
| ThrowTypeError.

Definition safeSpeed (speed : R) : R := Rmax 0.25 speed.

(** [next.date.getTime() - current.date.getTime()], NaN when either date
    is invalid. *)
Definition timeDelta (next current : DerivedObservation) : option Z :=
  match getTime (date next), getTime (date current) with
  | Some a, Some b => Some (a - b)%Z
  | _, _ => None
  end.

(** The effect on [index, isPlaying, observations, safeSpeed].  The speed
    is a real; [clamp] of NaN is NaN. *)
Definition schedule (observations : list DerivedObservation) (index : Z)
  (isPlaying : bool) (speed : R) : TimerEffect :=
  if negb isPlaying || (List.length observations <? 2)%nat then ClearTimer
  else
    match at_index observations (index + 1) with
    | None => ClearTimer
    | Some next =>
        match at_index observations index with
        | None => ThrowTypeError
        | Some current =>
            SetTimeout
              match timeDelta next current with
              | Some delta =>
                  Fin (clamp (IZR delta / safeSpeed speed) MIN_DELAY_MS MAX_DELAY_MS)
              | None => NaN
              end
        end
    end.

(** The timer callback: [setIndex(prev => Math.min(prev + 1, length - 1))]. *)
Definition advance (len : nat) (prev : Z) : Z :=
  Z.min (prev + 1) (Z.of_nat len - 1).

(** The effect on [observations.length]. *)
Definition syncIndex (len : nat) (current : Z) : Z :=
  match len with
  | O => 0%Z
  | _ => Z.min current (Z.of_nat len - 1)
  end.

(** [setProgress(value)] for a finite [value]; the index it stores.  The
    product is rounded to a double before [Math.round] sees it.  (At NaN
    the source stores NaN, which is no index.) *)
Definition setProgress (len : nat) (value : R) (index : Z) : Z :=
  match len with
  | O => index
  | _ =>
      let clamped := clamp value 0 1 in
      Math_round (double (clamped * (INR len - 1)))
  end.

Definition stepBackward (prev : Z) : Z := Z.max 0 (prev - 1).

Definition stepForward (len : nat) (prev : Z) : Z :=
  match len with
  | O => prev
  | _ => Z.min (prev + 1) (Z.of_nat len - 1)
  end.

(** The hook as a transition system: its props and its index. *)
Record Player : Type := {
  slice : list DerivedObservation;
  playing : bool;
  speed : R;
  index : Z
}.

Inductive PlaybackOp : Type :=
| TimerFired
| StepForward
| StepBackward
| SetProgress (value : R)
| SliceChanged (newSlice : list DerivedObservation).

Definition with_index (i : Z) (p : Player) : Player :=
  {| slice := slice p; playing := playing p; speed := speed p; index := i |}.

(** One operation.  The timer fires only when the scheduling effect set
    one; a new slice triggers the effect on the length when its length
    differs. *)
Definition playbackStep (p : Player) (op : PlaybackOp) : Player :=
  match op with
  | TimerFired =>
      match schedule (slice p) (index p) (playing p) (speed p) with
      | SetTimeout _ => with_index (advance (List.length (slice p)) (index p)) p
      | _ => p
      end
  | StepForward => with_index (stepForward (List.length (slice p)) (index p)) p
  | StepBackward => with_index (stepBackward (index p)) p
  | SetProgress value => with_index (setProgress (List.length (slice p)) value (index p)) p
  | SliceChanged newSlice =>
      {| slice := newSlice; playing := playing p; speed := speed p;
         index := if (List.length newSlice =? List.length (slice p))%nat then index p
                  else syncIndex (List.length newSlice) (index p) |}
  end.

(** A render of [App] that hands a new slice to the hook.  The effect
    [setProgress(0)] of [App] depends on [windowStart], [windowDuration]
    and [setProgress], which is a new callback whenever
    [observations.length] changes; so it runs when the window was moved
    or resized in this render ([windowMoved]) and when the length of the
    slice changed, after the effects of the hook. *)
Definition appSliceChanged (windowMoved : bool) (p : Player)
  (newSlice : list DerivedObservation) : Player :=
  let p1 := playbackStep p (SliceChanged newSlice) in
  if windowMoved || negb (List.length newSlice =? List.length (slice p))%nat
  then playbackStep p1 (SetProgress 0)
  else p1.

(** The invariant of the index: within the slice, and 0 on an empty one. *)
Definition indexInBounds (p : Player) : Prop :=
  (0 <= index p)%Z /\ (index p < Z.max 1 (Z.of_nat (List.length (slice p))))%Z.

(** ** The coalesce the specification describes *)

(** The finite number a value holds, in the wording of the specification:
    a finite number, or a string that parses to one.  [coalesceNumber]
    above is the code, which converts every value with [Number(...)]. *)
Definition finiteContent `{Host} (v : jsval) : option R :=
  match v with
  | JNumber (Fin x) => Some x
  | JString s => match StringToNumber s with Fin x => Some x | _ => None end
  | _ => None
  end.

(** The first candidate that holds a finite number, 0 when none does. *)
Fixpoint firstFiniteContent `{Host} (values : list jsval) : number :=
  match values with
  | [] => Fin 0
  | v :: rest =>
      match finiteContent v with
      | Some x => Fin x
      | None => firstFiniteContent rest
      end
  end.

(** The values whose conversion returns and is not finite: the ones the
    code skips. *)
Definition skipped `{Host} (v : jsval) : Prop :=
  exists n, Number_of v = Ok n /\ Number_isFinite n = false.


(** A value [Number(...)] and [String(...)] convert without throwing. *)
Definition convertible (v : jsval) : Prop := v <> JObject None.

(** ** The cursor the specification describes *)

(** The latest instant among the records of a batch, and the cursor "one
    second past the latest observed instant":
    [floor(max(instants) / 1000) + 1].  These follow the wording of the
    specification; [applyCursorAdvance] above is the code. *)
Definition latestInstant (batch : list DerivedObservation) : option Z :=
  fold_right
    (fun obs latest =>
       match getTime (date obs), latest with
       | Some t, Some m => Some (Z.max t m)
       | Some t, None => Some t
       | None, _ => latest
       end)
    None batch.

Definition cursorPastLatest (batch : list DerivedObservation) : number :=
  match latestInstant batch with
  | Some m => Fin (IZR (m / 1000 + 1))
  | None => NaN
  end.

(** ** A host for the examples *)

(** The closed examples below run on this host.  It reads strings of
    decimal digits as numbers, knows the dates of a few instants, and
    draws 0 from [Math.random()]. *)
Fixpoint digitsValue (acc : Z) (s : string) : option Z :=
  match s with
  | EmptyString => Some acc
  | String c rest =>
      let n := Z.of_nat (Ascii.nat_of_ascii c) in
      if ((48 <=? n) && (n <=? 57))%Z then digitsValue (10 * acc + (n - 48)) rest
      else None
  end.

Definition knownDates : list (string * Z) :=
  [("1970-01-01T00:00:00.000Z", 0%Z); ("1970-01-01T00:00:01.000Z", 1000%Z);
   ("1970-01-01T00:00:05.000Z", 5000%Z)].

Fixpoint dateOfText (table : list (string * Z)) (s : string) : Date :=
  match table with
  | [] => InvalidDate
  | (text, t) :: rest => if String.eqb text s then ValidDate t else dateOfText rest s
  end.

Fixpoint textOfDate (table : list (string * Z)) (t : Z) : string :=
  match table with
  | [] => "1970-01-01T00:00:00.000Z"
  | (text, u) :: rest => if (u =? t)%Z then text else textOfDate rest t
  end.

Definition exampleHost : Host :=
  {| StringToNumber := fun s =>
       match digitsValue 0 s with Some v => Fin (IZR v) | None => NaN end;
     Number_toString := fun n =>
       match n with
       | NaN => "NaN" | PosInf => "Infinity" | NegInf => "-Infinity" | Fin _ => "0"
       end;
     Date_parse := dateOfText knownDates;
     formatISO := textOfDate knownDates;
     Date_now := 0;
     randomId := "00000000-0000-4000-8000-000000000000";
     TypeError_toPrimitive := "Cannot convert object to primitive value";
     TypeError_nullRecord := "Cannot read properties of null (reading 'id')";
     Math_random := fun _ => 0%R |}.

(** ** Data for the examples *)

(** An observation with a given id, timestamp text and instant. *)
Definition sampleObservation (key stamp : string) (t : Z) : DerivedObservation :=
  {| id := key; missionId := "unknown"; timestamp := stamp; date := ValidDate t;
     altitude := Fin 0; temperature := Fin 0; humidity := Fin 0;
     speed_u := Fin 0; speed_v := Fin 0; windSpeed := Fin 0 |}.

(** The slice at the instants 0 s, 10 s and 30 s. *)
Definition threeSamples : list DerivedObservation :=
  [sampleObservation "a" "t0" 0; sampleObservation "b" "t10" 10000;
   sampleObservation "c" "t30" 30000].

(** Raw records as the upstream sends them. *)
Definition fieldsAt5 : Properties :=
  [("id", JString "a"); ("timestamp", JString "1970-01-01T00:00:05.000Z")].

Definition rawAt5 : RawObservation := ObjectRecord fieldsAt5.

Definition rawAt1 : RawObservation :=
  ObjectRecord
    [("id", JString "b"); ("timestamp", JString "1970-01-01T00:00:01.000Z")].

Definition exampleOptions (n : Z) : StreamOptions :=
  {| mission := None; limit := n; authHeader := Some "Basic Y2xpZW50OmtleQ==" |}.

Definition exampleStart : StreamState :=
  @initialState exampleHost None "1970-01-01T00:00:00.000Z".

(** A successful response that carries the given records and no
    [next_since]. *)
Definition responseOf (records : list RawObservation) : FetchResponse :=
  Responded true "200" (Parsed (Some records) JUndefined).

(** What the normaliser makes of [rawAt5] and [rawAt1] on the example
    host. *)
Definition normalizedAt (key stamp : string) (t : Z) : DerivedObservation :=
  {| id := key; missionId := "unknown"; timestamp := stamp; date := ValidDate t;
     altitude := Fin 0; temperature := Fin 0; humidity := Fin 0;
     speed_u := Fin 0; speed_v := Fin 0; windSpeed := Math_hypot (Fin 0) (Fin 0) |}.

Definition normalizedAt5 : DerivedObservation :=
  normalizedAt "a" "1970-01-01T00:00:05.000Z" 5000.

Definition normalizedAt1 : DerivedObservation :=
  normalizedAt "b" "1970-01-01T00:00:01.000Z" 1000.

(** Two records the upstream sends without an id. *)
Definition rawNoIdAt1 : RawObservation :=
  ObjectRecord
    [("id", JString ""); ("timestamp", JString "1970-01-01T00:00:01.000Z")].

Definition rawNoIdAt5 : RawObservation :=
  ObjectRecord
    [("id", JString ""); ("timestamp", JString "1970-01-01T00:00:05.000Z")].

(** The engine after one successful poll that returned [rawAt5]. *)
Definition exampleLoaded : StreamState :=
  @pull exampleHost (exampleOptions 250) (responseOf [rawAt5]) 1 exampleStart.

(** A record whose first altitude field is null, the altitude standing
    under the next alias. *)
Definition fieldsNullAltitude : Properties :=
  [("id", JString "a"); ("timestamp", JString "1970-01-01T00:00:05.000Z");
   ("altitude", JNull); ("altitude_m", JNumber (Fin 1200))].

Definition rawNullAltitude : RawObservation := ObjectRecord fieldsNullAltitude.

(** A record one of whose fields is the document [{"toString": 0}]. *)
Definition rawUnprintableAltitude : RawObservation :=
  ObjectRecord
    [("id", JString "a"); ("timestamp", JString "1970-01-01T00:00:05.000Z");
     ("altitude", JObject None)].

(** A record whose wind components are near the largest double. *)
Definition rawStorm : RawObservation :=
  ObjectRecord
    [("id", JString "a"); ("timestamp", JString "1970-01-01T00:00:05.000Z");
     ("speed_u", JNumber (Fin (3 * 2 ^ 1022)));
     ("speed_v", JNumber (Fin (3 * 2 ^ 1022)))].

(** A record whose timestamp is not a date. *)
Definition rawUnreadableTimestamp : RawObservation :=
  ObjectRecord [("id", JString "c"); ("timestamp", JString "soon")].

(** A record whose timestamp is in nanoseconds. *)
Definition rawNanoseconds : RawObservation :=
  ObjectRecord
    [("id", JString "a"); ("timestamp", JNumber (Fin 1700000000000000000))].

(** Ten samples, one second apart. *)
Definition tenSamples : list DerivedObservation :=
  map (fun n => sampleObservation "s" "t" (Z.of_nat n * 1000)) (seq 0 10).

(** ** The request of a poll *)


Definition sinceParam (cursor : number) : number :=
  match cursor with
  | Fin x => Fin (IZR (Z.max 0 (Math_floor x)))
  | PosInf => PosInf
  | NegInf => Fin 0
  | NaN => NaN
  end.

Definition missionParam (opts : StreamOptions) : option string :=
  match mission opts with
  | Some m => if String.eqb m "" then None else Some m
  | None => None
  end.

(** [timeRange]: the dates of the first and of the last record, [null] on
    an empty Series. *)
Definition timeRange (observations : list DerivedObservation) : option (Date * Date) :=
  match observations with
  | [] => None
  | first :: _ => Some (date first, date (List.last observations first))
  end.

(** ** The rest of the playback hook *)

(** [progress]: [index / (length - 1)], 0 for at most one record. *)
Definition progress (len : nat) (index : Z) : R :=
  if (len <=? 1)%nat then 0%R else (IZR index / (INR len - 1))%R.

(** [currentObservation: observations[index] ?? null] *)
Definition currentObservation (p : Player) : option DerivedObservation :=
  at_index (slice p) (index p).

(** [k] firings of the timer in a row. *)
Definition timerFirings (k : nat) (p : Player) : Player :=
  Nat.iter k (fun q => playbackStep q TimerFired) p.

(** ** The window of [App] *)

Definition HOURS_IN_DAY : Z := 24.
Definition DURATION_PRESETS : list Z := [1; 3; 6; 12; 24]%Z.

(** [filteredObservations]: the records whose distance from [sinceDate],
    in hours, lies between [windowStart] and [windowEnd].  A record with an
    Invalid Date has NaN hours and fails both comparisons. *)
Definition hoursFromStart (startMs : Z) (observation : DerivedObservation) : option R :=
  match getTime (date observation) with
  | Some t => Some ((IZR t - IZR startMs) / (60 * 60 * 1000))%R
  | None => None
  end.

Definition inWindow (startMs : Z) (startHour endHour : R)
  (observation : DerivedObservation) : bool :=
  match hoursFromStart startMs observation with
  | Some h =>
      (if Rle_dec startHour h then true else false) &&
      (if Rle_dec h endHour then true else false)
  | None => false
  end.

Definition filteredObservations (observations : list DerivedObservation)
  (startMs : Z) (windowStart windowEnd : R) : list DerivedObservation :=
  match observations with
  | [] => []
  | _ :: _ => filter (inWindow startMs windowStart windowEnd) observations
  end.

(** The window state: [windowStart] and [windowDuration], whole hours. *)
Record Window : Type := {
  windowStart : Z;
  windowDuration : Z
}.

(** [windowEnd = Math.min(windowStart + windowDuration, HOURS_IN_DAY)] *)
Definition windowEnd (w : Window) : Z :=
  Z.min (windowStart w + windowDuration w) HOURS_IN_DAY.

(** [maxWindowStart = Math.max(0, HOURS_IN_DAY - windowDuration)] *)
Definition maxWindowStart (w : Window) : Z :=
  Z.max 0 (HOURS_IN_DAY - windowDuration w).

(** The effect on [windowDuration]:
    [setWindowStart(prev => Math.min(prev, Math.max(0, 24 - windowDuration)))]. *)
Definition clampWindowStart (w : Window) : Window :=
  {| windowStart := Z.min (windowStart w) (Z.max 0 (HOURS_IN_DAY - windowDuration w));
     windowDuration := windowDuration w |}.

(** [setWindowDuration(preset)], followed by the effect. *)
Definition chooseDuration (preset : Z) (w : Window) : Window :=
  clampWindowStart {| windowStart := windowStart w; windowDuration := preset |}.

(** [moveWindowToPosition], for the pointer at the fraction [relative] of
    the track (the track is mounted). *)
Definition moveWindowToPosition (relative : R) (w : Window) : Window :=
  if (maxWindowStart w <=? 0)%Z then w
  else
    let centeredStart := (relative * IZR HOURS_IN_DAY - IZR (windowDuration w) / 2)%R in
    let clamped := Z.min (Z.max (Math_round centeredStart) 0) (maxWindowStart w) in
    {| windowStart := clamped; windowDuration := windowDuration w |}.

Inductive WindowOp : Type :=
| ChooseDuration (preset : Z)
| MoveTo (relative : R).

Definition windowStep (w : Window) (op : WindowOp) : Window :=
  match op with
  | ChooseDuration preset => chooseDuration preset w
  | MoveTo relative => moveWindowToPosition relative w
  end.

(** The window [App] starts with. *)
Definition initialWindow : Window := {| windowStart := 0; windowDuration := HOURS_IN_DAY |}.

(** The window lies within the day and has its full duration. *)
Definition windowWithinDay (w : Window) : Prop :=
  (0 <= windowStart w)%Z /\ (windowStart w + windowDuration w <= HOURS_IN_DAY)%Z.

(** ** The sonifier *)

Record Range : Type := { range_min : R; range_max : R }.

Definition ALTITUDE_RANGE : Range := {| range_min := 0; range_max := 33000 |}.
Definition TEMPERATURE_RANGE : Range := {| range_min := -80; range_max := 35 |}.
Definition WIND_RANGE : Range := {| range_min := 0; range_max := 70 |}.
Definition HUMIDITY_RANGE : Range := {| range_min := 0; range_max := 100 |}.

Definition SCALE : list string :=
  ["C3"; "D3"; "E3"; "G3"; "A3"; "C4"; "D4"; "E4"; "G4"; "A4"; "C5"].

(** [normalize(value, range)]; [range.max - range.min || 1] guards the
    division. *)
Definition normalize (value : R) (range : Range) : R :=
  let clamped := clamp value (range_min range) (range_max range) in
  let width := (range_max range - range_min range)%R in
  ((clamped - range_min range) / (if Req_dec_T width 0 then 1 else width))%R.

(** The index [altitudeToPitch] reads [SCALE] at. *)
Definition pitchIndex (altitude : R) : Z :=
  let ratio := normalize altitude ALTITUDE_RANGE in
  Z.min (Z.of_nat (List.length SCALE) - 1)
        (Z.max 0 (Math_floor (ratio * INR (List.length SCALE)))).

Definition altitudeToPitch (altitude : R) : option string :=
  at_index SCALE (pitchIndex altitude).

Definition temperatureToFrequency (temperature : R) : R :=
  (200 + normalize temperature TEMPERATURE_RANGE * 6500)%R.

Definition humidityToReverb (humidity : R) : R :=
  (0.1 + normalize humidity HUMIDITY_RANGE * 0.7)%R.

Definition windToGain (windSpeed : R) : R :=
  (0.2 + normalize windSpeed WIND_RANGE * 0.8)%R.

Definition windToLfo (windSpeed : R) : R :=
  (0.1 + normalize windSpeed WIND_RANGE * 6)%R.

(** ** Helpers for the synthetic generator *)

(** [timestampMs] of the record at [index], as [syntheticObservation]
    computes it. *)
Definition syntheticTimestampMs `{Host} (startMs count : Z) (index : nat) : R :=
  (IZR startMs + INR index * (24 * 60 * 60 * 1000 / IZR (Z.max count 1)) +
   randRange (Math_random (6 * index + 0)) (-2) 2 * 60 * 1000)%R.

(** Options of an engine that was given no credentials. *)
Definition optionsWithoutCredentials : StreamOptions :=
  {| mission := None; limit := 3; authHeader := None |}.

(** ** The status line and the timeline of [App] *)

(** [statusLabel].  [if (stream.error)] takes a non-empty message;
    [stream.error ?? ...] takes any message, the empty one too.  The
    template literal converts the length with [Number::toString]. *)
Definition statusLabel `{Host} (status : StreamStatus) (error : option string)
  (sliceLength : nat) : string :=
  match status with
  | StatusLoading => "Listening for the last 24 hours of telemetry…"
  | StatusReady =>
      match error with
      | Some message =>
          if negb (String.eqb message "") then message
          else if (sliceLength =? 0)%nat then "No observations in the selected hour window."
          else "Streaming " ++ Number_toString (Fin (INR sliceLength))
                 ++ " observations from the selected hours."
      | None =>
          if (sliceLength =? 0)%nat then "No observations in the selected hour window."
          else "Streaming " ++ Number_toString (Fin (INR sliceLength))
                 ++ " observations from the selected hours."
      end
  | StatusError =>
      match error with
      | Some message => message
      | None => "Unable to reach WindBorne."
      end
  | StatusIdle => "Standing by."
  end.

(** [formatRelative(date)], at the reading [now] of [Date.now()].  On an
    Invalid Date [delta] is NaN, both comparisons fail and the hours are
    NaN. *)
Definition formatRelative `{Host} (now : Z) (date : Date) : string :=
  match getTime date with
  | Some t =>
      let delta := (now - t)%Z in
      if (delta <? 1000 * 60)%Z then "just now"
      else if (delta <? 1000 * 60 * 60)%Z then
        Number_toString (Fin (IZR (Math_round (IZR delta / (1000 * 60))))) ++ " min ago"
      else
        let hours := Math_round (IZR delta / (1000 * 60 * 60)) in
        Number_toString (Fin (IZR hours)) ++ "h ago"
  | None => Number_toString NaN ++ "h ago"
  end.

(** The percentages the timeline is drawn with. *)
Definition chunkStartPct (w : Window) : R :=
  (IZR (windowStart w) / IZR HOURS_IN_DAY * 100)%R.

Definition chunkEndPct (w : Window) : R :=
  (IZR (windowEnd w) / IZR HOURS_IN_DAY * 100)%R.

Definition chunkWidthPct (w : Window) : R := (chunkEndPct w - chunkStartPct w)%R.

Definition playbackMarkerPct (w : Window) (progress : R) : R :=
  (chunkStartPct w + chunkWidthPct w * progress)%R.

(** * Properties *)

(** ** Arithmetic helpers *)

Lemma clamp_between (value lo hi : R) :
  (lo <= hi)%R -> (lo <= clamp value lo hi <= hi)%R.
Proof.
  intros Hle. unfold clamp. split.
  - apply Rmin_glb; [apply Rmax_r | exact Hle].
  - apply Rmin_r.
Qed.

Lemma clamp_inside (value lo hi : R) :
  (lo <= value <= hi)%R -> clamp value lo hi = value.
Proof.
  intros [Hlo Hhi]. unfold clamp.
  rewrite Rmax_left by exact Hlo. now rewrite Rmin_left.
Qed.

Lemma clamp_above (value lo hi : R) :
  (lo <= hi <= value)%R -> clamp value lo hi = hi.
Proof.
  intros [Hlo Hhi]. unfold clamp.
  rewrite Rmax_left by lra. now rewrite Rmin_right.
Qed.

Lemma clamp_below (value lo hi : R) :
  (value <= lo <= hi)%R -> clamp value lo hi = lo.
Proof.
  intros [Hlo Hhi]. unfold clamp.
  rewrite Rmax_right by lra. now rewrite Rmin_left.
Qed.

Lemma Math_floor_bounds (x : R) : (IZR (Math_floor x) <= x < IZR (Math_floor x) + 1)%R.
Proof. unfold Math_floor. destruct (base_Int_part x). lra. Qed.

Lemma Math_floor_IZR (k : Z) : Math_floor (IZR k) = k.
Proof. unfold Math_floor. symmetry. apply Int_part_spec. lra. Qed.

Lemma Math_floor_monotone (x y : R) : (x <= y)%R -> (Math_floor x <= Math_floor y)%Z.
Proof.
  intros Hxy. pose proof (Math_floor_bounds x). pose proof (Math_floor_bounds y).
  apply Z.lt_succ_r, lt_IZR. rewrite succ_IZR. lra.
Qed.

Lemma Math_round_monotone (x y : R) : (x <= y)%R -> (Math_round x <= Math_round y)%Z.
Proof. intros Hxy. apply Math_floor_monotone. lra. Qed.

(** ** Rounding to a double *)

Lemma pow2_pos (j : nat) : (0 < 2 ^ j)%R.
Proof. apply pow_lt. lra. Qed.

Lemma pow2_IZR (j : nat) : (2 ^ j)%R = IZR (2 ^ Z.of_nat j).
Proof. now rewrite <- pow_IZR. Qed.

Lemma pow2_monotone (i j : nat) : (i <= j)%nat -> (2 ^ i <= 2 ^ j)%R.
Proof. intros Hij. apply Rle_pow; [lra | exact Hij]. Qed.

Lemma roundHalfEven_floor (y : R) :
  roundHalfEven y = Math_floor y \/ roundHalfEven y = (Math_floor y + 1)%Z.
Proof.
  unfold roundHalfEven, Math_floor.
  destruct (Rlt_dec _ _); [now left |].
  destruct (Rlt_dec _ _); [now right |].
  destruct (Z.even _); [now left | now right].
Qed.

(** The rounded integer lies within a half of the real. *)
Lemma roundHalfEven_near (y : R) :
  (IZR (roundHalfEven y) - / 2 <= y <= IZR (roundHalfEven y) + / 2)%R.
Proof.
  unfold roundHalfEven. destruct (base_Int_part y) as [Hle Hgt].
  destruct (Rlt_dec (y - IZR (Int_part y)) (/ 2)) as [Hlow | Hlow]; [lra |].
  destruct (Rlt_dec (/ 2) (y - IZR (Int_part y))) as [Hup | Hup].
  - rewrite plus_IZR. lra.
  - destruct (Z.even (Int_part y)); [lra | rewrite plus_IZR; lra].
Qed.

Lemma roundHalfEven_eval (y : R) (m : Z) :
  (IZR m - / 2 < y < IZR m + / 2)%R -> roundHalfEven y = m.
Proof.
  intros [Hlo Hhi]. pose proof (roundHalfEven_near y) as [Hle Hge].
  assert (H1 : (roundHalfEven y < m + 1)%Z).
  { apply lt_IZR. rewrite plus_IZR. lra. }
  assert (H2 : (m < roundHalfEven y + 1)%Z).
  { apply lt_IZR. rewrite plus_IZR. lra. }
  lia.
Qed.

Lemma roundHalfEven_IZR (k : Z) : roundHalfEven (IZR k) = k.
Proof. apply roundHalfEven_eval. lra. Qed.

Lemma roundHalfEven_monotone (y z : R) :
  (y <= z)%R -> (roundHalfEven y <= roundHalfEven z)%Z.
Proof.
  intros Hyz. pose proof (Math_floor_monotone y z Hyz) as Hfloor.
  destruct (Z.eq_dec (Math_floor y) (Math_floor z)) as [Heq | Hne].
  - unfold roundHalfEven. unfold Math_floor in Heq. rewrite <- Heq.
    destruct (Rlt_dec (y - IZR (Int_part y)) (/ 2)) as [Hy | Hy];
      destruct (Rlt_dec (z - IZR (Int_part y)) (/ 2)) as [Hz | Hz];
      try destruct (Rlt_dec (/ 2) (y - IZR (Int_part y))) as [Hy' | Hy'];
      try destruct (Rlt_dec (/ 2) (z - IZR (Int_part y))) as [Hz' | Hz'];
      try destruct (Z.even (Int_part y)); try lia; exfalso; lra.
  - destruct (roundHalfEven_floor y) as [-> | ->];
      destruct (roundHalfEven_floor z) as [-> | ->]; lia.
Qed.

Lemma placesFrom_spec (fuel j : nat) (a : R) :
  (j <= placesFrom fuel j a <= j + fuel)%nat /\
  ((2 ^ 52 <= a * 2 ^ placesFrom fuel j a)%R \/ placesFrom fuel j a = (j + fuel)%nat) /\
  (forall i, (j <= i < placesFrom fuel j a)%nat -> (a * 2 ^ i < 2 ^ 52)%R).
Proof.
  revert j. induction fuel as [| fuel IH]; intros j; cbn [placesFrom].
  - split; [lia |]. split; [right; lia |]. intros i Hi. lia.
  - destruct (Rle_dec (2 ^ 52) (a * 2 ^ j)) as [Hle | Hlt].
    + split; [lia |]. split; [now left |]. intros i Hi. lia.
    + destruct (IH (S j)) as (Hrange & Hfound & Hbelow).
      split; [lia |]. split.
      * destruct Hfound as [Hfound | Hend]; [now left | right; lia].
      * intros i Hi. destruct (Nat.eq_dec i j) as [-> | Hne].
        -- now apply Rnot_le_lt.
        -- apply Hbelow. lia.
Qed.

(** The places of a number whose scaled magnitude lies in [2^52, 2^53). *)
Lemma binaryPlaces_eval (x : R) (j : nat) :
  (j <= 1074)%nat -> (2 ^ 52 <= Rabs x * 2 ^ j < 2 ^ 53)%R -> binaryPlaces x = j.
Proof.
  intros Hj [Hlo Hhi]. unfold binaryPlaces.
  destruct (placesFrom_spec 1074 0 (Rabs x)) as (Hrange & Hfound & Hbelow).
  set (p := placesFrom 1074 0 (Rabs x)) in *.
  pose proof (Rabs_pos x) as Hx.
  destruct (Nat.lt_trichotomy p j) as [Hlt | [Heq | Hgt]]; [| exact Heq |].
  - exfalso. destruct Hfound as [Hfound | Hend]; [| lia].
    assert (Hstep : (2 * 2 ^ p <= 2 ^ j)%R).
    { change (2 * 2 ^ p)%R with (2 ^ S p)%R. apply pow2_monotone. lia. }
    change (2 ^ 53)%R with (2 * 2 ^ 52)%R in Hhi.
    pose proof (pow2_pos p). nra.
  - exfalso. assert (Hj' : (Rabs x * 2 ^ j < 2 ^ 52)%R) by (apply Hbelow; lia). lra.
Qed.

(** A bound by an integer survives the rounding: every integer is a
    multiple of the spacing. *)
Lemma double_le_IZR (x : R) (k : Z) : (x <= IZR k)%R -> (double x <= IZR k)%R.
Proof.
  intros Hxk. unfold double. destruct (Rle_dec _ _) as [_ | _]; [exact Hxk |].
  set (j := binaryPlaces x). pose proof (pow2_pos j) as Hpos.
  assert (Hround : (roundHalfEven (x * 2 ^ j) <= k * 2 ^ Z.of_nat j)%Z).
  { rewrite <- (roundHalfEven_IZR (k * 2 ^ Z.of_nat j)).
    apply roundHalfEven_monotone. rewrite mult_IZR, <- pow2_IZR. nra. }
  apply IZR_le in Hround. rewrite mult_IZR, <- pow2_IZR in Hround.
  apply (Rmult_le_reg_r (2 ^ j)); [exact Hpos |].
  unfold Rdiv. rewrite Rmult_assoc, Rinv_l by lra. lra.
Qed.

Lemma double_ge_IZR (x : R) (k : Z) : (IZR k <= x)%R -> (IZR k <= double x)%R.
Proof.
  intros Hxk. unfold double. destruct (Rle_dec _ _) as [_ | _]; [exact Hxk |].
  set (j := binaryPlaces x). pose proof (pow2_pos j) as Hpos.
  assert (Hround : (k * 2 ^ Z.of_nat j <= roundHalfEven (x * 2 ^ j))%Z).
  { rewrite <- (roundHalfEven_IZR (k * 2 ^ Z.of_nat j)).
    apply roundHalfEven_monotone. rewrite mult_IZR, <- pow2_IZR. nra. }
  apply IZR_le in Hround. rewrite mult_IZR, <- pow2_IZR in Hround.
  apply (Rmult_le_reg_r (2 ^ j)); [exact Hpos |].
  unfold Rdiv. rewrite Rmult_assoc, Rinv_l by lra. lra.
Qed.

(** An integer is not rounded. *)
Lemma double_IZR (k : Z) : double (IZR k) = IZR k.
Proof.
  apply Rle_antisym; [apply double_le_IZR | apply double_ge_IZR]; lra.
Qed.

(** The rounding error is at most half the spacing. *)
Lemma double_near (x : R) :
  (Rabs (double x - x) <= / 2 / 2 ^ binaryPlaces x)%R.
Proof.
  unfold double. pose proof (pow2_pos (binaryPlaces x)) as Hpos.
  assert (Hinv : (0 < / 2 ^ binaryPlaces x)%R) by now apply Rinv_0_lt_compat.
  destruct (Rle_dec _ _) as [_ | _].
  - replace (x - x)%R with 0%R by ring. rewrite Rabs_R0.
    unfold Rdiv. nra.
  - set (j := binaryPlaces x) in *.
    pose proof (roundHalfEven_near (x * 2 ^ j)) as [Hlo Hhi].
    replace (IZR (roundHalfEven (x * 2 ^ j)) / 2 ^ j - x)%R
      with ((IZR (roundHalfEven (x * 2 ^ j)) - x * 2 ^ j) / 2 ^ j)%R
      by (field; lra).
    unfold Rdiv. rewrite Rabs_mult, (Rabs_right (/ 2 ^ j)) by lra.
    apply Rmult_le_compat_r; [lra |]. apply Rabs_le. lra.
Qed.

(** The value of a rounding, read off the scaled number. *)
Lemma double_eval (x : R) (j : nat) (m : Z) :
  (j <= 1074)%nat -> (2 ^ 52 <= Rabs x * 2 ^ j < 2 ^ 53)%R ->
  (IZR m - / 2 < x * 2 ^ j < IZR m + / 2)%R ->
  double x = (IZR m / 2 ^ j)%R.
Proof.
  intros Hj Hscale Hm. unfold double.
  pose proof (pow2_pos j) as Hpos.
  destruct (Rle_dec (2 ^ 53) (Rabs x)) as [Hbig | _].
  - exfalso. assert (H1 : (1 <= 2 ^ j)%R) by (apply pow_R1_Rle; lra).
    pose proof (Rabs_pos x). nra.
  - rewrite (binaryPlaces_eval x j Hj Hscale).
    now rewrite (roundHalfEven_eval _ m Hm).
Qed.

(** [Math.round] yields the integer within a half of its argument, the
    upper one at a tie. *)
Lemma Math_round_nearest (x : R) :
  (IZR (Math_round x) - / 2 <= x < IZR (Math_round x) + / 2)%R.
Proof.
  unfold Math_round.
  destruct (base_Int_part (x + / 2)) as [Hle Hgt]. lra.
Qed.

Lemma Math_round_unique (x : R) (k : Z) :
  (IZR k - / 2 <= x < IZR k + / 2)%R -> Math_round x = k.
Proof.
  intros [Hlo Hhi]. unfold Math_round. symmetry.
  apply Int_part_spec. lra.
Qed.

Lemma Math_round_range (x : R) (n : Z) :
  (0 <= x <= IZR n)%R -> (0 <= Math_round x <= n)%Z.
Proof.
  intros [Hlo Hhi].
  destruct (Math_round_nearest x) as [Hle Hlt].
  split.
  - apply Z.lt_succ_r, lt_IZR. rewrite succ_IZR. lra.
  - apply Z.lt_succ_r, lt_IZR. rewrite succ_IZR. lra.
Qed.

Lemma INR_pred_S (n : nat) : (INR (S n) - 1)%R = IZR (Z.of_nat n).
Proof. rewrite S_INR, INR_IZR_INZ. lra. Qed.

Lemma at_index_in_range {A : Type} (l : list A) (i : Z) :
  (0 <= i < Z.of_nat (List.length l))%Z -> exists x, at_index l i = Some x.
Proof.
  intros [Hlo Hhi]. unfold at_index.
  destruct (Z.ltb_spec i 0) as [Hneg | _]; [lia |].
  destruct (nth_error l (Z.to_nat i)) as [x |] eqn:Hnth.
  - now exists x.
  - apply nth_error_None in Hnth. lia.
Qed.

(** ** The playback hook *)

Lemma schedule_in_range (S : list DerivedObservation) (i : Z) (speed : R)
  (current next : DerivedObservation) :
  (2 <= List.length S)%nat ->
  at_index S i = Some current -> at_index S (i + 1) = Some next ->
  schedule S i true speed =
    SetTimeout match timeDelta next current with
               | Some delta =>
                   Fin (clamp (IZR delta / Rmax 0.25 speed) 400 10000)
               | None => NaN
               end.
Proof.
  intros Hlen Hcur Hnext. unfold schedule.
  destruct (Nat.ltb_spec (List.length S) 2) as [Hlt | _]; [lia |].
  simpl. now rewrite Hnext, Hcur.
Qed.

(** Evaluation of a scaled delta, and of its clamped value, at numerals. *)
Ltac scaled_value :=
  unfold safeSpeed;
  first [ rewrite Rmax_right by lra | rewrite Rmax_left by lra ];
  lra.

Ltac delay_value :=
  unfold safeSpeed;
  first [ rewrite Rmax_right by lra | rewrite Rmax_left by lra ];
  first [ rewrite clamp_inside by lra | rewrite clamp_above by lra
        | rewrite clamp_below by lra ];
  lra.

Ltac scheduled_at current next :=
  rewrite (schedule_in_range _ _ _ current next)
    by (reflexivity || (cbn; lia));
  cbn; do 2 f_equal; delay_value.

(** C7: while playing on a slice of at least two elements with the index
    before the last, the scheduling effect sets a timer whose delay is
    [clamp((instant(S[index+1]) - instant(S[index])) / max(0.25, speed),
    400, 10000)], which lies in [400, 10000], and the timer moves the
    index one step on.  For the instants 0 s, 10 s, 30 s the scaled deltas
    are 10000 and 20000 at speed 1, 5000 and 10000 at speed 2, and the
    delays are these values clamped. *)
Theorem playback_delay_clamped_scaled_delta :
  (forall (S : list DerivedObservation) (i : Z) (v : R),
      (2 <= List.length S)%nat ->
      (0 <= i < Z.of_nat (List.length S) - 1)%Z ->
      exists current next,
        at_index S i = Some current /\ at_index S (i + 1) = Some next /\
        schedule S i true v =
          SetTimeout match timeDelta next current with
                     | Some delta =>
                         Fin (clamp (IZR delta / Rmax 0.25 v) 400 10000)
                     | None => NaN
                     end /\
        (forall a b, date current = ValidDate a -> date next = ValidDate b ->
           schedule S i true v =
             SetTimeout (Fin (clamp (IZR (b - a) / Rmax 0.25 v) 400 10000)) /\
           (400 <= clamp (IZR (b - a) / Rmax 0.25 v) 400 10000 <= 10000)%R) /\
        index (playbackStep {| slice := S; playing := true; speed := v; index := i |}
                 TimerFired) = (i + 1)%Z) /\
  ((IZR (10000 - 0) / safeSpeed 1 = 10000)%R /\
   (IZR (30000 - 10000) / safeSpeed 1 = 20000)%R /\
   (IZR (10000 - 0) / safeSpeed 2 = 5000)%R /\
   (IZR (30000 - 10000) / safeSpeed 2 = 10000)%R /\
   schedule threeSamples 0 true 1 = SetTimeout (Fin 10000) /\
   schedule threeSamples 1 true 1 = SetTimeout (Fin 10000) /\
   schedule threeSamples 0 true 2 = SetTimeout (Fin 5000) /\
   schedule threeSamples 1 true 2 = SetTimeout (Fin 10000)).
Proof.
  split.
  - intros S i v Hlen Hi.
    destruct (at_index_in_range S i) as [current Hcur]; [lia |].
    destruct (at_index_in_range S (i + 1)) as [next Hnext]; [lia |].
    exists current, next.
    pose proof (schedule_in_range S i v current next Hlen Hcur Hnext) as Hsched.
    repeat split; try assumption.
    + intros. rewrite Hsched. unfold timeDelta.
      match goal with Hc : date current = _, Hn : date next = _ |- _ =>
        rewrite Hn, Hc end.
      reflexivity.
    + apply clamp_between. lra.
    + apply clamp_between. lra.
    + unfold playbackStep. cbn [slice index playing speed].
      rewrite Hsched. unfold with_index, advance. cbn [index]. lia.
  - repeat split; try (cbn; scaled_value).
    + scheduled_at (sampleObservation "a" "t0" 0) (sampleObservation "b" "t10" 10000).
    + scheduled_at (sampleObservation "b" "t10" 10000) (sampleObservation "c" "t30" 30000).
    + scheduled_at (sampleObservation "a" "t0" 0) (sampleObservation "b" "t10" 10000).
    + scheduled_at (sampleObservation "b" "t10" 10000) (sampleObservation "c" "t30" 30000).
Qed.

Lemma playback_delay_clamped_scaled_delta_witness :
  exists current next,
    at_index threeSamples 0 = Some current /\ at_index threeSamples (0 + 1) = Some next /\
    schedule threeSamples 0 true 1 =
      SetTimeout match timeDelta next current with
                 | Some delta => Fin (clamp (IZR delta / Rmax 0.25 1) 400 10000)
                 | None => NaN
                 end /\
    (forall a b, date current = ValidDate a -> date next = ValidDate b ->
       schedule threeSamples 0 true 1 =
         SetTimeout (Fin (clamp (IZR (b - a) / Rmax 0.25 1) 400 10000)) /\
       (400 <= clamp (IZR (b - a) / Rmax 0.25 1) 400 10000 <= 10000)%R) /\
    index (playbackStep {| slice := threeSamples; playing := true; speed := 1; index := 0 |}
             TimerFired) = (0 + 1)%Z.
Proof.
  apply (proj1 playback_delay_clamped_scaled_delta threeSamples 0%Z 1%R).
  - cbn. lia.
  - cbn. lia.
Defined.

Lemma schedule_needs_two (S : list DerivedObservation) (i : Z) (on : bool) (v : R)
  (delay : number) :
  schedule S i on v = SetTimeout delay -> (2 <= List.length S)%nat.
Proof.
  unfold schedule. intros Hs.
  destruct (Nat.ltb_spec (List.length S) 2) as [Hlt | Hge]; [| exact Hge].
  rewrite orb_true_r in Hs. discriminate.
Qed.

Lemma setProgress_range (n : nat) (p : R) (i : Z) :
  (0 <= setProgress (S n) p i <= Z.of_nat n)%Z.
Proof.
  unfold setProgress. apply Math_round_range.
  rewrite INR_pred_S.
  pose proof (clamp_between p 0 1 ltac:(lra)) as Hc.
  pose proof (IZR_le 0 (Z.of_nat n) ltac:(lia)) as Hn.
  split; [apply (double_ge_IZR _ 0) | apply double_le_IZR]; nra.
Qed.

Lemma playbackStep_in_bounds (p : Player) (op : PlaybackOp) :
  indexInBounds p -> indexInBounds (playbackStep p op).
Proof.
  unfold indexInBounds. intros [Hlo Hhi].
  destruct op; cbn [playbackStep with_index index slice playing speed].
  - destruct (schedule (slice p) (index p) (playing p) (speed p)) eqn:Hs;
      cbn [with_index index slice]; try (split; assumption).
    apply schedule_needs_two in Hs. unfold advance. lia.
  - unfold stepForward.
    destruct (List.length (slice p)) eqn:Hlen; lia.
  - unfold stepBackward. lia.
  - destruct (List.length (slice p)) as [| n] eqn:Hlen.
    + unfold setProgress. lia.
    + pose proof (setProgress_range n value (index p)) as Hr. lia.
  - destruct (Nat.eqb_spec (List.length newSlice) (List.length (slice p))) as [Heq | Hne].
    + rewrite Heq. lia.
    + unfold syncIndex. destruct (List.length newSlice); lia.
Qed.

(** C8: the index starts within bounds and every operation of the hook
    (timer advance, stepForward, stepBackward, setProgress, change of
    slice) keeps it there, so [0 <= index < length(slice)] on a non-empty
    slice; and when the slice shrinks to a smaller non-zero length [n],
    the index becomes [min(index, n - 1)]. *)
Theorem playback_index_within_slice :
  (forall S on v,
      indexInBounds {| slice := S; playing := on; speed := v; index := 0 |}) /\
  (forall p op, indexInBounds p -> indexInBounds (playbackStep p op)) /\
  (forall p, indexInBounds p -> slice p <> [] ->
      (0 <= index p < Z.of_nat (List.length (slice p)))%Z) /\
  (forall p newSlice,
      (0 < List.length newSlice < List.length (slice p))%nat ->
      index (playbackStep p (SliceChanged newSlice)) =
        Z.min (index p) (Z.of_nat (List.length newSlice) - 1)).
Proof.
  split; [| split; [| split]].
  - intros S on v. unfold indexInBounds. cbn. lia.
  - exact playbackStep_in_bounds.
  - intros p [Hlo Hhi] Hne. destruct (slice p); [contradiction | cbn in *; lia].
  - intros p newSlice [Hpos Hlt]. cbn.
    destruct (Nat.eqb_spec (List.length newSlice) (List.length (slice p))); [lia |].
    unfold syncIndex. destruct (List.length newSlice); [lia | reflexivity].
Qed.

Lemma playback_index_within_slice_witness :
  let p := {| slice := tenSamples; playing := false; speed := 1; index := 7 |} in
  indexInBounds (playbackStep p StepForward) /\
  (0 <= index p < Z.of_nat (List.length (slice p)))%Z /\
  index (playbackStep p (SliceChanged (firstn 4 tenSamples))) = 3%Z.
Proof.
  destruct playback_index_within_slice as (_ & Hstep & Hbound & Hshrink).
  assert (Hp : indexInBounds {| slice := tenSamples; playing := false; speed := 1; index := 7 |}).
  { unfold indexInBounds. cbn. lia. }
  split; [| split].
  - apply Hstep. exact Hp.
  - apply Hbound; [exact Hp | discriminate].
  - rewrite Hshrink; [reflexivity | cbn; lia].
Defined.

Lemma Math_round_IZR (k : Z) : Math_round (IZR k) = k.
Proof. apply Math_round_unique. lra. Qed.

(** Composed with the effect of [App], a change of the slice length
    leaves the index at 0: the position the hook kept is reset by the
    caller. *)
Lemma setProgress_zero (n : nat) (i : Z) : setProgress (S n) 0 i = 0%Z.
Proof.
  unfold setProgress.
  rewrite clamp_inside by lra. rewrite Rmult_0_l, (double_IZR 0). apply (Math_round_IZR 0).
Qed.

Remark app_resets_index_on_length_change (windowMoved : bool) (p : Player)
  (newSlice : list DerivedObservation) :
  List.length newSlice <> List.length (slice p) ->
  index (appSliceChanged windowMoved p newSlice) = 0%Z.
Proof.
  intros Hne. unfold appSliceChanged.
  destruct (Nat.eqb_spec (List.length newSlice) (List.length (slice p))) as [Heq | _];
    [contradiction |].
  rewrite orb_true_r.
  cbn [playbackStep with_index index slice].
  destruct (Nat.eqb_spec (List.length newSlice) (List.length (slice p))) as [Heq | _];
    [contradiction |].
  destruct newSlice as [| o rest]; [reflexivity |].
  cbn [List.length]. apply setProgress_zero.
Qed.

(** C10: on a non-empty slice, [setProgress(p)] for any real [p] stores
    [Math.round(clamp(p, 0, 1) * (length - 1))], the product being the
    double the multiplication yields: the index is the integer within a
    half of that double (the upper one at a tie), it lies in
    [0, length - 1], it is the product itself where that is a whole
    number, so [p <= 0] gives index 0 and [p >= 1] gives the last index,
    and the double is within half a unit in its last place of the exact
    product.  On an empty slice the index is left as it is. *)
Theorem setProgress_rounds_clamped_fraction :
  (forall (o : DerivedObservation) (S : list DerivedObservation) (p : R) (i : Z),
      let len := List.length (o :: S) in
      let exact := (clamp p 0 1 * (INR len - 1))%R in
      let x := double exact in
      let k := setProgress len p i in
      k = Math_round x /\
      (IZR k - / 2 <= x < IZR k + / 2)%R /\
      (Rabs (x - exact) <= / 2 / 2 ^ binaryPlaces exact)%R /\
      (forall m : Z, exact = IZR m -> k = m) /\
      (0 <= k <= Z.of_nat len - 1)%Z /\
      index (playbackStep {| slice := o :: S; playing := false; speed := 1; index := i |}
               (SetProgress p)) = k /\
      ((p <= 0)%R -> k = 0%Z) /\
      ((1 <= p)%R -> k = (Z.of_nat len - 1)%Z)) /\
  (forall (p : R) (i : Z),
      setProgress (List.length (@nil DerivedObservation)) p i = i /\
      index (playbackStep {| slice := []; playing := false; speed := 1; index := i |}
               (SetProgress p)) = i).
Proof.
  split.
  - intros o S p i len exact x k.
    assert (Hk : k = Math_round x) by reflexivity.
    assert (Hlen : (INR len - 1)%R = IZR (Z.of_nat (List.length S))).
    { subst len. cbn [List.length]. apply INR_pred_S. }
    assert (Hwhole : forall m : Z, exact = IZR m -> k = m).
    { intros m Hm. rewrite Hk. unfold x. rewrite Hm, double_IZR. apply Math_round_IZR. }
    split; [exact Hk |]. split; [rewrite Hk; apply Math_round_nearest |].
    split; [apply double_near |]. split; [exact Hwhole |].
    split.
    { pose proof (setProgress_range (List.length S) p i) as Hr.
      subst k len. cbn [List.length]. lia. }
    split; [reflexivity |]. split.
    + intros Hp. apply Hwhole. subst exact. rewrite clamp_below by lra. ring.
    + intros Hp. replace (Z.of_nat len - 1)%Z with (Z.of_nat (List.length S))
        by (subst len; cbn [List.length]; lia).
      apply Hwhole. subst exact. rewrite clamp_above by lra. rewrite Hlen. ring.
  - intros p i. split; reflexivity.
Qed.

Lemma setProgress_rounds_clamped_fraction_witness :
  setProgress (List.length tenSamples) (-3) 7 = 0%Z /\
  setProgress (List.length tenSamples) 7 2 = 9%Z.
Proof.
  destruct (proj1 setProgress_rounds_clamped_fraction
              (sampleObservation "s" "t" 0) (tl tenSamples) (-3)%R 7%Z)
    as (_ & _ & _ & _ & _ & _ & Hlow & _).
  destruct (proj1 setProgress_rounds_clamped_fraction
              (sampleObservation "s" "t" 0) (tl tenSamples) 7%R 2%Z)
    as (_ & _ & _ & _ & _ & _ & _ & Hhigh).
  split.
  - apply Hlow. lra.
  - apply Hhigh. lra.
Defined.

(** The slider value 0.3 on six records.  The double nearest to 0.3 is
    [5404319552844595 / 2^54], just below 0.3; its product with 5 is
    rounded to the double 1.5, so the index stored is 2, where the exact
    product would round to 1. *)
Remark setProgress_at_slider_value_three_tenths (i : Z) :
  setProgress 6 (5404319552844595 / 2 ^ 54) i = 2%Z /\
  Math_round (clamp (5404319552844595 / 2 ^ 54) 0 1 * (INR 6 - 1)) = 1%Z.
Proof.
  assert (Hclamp : clamp (5404319552844595 / 2 ^ 54) 0 1 = (5404319552844595 / 2 ^ 54)%R).
  { apply clamp_inside. lra. }
  assert (Hlen : (INR 6 - 1)%R = 5%R) by (cbn; lra).
  split.
  - unfold setProgress. rewrite Hclamp, Hlen.
    rewrite (double_eval _ 52 6755399441055744).
    + apply Math_round_unique. lra.
    + lia.
    + rewrite Rabs_right by lra. lra.
    + lra.
  - rewrite Hclamp, Hlen. apply Math_round_unique. lra.
Qed.

(** ** The cursor *)

Section CursorFacts.
Context `{Host}.

Lemma last_snoc {A : Type} (front : list A) (x d : A) : List.last (front ++ [x]) d = x.
Proof. apply last_last. Qed.

Lemma applyCursorAdvance_nonempty (front : list DerivedObservation)
  (last : DerivedObservation) (nextSince : jsval) (st : StreamState) :
  cursorRef (applyCursorAdvance (front ++ [last]) nextSince st) =
    match getTime (date last) with
    | Some t => Fin (IZR (t / 1000 + 1))
    | None => NaN
    end.
Proof.
  unfold applyCursorAdvance.
  destruct (front ++ [last]) as [| o rest] eqn:Heq.
  - destruct front; discriminate.
  - rewrite <- Heq, last_snoc. reflexivity.
Qed.

Lemma applyCursorAdvance_keeps_data (normalized : list DerivedObservation)
  (nextSince : jsval) (st : StreamState) :
  let st' := applyCursorAdvance normalized nextSince st in
  observations st' = observations st /\ hasDataRef st' = hasDataRef st /\
  status st' = status st /\ error st' = error st /\ sinceRef st' = sinceRef st.
Proof.
  unfold applyCursorAdvance.
  destruct normalized; [destruct nextSince |]; cbn; repeat split.
Qed.

(** The integer quotient is the floor of the real quotient. *)
Lemma seconds_floor (t : Z) :
  (IZR (t / 1000) <= IZR t / 1000 < IZR (t / 1000) + 1)%R.
Proof.
  pose proof (Z.div_mod t 1000 ltac:(lia)) as Hdm.
  pose proof (Z.mod_pos_bound t 1000 ltac:(lia)) as [Hlo Hhi].
  assert (Ht : IZR t = (1000 * IZR (t / 1000) + IZR (t mod 1000))%R).
  { rewrite Hdm at 1. rewrite plus_IZR, mult_IZR. reflexivity. }
  apply IZR_le in Hlo. apply IZR_lt in Hhi. lra.
Qed.

(** [Math.floor(t / 1000)] on an integral time value [t]. *)
Lemma Math_floor_seconds (t : Z) : Math_floor (IZR t / 1000) = (t / 1000)%Z.
Proof.
  unfold Math_floor. symmetry. apply Int_part_spec.
  pose proof (seconds_floor t). lra.
Qed.

Lemma fetchBatch_success (opts : StreamOptions) (st : StreamState)
  (response : FetchResponse) (batch : list DerivedObservation) (st' : StreamState) :
  fetchBatch opts st response = Ok (batch, st') ->
  exists code field next_since,
    response = Responded true code (Parsed field next_since) /\
    mapM normalizeObservation (match field with Some l => l | None => [] end) = Ok batch /\
    st' = applyCursorAdvance batch next_since st.
Proof.
  unfold fetchBatch. intros Hf.
  destruct (authHeader opts); [| discriminate].
  destruct response as [m | ok code body]; [discriminate |].
  destruct ok; [| discriminate].
  destruct body as [| field next_since]; [discriminate |].
  exists code, field, next_since. split; [reflexivity |].
  destruct (mapM normalizeObservation _) as [normalized | m]; [| discriminate].
  cbn in Hf. injection Hf as <- <-. split; reflexivity.
Qed.

End CursorFacts.

Lemma latestInstant_cons (o : DerivedObservation) (l : list DerivedObservation) :
  latestInstant (o :: l) =
    match getTime (date o), latestInstant l with
    | Some t, Some m => Some (Z.max t m)
    | Some t, None => Some t
    | None, latest => latest
    end.
Proof. unfold latestInstant. cbn. now destruct (getTime (date o)). Qed.

Lemma latestInstant_upper (l : list DerivedObservation) (t m : Z) :
  (forall o u, In o l -> date o = ValidDate u -> (u <= t)%Z) ->
  latestInstant l = Some m -> (m <= t)%Z.
Proof.
  revert m. induction l as [| o l IH]; intros m Hall Hm; [discriminate |].
  rewrite latestInstant_cons in Hm.
  assert (Hrest : forall m', latestInstant l = Some m' -> (m' <= t)%Z).
  { intros m' Hm'. apply IH; [| exact Hm']. intros o' u Hin. apply Hall. now right. }
  destruct (date o) as [u |] eqn:Hd; cbn [getTime] in Hm.
  - pose proof (Hall o u (or_introl eq_refl) Hd) as Hu.
    destruct (latestInstant l) as [m' |]; injection Hm as <-.
    + specialize (Hrest m' eq_refl). lia.
    + exact Hu.
  - now apply Hrest.
Qed.

Lemma latestInstant_lower (l : list DerivedObservation) (o : DerivedObservation) (t : Z) :
  In o l -> date o = ValidDate t ->
  exists m, latestInstant l = Some m /\ (t <= m)%Z.
Proof.
  induction l as [| o' l IH]; intros Hin Hd; [contradiction |].
  rewrite latestInstant_cons. destruct Hin as [-> | Hin].
  - rewrite Hd. cbn [getTime].
    destruct (latestInstant l) as [m' |]; eexists; split; eauto; lia.
  - destruct (IH Hin Hd) as (m & -> & Hle).
    destruct (getTime (date o')); eexists; split; eauto; lia.
Qed.

(** C2, as the code has it: after a successful fetch that returned
    records, the cursor is [floor(instant/1000) + 1] for the instant of
    the LAST record of the batch; this is one second past the latest
    observed instant when no record of the batch is later than its last
    one, and it is above the previous cursor when the last record is not
    older than that cursor.  With no record and a numeric [next_since]
    the cursor is that hint; otherwise it is unchanged. *)
Theorem cursor_after_successful_fetch `{Host} :
  forall opts st response batch st',
    fetchBatch opts st response = Ok (batch, st') ->
    exists code field next_since,
      response = Responded true code (Parsed field next_since) /\
      (forall front last, batch = front ++ [last] ->
         cursorRef st' =
           match getTime (date last) with
           | Some t => Fin (IZR (t / 1000 + 1))
           | None => NaN
           end /\
         forall t, date last = ValidDate t ->
           cursorRef st' = Fin (IZR (Math_floor (IZR t / 1000) + 1)) /\
           (IZR t / 1000 < IZR (t / 1000 + 1) <= IZR t / 1000 + 1)%R /\
           ((forall o u, In o batch -> date o = ValidDate u -> (u <= t)%Z) ->
            cursorRef st' = cursorPastLatest batch) /\
           (forall c, cursorRef st = Fin c -> (c * 1000 <= IZR t)%R ->
              exists c', cursorRef st' = Fin c' /\ (c < c')%R)) /\
      (batch = [] -> forall n, next_since = JNumber n -> cursorRef st' = n) /\
      (batch = [] -> (forall n, next_since <> JNumber n) -> cursorRef st' = cursorRef st).
Proof.
  intros opts st response batch st' Hfetch.
  destruct (fetchBatch_success _ _ _ _ _ Hfetch) as (code & field & next_since & Hresp & _ & ->).
  exists code, field, next_since. split; [exact Hresp |]. split; [| split].
  - intros front last ->.
    pose proof (applyCursorAdvance_nonempty front last next_since st) as Hcur.
    split; [exact Hcur |]. intros t Hd.
    rewrite Hd in Hcur. cbn in Hcur.
    pose proof (seconds_floor t) as Hfloor.
    split; [now rewrite Math_floor_seconds |].
    split; [rewrite plus_IZR; lra |]. split.
    + intros Hmax. rewrite Hcur. unfold cursorPastLatest.
      destruct (latestInstant_lower (front ++ [last]) last t) as (m & Hm & Hle);
        [apply in_or_app; right; now left | exact Hd |].
      pose proof (latestInstant_upper _ _ _ Hmax Hm) as Hge.
      rewrite Hm. replace m with t by lia. reflexivity.
    + intros c Hc Hbound. eexists. split; [exact Hcur |].
      rewrite plus_IZR. lra.
  - intros -> n ->. reflexivity.
  - intros -> Hnot. cbn. destruct next_since; try reflexivity.
    exfalso. now apply (Hnot n).
Qed.

Lemma fetch_example_pair :
  @fetchBatch exampleHost (exampleOptions 250) exampleStart
    (responseOf [rawAt5; rawAt1]) =
  Ok ([normalizedAt5; normalizedAt1],
      applyCursorAdvance [normalizedAt5; normalizedAt1] JUndefined exampleStart).
Proof. reflexivity. Qed.

Lemma cursor_after_successful_fetch_witness :
  cursorRef (applyCursorAdvance [normalizedAt5; normalizedAt1] JUndefined exampleStart)
  = Fin (IZR (1000 / 1000 + 1)).
Proof.
  destruct (@cursor_after_successful_fetch exampleHost _ _ _ _ _ fetch_example_pair)
    as (code & field & next_since & _ & Hlast & _).
  destruct (Hlast [normalizedAt5] normalizedAt1 eq_refl) as [Hcur _]. exact Hcur.
Defined.

(** The claim of C2 fails on a batch whose last record is not its latest:
    for records at 5 s and then 1 s the cursor becomes 2, not 6; and a
    fetch returning the record at 5 s followed by one returning the record
    at 1 s moves the cursor from 6 down to 2. *)
Lemma cursor_takes_last_record_not_latest :
  (exists batch st',
      @fetchBatch exampleHost (exampleOptions 250) exampleStart
        (responseOf [rawAt5; rawAt1]) = Ok (batch, st') /\
      cursorRef st' = Fin 2 /\ cursorPastLatest batch = Fin 6 /\
      cursorRef st' <> cursorPastLatest batch) /\
  (exists batch1 st1 batch2 st2,
      @fetchBatch exampleHost (exampleOptions 250) exampleStart
        (responseOf [rawAt5]) = Ok (batch1, st1) /\
      @fetchBatch exampleHost (exampleOptions 250) st1
        (responseOf [rawAt1]) = Ok (batch2, st2) /\
      cursorRef st1 = Fin 6 /\ cursorRef st2 = Fin 2).
Proof.
  split.
  - eexists. eexists. split; [exact fetch_example_pair |].
    split; [reflexivity |]. split; [reflexivity |].
    change (Fin (IZR (1000 / 1000 + 1)) <> Fin (IZR (5000 / 1000 + 1))).
    intros Heq. injection Heq as Heq. apply eq_IZR in Heq. discriminate.
  - eexists. eexists. eexists. eexists.
    split; [reflexivity |]. split; [reflexivity |]. split; reflexivity.
Qed.

(** ** The merge map *)

Lemma Map_keys_set_present (m : JsMap) (k : string) (v : DerivedObservation) :
  In k (Map_keys m) -> Map_keys (Map_set m k v) = Map_keys m.
Proof.
  induction m as [| [k' v'] m IH]; cbn; intros Hin; [contradiction |].
  destruct (String.eqb_spec k' k) as [-> | Hne]; cbn; [reflexivity |].
  f_equal. apply IH. destruct Hin as [-> | Hin]; [contradiction | exact Hin].
Qed.

Lemma Map_keys_set_absent (m : JsMap) (k : string) (v : DerivedObservation) :
  ~ In k (Map_keys m) -> Map_set m k v = m ++ [(k, v)].
Proof.
  induction m as [| [k' v'] m IH]; cbn; intros Hout; [reflexivity |].
  destruct (String.eqb_spec k' k) as [-> | Hne].
  - exfalso. apply Hout. now left.
  - f_equal. apply IH. intros Hin. apply Hout. now right.
Qed.

Lemma Map_keys_set_in (m : JsMap) (k k' : string) (v : DerivedObservation) :
  In k' (Map_keys (Map_set m k v)) <-> In k' (Map_keys m) \/ k' = k.
Proof.
  destruct (in_dec string_dec k (Map_keys m)) as [Hin | Hout].
  - rewrite Map_keys_set_present by exact Hin.
    split; [now left | intros [H | ->]; assumption].
  - rewrite Map_keys_set_absent by exact Hout.
    unfold Map_keys. rewrite map_app, in_app_iff. cbn. intuition congruence.
Qed.

Lemma Map_keys_set_NoDup (m : JsMap) (k : string) (v : DerivedObservation) :
  NoDup (Map_keys m) -> NoDup (Map_keys (Map_set m k v)).
Proof.
  intros Hnd. destruct (in_dec string_dec k (Map_keys m)) as [Hin | Hout].
  - now rewrite Map_keys_set_present.
  - rewrite Map_keys_set_absent by exact Hout.
    unfold Map_keys. rewrite map_app. cbn.
    apply NoDup_app; [exact Hnd | repeat constructor; intros [] |].
    intros x Hx [<- | []]. contradiction.
Qed.

Lemma Map_get_set (m : JsMap) (k k' : string) (v : DerivedObservation) :
  Map_get (Map_set m k v) k' = if String.eqb k k' then Some v else Map_get m k'.
Proof.
  induction m as [| [k0 v0] m IH]; cbn.
  - reflexivity.
  - destruct (String.eqb_spec k0 k) as [-> | Hne]; cbn.
    + now destruct (String.eqb k k').
    + rewrite IH. destruct (String.eqb_spec k0 k') as [-> | _]; [| reflexivity].
      destruct (String.eqb_spec k k') as [-> | _]; [contradiction | reflexivity].
Qed.

Lemma Map_get_none (m : JsMap) (k : string) :
  Map_get m k = None <-> ~ In k (Map_keys m).
Proof.
  induction m as [| [k0 v0] m IH]; cbn.
  - intuition.
  - destruct (String.eqb_spec k0 k) as [-> | Hne].
    + split; [discriminate | intros Hn; exfalso; apply Hn; now left].
    + rewrite IH. intuition.
Qed.

Lemma Map_get_in (m : JsMap) (k : string) (v : DerivedObservation) :
  NoDup (Map_keys m) -> (Map_get m k = Some v <-> In (k, v) m).
Proof.
  induction m as [| [k0 v0] m IH]; cbn; intros Hnd.
  - split; [discriminate | contradiction].
  - inversion Hnd as [| ? ? Hout Hnd']; subst.
    destruct (String.eqb_spec k0 k) as [-> | Hne].
    + split.
      * intros [= ->]. now left.
      * intros [[= ->] | Hin]; [reflexivity |].
        exfalso. apply Hout. now apply (in_map fst) in Hin.
    + rewrite (IH Hnd'). split; [now right |].
      intros [[= -> ->] | Hin]; [contradiction | exact Hin].
Qed.


Lemma setAll_cons (m : JsMap) (obs : DerivedObservation) (l : list DerivedObservation) :
  setAll m (obs :: l) = setAll (Map_set m (mergeKey obs) obs) l.
Proof. reflexivity. Qed.

Lemma setAll_keys_in (l : list DerivedObservation) (m : JsMap) (k : string) :
  In k (Map_keys (setAll m l)) <-> In k (Map_keys m) \/ In k (map mergeKey l).
Proof.
  revert m. induction l as [| obs l IH]; intros m.
  - cbn. intuition.
  - rewrite setAll_cons, IH, Map_keys_set_in. cbn. intuition.
Qed.

Lemma setAll_NoDup (l : list DerivedObservation) (m : JsMap) :
  NoDup (Map_keys m) -> NoDup (Map_keys (setAll m l)).
Proof.
  revert m. induction l as [| obs l IH]; intros m Hnd; [exact Hnd |].
  rewrite setAll_cons. apply IH. now apply Map_keys_set_NoDup.
Qed.

Lemma Map_set_keyed (m : JsMap) (obs : DerivedObservation) :
  keyedByMergeKey m -> keyedByMergeKey (Map_set m (mergeKey obs) obs).
Proof.
  unfold keyedByMergeKey.
  induction m as [| [k v] m IH]; cbn; intros Hk.
  - repeat constructor.
  - inversion Hk as [| ? ? Hhead Htail]; subst.
    destruct (String.eqb k (mergeKey obs)); constructor; auto.
Qed.

Lemma setAll_keyed (l : list DerivedObservation) (m : JsMap) :
  keyedByMergeKey m -> keyedByMergeKey (setAll m l).
Proof.
  revert m. induction l as [| obs l IH]; intros m Hk; [exact Hk |].
  rewrite setAll_cons. apply IH. now apply Map_set_keyed.
Qed.

Lemma setAll_get (l : list DerivedObservation) (m : JsMap) (k : string) :
  Map_get (setAll m l) k =
    match lastWithKey l k with
    | Some obs => Some obs
    | None => Map_get m k
    end.
Proof.
  revert m. induction l as [| obs l IH]; intros m; [reflexivity |].
  rewrite setAll_cons, IH, Map_get_set. cbn.
  destruct (lastWithKey l k); [reflexivity |].
  now destruct (String.eqb (mergeKey obs) k).
Qed.



Lemma Map_values_keys (m : JsMap) :
  keyedByMergeKey m -> map mergeKey (Map_values m) = Map_keys m.
Proof.
  unfold keyedByMergeKey, Map_values, Map_keys.
  induction 1 as [| [k v] m Hhead _ IH]; cbn in *; [reflexivity |].
  now rewrite IH, Hhead.
Qed.


Lemma Map_keys_entries (l : list DerivedObservation) :
  Map_keys (map entryOf l) = map mergeKey l.
Proof. unfold Map_keys. now rewrite map_map. Qed.

(** ** The sort *)

Lemma sortsAfter_asym (a b : DerivedObservation) :
  sortsAfter a b = true -> sortsAfter b a = false.
Proof.
  unfold sortsAfter, compareFn.
  destruct (getTime (date a)) as [x |], (getTime (date b)) as [y |];
    try discriminate.
  intros Hab. apply Z.ltb_lt in Hab. apply Z.ltb_ge. lia.
Qed.

Lemma insertSorted_perm (x : DerivedObservation) (l : list DerivedObservation) :
  Permutation (insertSorted x l) (x :: l).
Proof.
  induction l as [| y l IH]; cbn; [reflexivity |].
  destruct (sortsAfter x y); [| reflexivity].
  rewrite IH. apply perm_swap.
Qed.

Lemma Array_sort_perm (l : list DerivedObservation) : Permutation (Array_sort l) l.
Proof.
  induction l as [| x l IH]; cbn; [reflexivity |].
  rewrite insertSorted_perm. now constructor.
Qed.

(** The sort is stable: records at the same instant keep their order. *)
Lemma insertSorted_stable (t : Z) (x : DerivedObservation) (l : list DerivedObservation) :
  filter (atInstant t) (insertSorted x l) = filter (atInstant t) (x :: l).
Proof.
  induction l as [| y l IH]; [reflexivity |].
  cbn [insertSorted]. destruct (sortsAfter x y) eqn:Hxy; [| reflexivity].
  cbn [filter] in *. rewrite IH.
  destruct (atInstant t x) eqn:Hx, (atInstant t y) eqn:Hy; try reflexivity.
  exfalso. unfold sortsAfter, compareFn in Hxy. unfold atInstant in Hx, Hy.
  destruct (getTime (date x)) as [a |], (getTime (date y)) as [b |]; try discriminate.
  apply Z.eqb_eq in Hx, Hy. apply Z.ltb_lt in Hxy. lia.
Qed.

Lemma Array_sort_stable (t : Z) (l : list DerivedObservation) :
  filter (atInstant t) (Array_sort l) = filter (atInstant t) l.
Proof.
  induction l as [| x l IH]; [reflexivity |].
  change (Array_sort (x :: l)) with (insertSorted x (Array_sort l)).
  rewrite insertSorted_stable. cbn [filter]. now rewrite IH.
Qed.

Lemma insertSorted_HdRel (x y : DerivedObservation) (l : list DerivedObservation) :
  inOrder y x -> HdRel inOrder y l -> HdRel inOrder y (insertSorted x l).
Proof.
  intros Hyx Hhd. destruct l as [| z l]; cbn.
  - now constructor.
  - inversion Hhd; subst. destruct (sortsAfter x z); now constructor.
Qed.

Lemma insertSorted_Sorted (x : DerivedObservation) (l : list DerivedObservation) :
  Sorted inOrder l -> Sorted inOrder (insertSorted x l).
Proof.
  induction 1 as [| y l Hs IH Hhd]; cbn.
  - repeat constructor.
  - destruct (sortsAfter x y) eqn:Hxy.
    + constructor; [exact IH |].
      apply insertSorted_HdRel; [now apply sortsAfter_asym | exact Hhd].
    + constructor; [now constructor | now constructor].
Qed.

Lemma Array_sort_Sorted (l : list DerivedObservation) : Sorted inOrder (Array_sort l).
Proof.
  induction l as [| x l IH]; cbn; [constructor | now apply insertSorted_Sorted].
Qed.


Lemma inOrder_notLater (a b : DerivedObservation) :
  validInstant a -> validInstant b -> inOrder a b -> notLater a b.
Proof.
  intros [x Hx] [y Hy]. unfold inOrder, sortsAfter, compareFn, notLater.
  rewrite Hx, Hy. cbn. intros Hle. apply Z.ltb_ge in Hle.
  exists x, y. repeat split; lia.
Qed.

Lemma notLater_trans (a b c : DerivedObservation) :
  notLater a b -> notLater b c -> notLater a c.
Proof.
  intros (x & y & Hx & Hy & Hxy) (y' & z & Hy' & Hz & Hyz).
  rewrite Hy in Hy'. injection Hy' as <-.
  exists x, z. repeat split; auto. lia.
Qed.

Lemma Sorted_valid_notLater (l : list DerivedObservation) :
  Forall validInstant l -> Sorted inOrder l -> StronglySorted notLater l.
Proof.
  intros Hvalid Hsorted. apply Sorted_StronglySorted.
  - intros a b c. apply notLater_trans.
  - induction Hsorted as [| x l Hs IH Hhd]; [constructor |].
    inversion Hvalid as [| ? ? Hx Hl]; subst.
    constructor; [now apply IH |].
    destruct Hhd as [| y l Hxy]; constructor.
    inversion Hl; subst. now apply inOrder_notLater.
Qed.

(** ** The merge *)

Lemma lastWithKey_in (l : list DerivedObservation) (k : string) (obs : DerivedObservation) :
  lastWithKey l k = Some obs -> In obs l /\ mergeKey obs = k.
Proof.
  induction l as [| o l IH]; cbn; [discriminate |].
  destruct (lastWithKey l k) as [later |].
  - intros [= ->]. destruct (IH eq_refl). auto.
  - destruct (String.eqb_spec (mergeKey o) k); [| discriminate].
    intros [= ->]. auto.
Qed.

Lemma mergedMap_NoDup (s b : list DerivedObservation) : NoDup (Map_keys (mergedMap s b)).
Proof. unfold mergedMap. do 2 apply setAll_NoDup. constructor. Qed.

Lemma mergedMap_keyed (s b : list DerivedObservation) : keyedByMergeKey (mergedMap s b).
Proof. unfold mergedMap. do 2 apply setAll_keyed. constructor. Qed.

Lemma mergedMap_keys_in (s b : list DerivedObservation) (k : string) :
  In k (Map_keys (mergedMap s b)) <-> In k (map mergeKey s) \/ In k (map mergeKey b).
Proof.
  unfold mergedMap. rewrite 2 setAll_keys_in. cbn. intuition.
Qed.

Lemma mergedMap_get (s b : list DerivedObservation) (k : string) :
  Map_get (mergedMap s b) k =
    match lastWithKey b k with
    | Some obs => Some obs
    | None => lastWithKey s k
    end.
Proof.
  unfold mergedMap. rewrite 2 setAll_get. cbn.
  now destruct (lastWithKey b k), (lastWithKey s k).
Qed.

Lemma merge_unfold (s b : list DerivedObservation) :
  mergeChronologically s b = Array_sort (Map_values (mergedMap s b)).
Proof. reflexivity. Qed.

Lemma merge_keys_perm (s b : list DerivedObservation) :
  Permutation (map mergeKey (mergeChronologically s b)) (Map_keys (mergedMap s b)).
Proof.
  rewrite merge_unfold, <- (Map_values_keys _ (mergedMap_keyed s b)).
  apply Permutation_map, Array_sort_perm.
Qed.

Lemma merge_keys_NoDup (s b : list DerivedObservation) :
  NoDup (map mergeKey (mergeChronologically s b)).
Proof.
  eapply Permutation_NoDup; [symmetry; apply merge_keys_perm | apply mergedMap_NoDup].
Qed.

Lemma merge_keys_in (s b : list DerivedObservation) (k : string) :
  In k (map mergeKey (mergeChronologically s b)) <->
  In k (map mergeKey s) \/ In k (map mergeKey b).
Proof.
  rewrite <- mergedMap_keys_in. split; apply Permutation_in.
  - apply merge_keys_perm.
  - symmetry. apply merge_keys_perm.
Qed.

(** A record of the merged series is the last record of the batch under
    its key or, when the batch has none, the last of the series. *)
Lemma merge_in (s b : list DerivedObservation) (obs : DerivedObservation) :
  In obs (mergeChronologically s b) <->
  Map_get (mergedMap s b) (mergeKey obs) = Some obs.
Proof.
  rewrite merge_unfold.
  rewrite (Map_get_in _ _ _ (mergedMap_NoDup s b)).
  split.
  - intros Hin. apply (Permutation_in _ (Array_sort_perm _)) in Hin.
    unfold Map_values in Hin. apply in_map_iff in Hin as ([k v] & Hv & Hin).
    cbn in Hv. subst v.
    pose proof (mergedMap_keyed s b) as Hk. unfold keyedByMergeKey in Hk.
    rewrite Forall_forall in Hk. specialize (Hk _ Hin). cbn in Hk. now subst k.
  - intros Hin. apply (Permutation_in _ (Permutation_sym (Array_sort_perm _))).
    unfold Map_values. apply in_map_iff. now exists (mergeKey obs, obs).
Qed.

Lemma merge_in_source (s b : list DerivedObservation) (obs : DerivedObservation) :
  In obs (mergeChronologically s b) -> In obs s \/ In obs b.
Proof.
  rewrite merge_in, mergedMap_get.
  destruct (lastWithKey b (mergeKey obs)) as [o |] eqn:Hb.
  - intros [= ->]. right. now apply lastWithKey_in in Hb.
  - intros Hs. left. now apply lastWithKey_in in Hs.
Qed.

Lemma merge_nonempty (s b : list DerivedObservation) :
  b <> [] -> mergeChronologically s b <> [].
Proof.
  destruct b as [| obs b]; [contradiction |]. intros _ Hnil.
  assert (Hin : In (mergeKey obs) (map mergeKey (mergeChronologically s (obs :: b)))).
  { apply merge_keys_in. right. now left. }
  rewrite Hnil in Hin. contradiction.
Qed.

Lemma merge_sorted (s b : list DerivedObservation) :
  Forall validInstant s -> Forall validInstant b ->
  StronglySorted notLater (mergeChronologically s b).
Proof.
  intros Hs Hb. apply Sorted_valid_notLater.
  - rewrite Forall_forall in *. intros obs Hin.
    destruct (merge_in_source _ _ _ Hin); auto.
  - rewrite merge_unfold. apply Array_sort_Sorted.
Qed.


Lemma NoDup_map_filter {A B : Type} (f : A -> B) (keep : A -> bool) (l : list A) :
  NoDup (map f l) -> NoDup (map f (filter keep l)).
Proof.
  induction l as [| a l IH]; cbn; intros Hnd; [constructor |].
  inversion Hnd as [| ? ? Hout Hnd']; subst.
  destruct (keep a); cbn; [| now apply IH].
  constructor; [| now apply IH].
  intros Hin. apply Hout. apply in_map_iff in Hin as (x & Hx & Hin).
  apply filter_In in Hin as [Hin _]. rewrite <- Hx. now apply in_map.
Qed.

Lemma ids_of_keyed (l : list DerivedObservation) :
  map id (filter hasId l) = map mergeKey (filter hasId l).
Proof.
  apply map_ext_in. intros o Hin. apply filter_In in Hin as [_ Hid].
  unfold hasId in Hid. unfold mergeKey.
  destruct (String.eqb (id o) ""); [discriminate | reflexivity].
Qed.

Lemma ingest_series (batch : list DerivedObservation) (now : Z) (st : StreamState) :
  observations (ingest batch now st) =
    match batch with
    | [] => observations st
    | _ :: _ => mergeChronologically (observations st) batch
    end.
Proof. now destruct batch. Qed.

Lemma ingest_invariant (batch : list DerivedObservation) (now : Z) (st : StreamState) :
  Forall validInstant (observations st) -> Forall validInstant batch ->
  batch <> [] \/ seriesInvariant (observations st) ->
  seriesInvariant (observations (ingest batch now st)) /\
  Forall validInstant (observations (ingest batch now st)) /\
  (forall k, In k (map mergeKey (observations (ingest batch now st))) <->
             In k (map mergeKey (observations st)) \/ In k (map mergeKey batch)).
Proof.
  intros Hs Hb Hcase. rewrite ingest_series.
  destruct batch as [| o batch].
  - destruct Hcase as [Hne | Hinv]; [contradiction |].
    split; [exact Hinv |]. split; [exact Hs |]. cbn. intuition.
  - split; [split; [now apply merge_sorted | apply merge_keys_NoDup] |].
    split; [| apply merge_keys_in].
    rewrite Forall_forall in *. intros obs Hin.
    destruct (merge_in_source _ _ _ Hin); auto.
Qed.

Lemma ingest_two (st : StreamState) (x y : list DerivedObservation) (now1 now2 : Z) :
  Forall validInstant (observations st) ->
  Forall validInstant x -> Forall validInstant y ->
  x <> [] \/ y <> [] \/ seriesInvariant (observations st) ->
  let series := observations (ingest y now2 (ingest x now1 st)) in
  seriesInvariant series /\
  (forall k, In k (map mergeKey series) <->
             In k (map mergeKey (observations st)) \/
             In k (map mergeKey x) \/ In k (map mergeKey y)).
Proof.
  intros Hs Hx Hy Hcase series. subst series.
  destruct x as [| o x].
  - change (ingest [] now1 st) with st.
    destruct (ingest_invariant y now2 st Hs Hy) as (Hinv & _ & Hkeys).
    { destruct Hcase as [Hne | [Hne | Hinv]]; [contradiction | now left | now right]. }
    split; [exact Hinv |]. intros k. rewrite Hkeys. cbn. intuition.
  - destruct (ingest_invariant (o :: x) now1 st Hs Hx) as (Hinv1 & Hvalid1 & Hkeys1);
      [left; discriminate |].
    destruct (ingest_invariant y now2 _ Hvalid1 Hy (or_intror Hinv1))
      as (Hinv2 & _ & Hkeys2).
    split; [exact Hinv2 |]. intros k. rewrite Hkeys2, Hkeys1. intuition.
Qed.

(** C4, as the code has it: after an ingest (of a non-empty batch, or
    into a Series that is already sorted with distinct merge keys), and so
    after two batches ingested in either order, the Series of records with
    valid instants is sorted ascending by instant, its merge keys (the id,
    or the timestamp when the id is empty) are exactly those of the
    starting Series and of the batches, no two records share a merge key,
    and so no two records share a non-empty id. *)
Theorem ingest_sorted_with_distinct_merge_keys :
  forall (st : StreamState) (b1 b2 : list DerivedObservation) (now1 now2 : Z),
    Forall validInstant (observations st) ->
    Forall validInstant b1 -> Forall validInstant b2 ->
    b1 <> [] \/ b2 <> [] \/ seriesInvariant (observations st) ->
    let s12 := observations (ingest b2 now2 (ingest b1 now1 st)) in
    let s21 := observations (ingest b1 now2 (ingest b2 now1 st)) in
    (StronglySorted notLater s12 /\ StronglySorted notLater s21) /\
    (NoDup (map mergeKey s12) /\ NoDup (map mergeKey s21)) /\
    (NoDup (map id (filter hasId s12)) /\ NoDup (map id (filter hasId s21))) /\
    (forall k, In k (map mergeKey s12) <->
               In k (map mergeKey (observations st)) \/
               In k (map mergeKey b1) \/ In k (map mergeKey b2)) /\
    (forall k, In k (map mergeKey s21) <-> In k (map mergeKey s12)).
Proof.
  intros st b1 b2 now1 now2 Hs H1 H2 Hcase s12 s21.
  destruct (ingest_two st b1 b2 now1 now2 Hs H1 H2 Hcase) as ([Hsort12 Hnd12] & Hk12).
  destruct (ingest_two st b2 b1 now1 now2 Hs H2 H1) as ([Hsort21 Hnd21] & Hk21).
  { intuition. }
  fold s12 in Hsort12, Hnd12, Hk12. fold s21 in Hsort21, Hnd21, Hk21.
  repeat split; try assumption.
  - rewrite ids_of_keyed. now apply NoDup_map_filter.
  - rewrite ids_of_keyed. now apply NoDup_map_filter.
  - now apply Hk12.
  - now apply Hk12.
  - rewrite Hk21, Hk12. intuition.
  - rewrite Hk21, Hk12. intuition.
Qed.

Lemma ingest_sorted_with_distinct_merge_keys_witness :
  let s12 := observations (ingest [normalizedAt1] 2 (ingest [normalizedAt5] 1 exampleStart)) in
  let s21 := observations (ingest [normalizedAt5] 2 (ingest [normalizedAt1] 1 exampleStart)) in
  StronglySorted notLater s12 /\ NoDup (map mergeKey s21) /\
  (forall k, In k (map mergeKey s21) <-> In k (map mergeKey s12)).
Proof.
  assert (Hv : forall key stamp t, validInstant (normalizedAt key stamp t)).
  { intros key stamp t. now exists t. }
  destruct (ingest_sorted_with_distinct_merge_keys exampleStart
              [normalizedAt5] [normalizedAt1] 1 2)
    as ((Hsorted & _) & (_ & Hdistinct) & _ & _ & Hsame).
  - constructor.
  - repeat constructor. apply Hv.
  - repeat constructor. apply Hv.
  - left. discriminate.
  - split; [exact Hsorted |]. split; [exact Hdistinct | exact Hsame].
Defined.



(** The claim of C4 on ids fails for records the upstream sends with an
    empty id: they are merged under their timestamps, and both stay in the
    Series with the same id. *)
Lemma records_without_id_share_the_empty_id :
  let st := @pull exampleHost (exampleOptions 250)
              (responseOf [rawNoIdAt1; rawNoIdAt5]) 7 exampleStart in
  observations st =
    [normalizedAt "" "1970-01-01T00:00:01.000Z" 1000;
     normalizedAt "" "1970-01-01T00:00:05.000Z" 5000] /\
  ~ NoDup (map id (observations st)).
Proof.
  assert (Hrun : observations
                   (@pull exampleHost (exampleOptions 250)
                      (responseOf [rawNoIdAt1; rawNoIdAt5]) 7 exampleStart) =
                 [normalizedAt "" "1970-01-01T00:00:01.000Z" 1000;
                  normalizedAt "" "1970-01-01T00:00:05.000Z" 5000])
    by reflexivity.
  cbv zeta. split; [exact Hrun |].
  rewrite Hrun. cbn. intros Hnd. inversion Hnd as [| ? ? Hout _]; subst.
  apply Hout. now left.
Qed.

(** ** The poll *)

Section PollFacts.
Context `{Host}.

Lemma fetchBatch_failure_any_state (opts : StreamOptions) (st st0 : StreamState)
  (response : FetchResponse) (message : string) :
  fetchBatch opts st response = Throw message ->
  fetchBatch opts st0 response = Throw message.
Proof.
  unfold fetchBatch. destruct (authHeader opts); [| auto].
  destruct response as [m | [] code [| field next_since]]; auto.
  destruct (mapM normalizeObservation _); [discriminate | auto].
Qed.

Lemma mapM_length {A B : Type} (f : A -> Result B) (l : list A) (r : list B) :
  mapM f l = Ok r -> List.length r = List.length l.
Proof.
  revert r. induction l as [| a l IH]; cbn; intros r Hr.
  - injection Hr as <-. reflexivity.
  - destruct (f a) as [b |]; [| discriminate]. cbn in Hr.
    destruct (mapM f l) as [bs |]; [| discriminate]. cbn in Hr.
    injection Hr as <-. cbn. now rewrite (IH bs).
Qed.

Lemma mapM_all_ok {A B : Type} (f : A -> Result B) (l : list A) :
  (forall a, In a l -> exists b, f a = Ok b) -> exists r, mapM f l = Ok r.
Proof.
  induction l as [| a l IH]; cbn; intros Hall; [now exists [] |].
  destruct (Hall a (or_introl eq_refl)) as [b ->].
  destruct IH as [bs ->]; [intros x Hx; apply Hall; now right |].
  cbn. now eexists.
Qed.

Lemma buildSynthetic_length (startIso : string) (count : Z)
  (fallback : list DerivedObservation) :
  buildSyntheticObservations startIso count = Ok fallback ->
  List.length fallback = Z.to_nat count.
Proof.
  unfold buildSyntheticObservations. intros Hb.
  apply mapM_length in Hb. now rewrite length_seq in Hb.
Qed.

(** The three outcomes of a poll. *)
Lemma pull_cases (opts : StreamOptions) (response : FetchResponse) (now : Z)
  (st : StreamState) :
  let st1 := set_status (match status st with
                         | StatusReady => StatusReady
                         | _ => StatusLoading
                         end) st in
  (exists batch st2,
      fetchBatch opts st1 response = Ok (batch, st2) /\
      pull opts response now st =
        set_error None (set_status StatusReady (ingest batch now st2))) \/
  (exists message,
      fetchBatch opts st1 response = Throw message /\ hasDataRef st = true /\
      pull opts response now st =
        set_status StatusError (set_error (Some message) st1)) \/
  (exists message,
      fetchBatch opts st1 response = Throw message /\ hasDataRef st = false /\
      ((exists fallback,
           buildSyntheticObservations (sinceRef st) (limit opts) = Ok fallback /\
           pull opts response now st =
             set_error (Some fallbackNotice)
               (set_status StatusReady (set_data fallback now st1))) \/
       ((exists m, buildSyntheticObservations (sinceRef st) (limit opts) = Throw m) /\
        pull opts response now st = st1))).
Proof.
  intros st1. unfold pull. fold st1.
  destruct (fetchBatch opts st1 response) as [[batch st2] | message].
  - left. now exists batch, st2.
  - right. change (hasDataRef st1) with (hasDataRef st).
    change (sinceRef st1) with (sinceRef st).
    destruct (hasDataRef st); cbn [negb].
    + left. now exists message.
    + right. exists message. split; [reflexivity |]. split; [reflexivity |].
      destruct (buildSyntheticObservations (sinceRef st) (limit opts)) as [fallback | m].
      * left. now exists fallback.
      * right. split; [now exists m | reflexivity].
Qed.

(** A Series that holds records was put there by an ingest or by the
    fallback, which both set the flag; and the status is ['error'] only
    with the flag set. *)
Lemma reachable_data_flag (opts : StreamOptions) (st : StreamState) :
  reachable opts st ->
  (observations st <> [] -> hasDataRef st = true) /\
  (status st = StatusError -> hasDataRef st = true).
Proof.
  induction 1 as [missionId sinceIso | st response now Hreach [IHdata IHerr]
                 | st missionId sinceIso Hreach _].
  - cbn. split; [contradiction | discriminate].
  - destruct (pull_cases opts response now st)
      as [(batch & st2 & Hfetch & ->) | [(message & _ & Hflag & ->)
         | (message & _ & Hflag & [(fallback & _ & ->) | (_ & ->)])]];
      cbn [observations hasDataRef status set_error set_status set_data].
    + apply fetchBatch_success in Hfetch as (_ & _ & next_since & _ & _ & ->).
      destruct (applyCursorAdvance_keeps_data batch next_since
                  (set_status (match status st with
                               | StatusReady => StatusReady
                               | _ => StatusLoading
                               end) st)) as (Hobs & Hflag & _).
      split; [| discriminate].
      destruct batch as [| o batch]; cbn [ingest]; [| reflexivity].
      rewrite Hobs, Hflag. exact IHdata.
    + split; intros _; exact Hflag.
    + split; reflexivity.
    + split; [exact IHdata |]. now destruct (status st).
  - cbn. split; [contradiction | discriminate].
Qed.

(** With a limit of at least one, the flag is only set with records in
    the Series. *)
Lemma reachable_flag_data (opts : StreamOptions) (st : StreamState) :
  (1 <= limit opts)%Z -> reachable opts st ->
  hasDataRef st = true -> observations st <> [].
Proof.
  intros Hlimit.
  induction 1 as [missionId sinceIso | st response now Hreach IH
                 | st missionId sinceIso Hreach _].
  - discriminate.
  - destruct (pull_cases opts response now st)
      as [(batch & st2 & Hfetch & ->) | [(message & _ & Hflag & ->)
         | (message & _ & Hflag & [(fallback & Hbuild & ->) | (_ & ->)])]];
      cbn [observations hasDataRef status set_error set_status set_data].
    + apply fetchBatch_success in Hfetch as (_ & _ & next_since & _ & _ & ->).
      destruct (applyCursorAdvance_keeps_data batch next_since
                  (set_status (match status st with
                               | StatusReady => StatusReady
                               | _ => StatusLoading
                               end) st)) as (Hobs & Hflag & _).
      destruct batch as [| o batch]; cbn [ingest].
      * rewrite Hobs, Hflag. exact IH.
      * intros _. cbn [observations set_data]. apply merge_nonempty. discriminate.
    + intros _. now apply IH.
    + intros _. apply buildSynthetic_length in Hbuild.
      destruct fallback; [cbn in Hbuild; lia | discriminate].
    + exact IH.
  - discriminate.
Qed.

End PollFacts.

Section PollProperties.
Context `{Host}.

Lemma fetchBatch_success_any_state (opts : StreamOptions) (st st0 : StreamState)
  (response : FetchResponse) (batch : list DerivedObservation) (st2 : StreamState) :
  fetchBatch opts st response = Ok (batch, st2) ->
  exists st3, fetchBatch opts st0 response = Ok (batch, st3).
Proof.
  unfold fetchBatch. destruct (authHeader opts); [| discriminate].
  destruct response as [m | [] code [| field next_since]]; try discriminate.
  destruct (mapM normalizeObservation _) as [normalized |]; [| discriminate].
  cbn. intros [= <- _]. now eexists.
Qed.

(** The timestamps of the synthetic records stay within a day and two
    minutes of the origin. *)
Lemma synthetic_timestamp_range (startMs count : Z) (index : nat) (u : R) :
  (1 <= count)%Z -> (index < Z.to_nat count)%nat -> (0 <= u < 1)%R ->
  let step := (24 * 60 * 60 * 1000 / IZR (Z.max count 1))%R in
  let timestampMs :=
    (IZR startMs + INR index * step + randRange u (-2) 2 * 60 * 1000)%R in
  (IZR startMs - 120000 <= timestampMs <= IZR startMs + 86520000)%R.
Proof.
  intros Hcount Hindex Hu step timestampMs.
  assert (Hc : (1 <= IZR (Z.max count 1))%R) by (apply IZR_le; lia).
  assert (Hi : (0 <= INR index <= IZR (Z.max count 1))%R).
  { split; [apply pos_INR |]. rewrite INR_IZR_INZ. apply IZR_le. lia. }
  assert (Hstep : (0 <= step)%R).
  { unfold step. apply Rmult_le_pos; [lra |]. left. apply Rinv_0_lt_compat. lra. }
  assert (Hwhole : (IZR (Z.max count 1) * step = 24 * 60 * 60 * 1000)%R).
  { unfold step. field. lra. }
  assert (Hspan : (0 <= INR index * step <= 24 * 60 * 60 * 1000)%R).
  { split; [apply Rmult_le_pos; tauto |].
    rewrite <- Hwhole. apply Rmult_le_compat_r; tauto. }
  unfold timestampMs, randRange. lra.
Qed.

Lemma syntheticObservation_ok (startMs count : Z) (index : nat) :
  (1 <= count)%Z -> (index < Z.to_nat count)%nat ->
  (forall n, (0 <= Math_random n < 1)%R) ->
  (- maxTimeValue + 120000 <= startMs <= maxTimeValue - 86520000)%Z ->
  exists obs, syntheticObservation (Some startMs) count index = Ok obs.
Proof.
  intros Hcount Hindex Hrandom [Hlo Hhi].
  pose proof (synthetic_timestamp_range startMs count index
                (Math_random (6 * index + 0)) Hcount Hindex (Hrandom _)) as Hrange.
  cbv zeta in Hrange. unfold syntheticObservation.
  set (timestampMs :=
         (IZR startMs + INR index * (24 * 60 * 60 * 1000 / IZR (Z.max count 1)) +
          randRange (Math_random (6 * index + 0)) (-2) 2 * 60 * 1000)%R) in *.
  unfold Date_ofNumber.
  destruct (Rle_dec (Rabs timestampMs) (IZR maxTimeValue)) as [Hin | Hout].
  - cbn. now eexists.
  - exfalso. apply Hout. apply Rabs_le.
    apply IZR_le in Hlo, Hhi.
    rewrite plus_IZR, opp_IZR in Hlo. rewrite minus_IZR in Hhi.
    unfold maxTimeValue in *. lra.
Qed.

Lemma buildSynthetic_ok (startIso : string) (startMs count : Z) :
  (1 <= count)%Z ->
  (forall n, (0 <= Math_random n < 1)%R) ->
  Date_parse startIso = ValidDate startMs ->
  (- maxTimeValue + 120000 <= startMs <= maxTimeValue - 86520000)%Z ->
  exists fallback, buildSyntheticObservations startIso count = Ok fallback.
Proof.
  intros Hcount Hrandom Hparse Hrange. unfold buildSyntheticObservations.
  rewrite Hparse. cbn [getTime]. apply mapM_all_ok.
  intros index Hin. apply in_seq in Hin.
  apply syntheticObservation_ok; try assumption. unfold ToLength in Hin. lia.
Qed.

End PollProperties.

(** C1, as the code has it: when the fetch of a poll fails while the
    Series holds records, the Series and the cursor are left as they are,
    the message of the failure is attached, and the status becomes
    ['error'] (not ['ready']); the next successful poll brings back
    ['ready'] and clears the message.  The status ['error'] arises only
    after the data flag has been set, by the ingest of a non-empty batch or
    by the storing of the synthetic fallback; for a limit of at least 1 the
    Series is then not empty. *)
Theorem failed_poll_keeps_series_sets_error `{Host} :
  (forall opts st response now message,
      reachable opts st -> observations st <> [] ->
      fetchBatch opts st response = Throw message ->
      let st' := pull opts response now st in
      observations st' = observations st /\
      cursorRef st' = cursorRef st /\
      error st' = Some message /\
      status st' = StatusError /\
      forall response' now' batch st2,
        fetchBatch opts st' response' = Ok (batch, st2) ->
        status (pull opts response' now' st') = StatusReady /\
        error (pull opts response' now' st') = None) /\
  (forall opts st,
      reachable opts st -> status st = StatusError ->
      hasDataRef st = true /\
      ((1 <= limit opts)%Z -> observations st <> [])).
Proof.
  split.
  - intros opts st response now message Hreach Hdata Hfail st'.
    destruct (reachable_data_flag opts st Hreach) as [Hflag _].
    specialize (Hflag Hdata).
    assert (Hpull : st' = set_status StatusError
                            (set_error (Some message)
                               (set_status (match status st with
                                            | StatusReady => StatusReady
                                            | _ => StatusLoading
                                            end) st))).
    { subst st'. unfold pull.
      rewrite (fetchBatch_failure_any_state opts st _ response message Hfail).
      cbn [hasDataRef set_status]. now rewrite Hflag. }
    do 4 (split; [rewrite Hpull; reflexivity |]).
    intros response' now' batch st2 Hok.
    unfold pull.
    destruct (fetchBatch_success_any_state opts st'
                (set_status (match status st' with
                             | StatusReady => StatusReady
                             | _ => StatusLoading
                             end) st') response' batch st2 Hok) as [st3 ->].
    split; reflexivity.
  - intros opts st Hreach Herror.
    assert (Hflag : hasDataRef st = true)
      by now apply (reachable_data_flag opts st Hreach).
    split; [exact Hflag |]. intros Hlimit.
    now apply (reachable_flag_data opts st Hlimit Hreach).
Qed.

(** C3, as the code has it: when the fetch of a poll fails while the
    Series is empty, and the limit is at least 1, the engine takes the
    output of the synthetic generator (one call, [limit] records) as the
    Series; afterwards the Series is non-empty, the status is ['ready'] and
    the fallback notice is attached.  The lookback origin is a date whose
    following day and two minutes lie within the range of [Date]. *)
Theorem failed_poll_on_empty_series_falls_back `{Host} :
  forall opts st response now message startMs,
    reachable opts st -> observations st = [] ->
    (1 <= limit opts)%Z ->
    (forall n, (0 <= Math_random n < 1)%R) ->
    Date_parse (sinceRef st) = ValidDate startMs ->
    (- maxTimeValue + 120000 <= startMs <= maxTimeValue - 86520000)%Z ->
    fetchBatch opts st response = Throw message ->
    let st' := pull opts response now st in
    exists fallback,
      buildSyntheticObservations (sinceRef st) (limit opts) = Ok fallback /\
      observations st' = fallback /\
      List.length fallback = Z.to_nat (limit opts) /\
      observations st' <> [] /\
      status st' = StatusReady /\
      error st' = Some fallbackNotice /\
      hasDataRef st' = true /\
      lastUpdated st' = Some now.
Proof.
  intros opts st response now message startMs Hreach Hempty Hlimit Hrandom
    Hparse Hrange Hfail st'.
  assert (Hflag : hasDataRef st = false).
  { destruct (hasDataRef st) eqn:Hflag; [| reflexivity].
    exfalso. now apply (reachable_flag_data opts st Hlimit Hreach Hflag). }
  destruct (buildSynthetic_ok (sinceRef st) startMs (limit opts)
              Hlimit Hrandom Hparse Hrange) as [fallback Hbuild].
  exists fallback.
  assert (Hpull : st' = set_error (Some fallbackNotice)
                          (set_status StatusReady
                             (set_data fallback now
                                (set_status (match status st with
                                             | StatusReady => StatusReady
                                             | _ => StatusLoading
                                             end) st)))).
  { subst st'. unfold pull.
    rewrite (fetchBatch_failure_any_state opts st _ response message Hfail).
    cbn [hasDataRef sinceRef set_status]. now rewrite Hflag, Hbuild. }
  pose proof (buildSynthetic_length _ _ _ Hbuild) as Hlen.
  rewrite Hpull. cbn [observations status error hasDataRef lastUpdated
                        set_error set_status set_data].
  repeat split; try assumption.
  destruct fallback; [cbn in Hlen; lia | discriminate].
Qed.

Lemma exampleLoaded_series : observations exampleLoaded = [normalizedAt5].
Proof. reflexivity. Qed.

Lemma failed_poll_keeps_series_sets_error_witness :
  let st' := @pull exampleHost (exampleOptions 250) (Rejected "Failed to fetch") 2
               exampleLoaded in
  observations st' = observations exampleLoaded /\
  error st' = Some "Failed to fetch" /\
  status st' = StatusError.
Proof.
  destruct (@failed_poll_keeps_series_sets_error exampleHost) as [Hfail _].
  destruct (Hfail (exampleOptions 250) exampleLoaded (Rejected "Failed to fetch") 2%Z
              "Failed to fetch")
    as (Hseries & _ & Herror & Hstatus & _).
  - apply reachable_pull, reachable_initial.
  - rewrite exampleLoaded_series. discriminate.
  - reflexivity.
  - split; [exact Hseries |]. split; [exact Herror | exact Hstatus].
Defined.

(** The claim of C1 fails on the status: after one record has been
    ingested (status ['ready']), a poll whose fetch is rejected leaves the
    Series as it is and sets the status to ['error']. *)
Lemma failed_refresh_sets_status_error :
  let st' := @pull exampleHost (exampleOptions 250) (Rejected "Failed to fetch") 2
               exampleLoaded in
  observations exampleLoaded = [normalizedAt5] /\
  status exampleLoaded = StatusReady /\
  observations st' = [normalizedAt5] /\
  status st' = StatusError /\
  status st' <> StatusReady.
Proof.
  cbv zeta. repeat split; try reflexivity.
  change (StatusError <> StatusReady). discriminate.
Qed.

(** With a limit of 0 the status ['error'] occurs on an empty Series: the
    first failed poll stores the empty fallback and sets the data flag, the
    second finds the flag set. *)
Remark error_status_on_empty_series_at_limit_zero :
  let st1 := @pull exampleHost (exampleOptions 0) (Rejected "Failed to fetch") 2
               exampleStart in
  let st2 := @pull exampleHost (exampleOptions 0) (Rejected "Failed to fetch") 3 st1 in
  @reachable exampleHost (exampleOptions 0) st2 /\
  status st2 = StatusError /\ observations st2 = [] /\ hasDataRef st2 = true.
Proof.
  cbv zeta. split; [do 2 apply reachable_pull; apply reachable_initial |].
  repeat split; reflexivity.
Qed.

Lemma failed_poll_on_empty_series_falls_back_witness :
  let st' := @pull exampleHost (exampleOptions 3) (Rejected "Failed to fetch") 2
               exampleStart in
  List.length (observations st') = 3%nat /\
  status st' = StatusReady /\
  error st' = Some fallbackNotice.
Proof.
  destruct (@failed_poll_on_empty_series_falls_back exampleHost
              (exampleOptions 3) exampleStart (Rejected "Failed to fetch") 2%Z
              "Failed to fetch" 0%Z)
    as (fallback & _ & Hseries & Hlen & _ & Hstatus & Herror & _).
  - apply reachable_initial.
  - reflexivity.
  - cbn. lia.
  - intros n. cbn. lra.
  - reflexivity.
  - unfold maxTimeValue. lia.
  - reflexivity.
  - cbv zeta. rewrite Hseries, Hlen. split; [reflexivity |].
    split; [exact Hstatus | exact Herror].
Defined.

(** The claim of C3 fails for a limit of 0: the fetch fails on the empty
    Series, the generator is called for 0 records, and the Series is
    still empty afterwards. *)
Lemma fallback_of_limit_zero_is_empty :
  let st' := @pull exampleHost (exampleOptions 0) (Rejected "Failed to fetch") 2
               exampleStart in
  observations exampleStart = [] /\
  observations st' = [] /\
  status st' = StatusReady /\
  error st' = Some fallbackNotice.
Proof. cbv zeta. repeat split; reflexivity. Qed.

(** ** The normaliser *)

Section NormalizerProperties.
Context `{Host}.

(** What a search of [coalesceNumber] ends in: the first finite
    conversion, the first conversion that throws, or the fallback. *)
Lemma coalesceNumber_search (values : list jsval) (fallback : number) :
  (exists before v after x,
      values = before ++ v :: after /\ Forall skipped before /\
      Number_of v = Ok (Fin x) /\
      coalesceNumber values fallback = Ok (Fin x)) \/
  (exists before v after,
      values = before ++ v :: after /\ Forall skipped before /\
      Number_of v = Throw TypeError_toPrimitive /\
      coalesceNumber values fallback = Throw TypeError_toPrimitive) \/
  (Forall skipped values /\ coalesceNumber values fallback = Ok fallback).
Proof.
  induction values as [| v values IH]; cbn [coalesceNumber].
  - right. right. split; [constructor | reflexivity].
  - destruct (Number_of v) as [n | m] eqn:Hv; cbn [bind].
    + destruct n as [x | | |] eqn:Hn; cbn [Number_isFinite].
      * left. exists [], v, values, x. repeat split; [constructor | exact Hv].
      * assert (Hskip : skipped v) by (exists PosInf; now split).
        destruct IH as [(before & w & after & x & -> & Hb & Hw & Hres)
                       | [(before & w & after & -> & Hb & Hw & Hres) | [Hb Hres]]].
        -- left. exists (v :: before), w, after, x. repeat split; auto.
        -- right. left. exists (v :: before), w, after. repeat split; auto.
        -- right. right. split; [now constructor | exact Hres].
      * assert (Hskip : skipped v) by (exists NegInf; now split).
        destruct IH as [(before & w & after & x & -> & Hb & Hw & Hres)
                       | [(before & w & after & -> & Hb & Hw & Hres) | [Hb Hres]]].
        -- left. exists (v :: before), w, after, x. repeat split; auto.
        -- right. left. exists (v :: before), w, after. repeat split; auto.
        -- right. right. split; [now constructor | exact Hres].
      * assert (Hskip : skipped v) by (exists NaN; now split).
        destruct IH as [(before & w & after & x & -> & Hb & Hw & Hres)
                       | [(before & w & after & -> & Hb & Hw & Hres) | [Hb Hres]]].
        -- left. exists (v :: before), w, after, x. repeat split; auto.
        -- right. left. exists (v :: before), w, after. repeat split; auto.
        -- right. right. split; [now constructor | exact Hres].
    + right. left. exists [], v, values.
      assert (Hm : m = TypeError_toPrimitive).
      { destruct v as [| | [|] | n | t | [q |]]; cbn in Hv; congruence. }
      subst m. repeat split; [constructor | exact Hv].
Qed.

Lemma coalesceNumber_finite (values : list jsval) (x : R) (n : number) :
  coalesceNumber values (Fin x) = Ok n -> exists y, n = Fin y.
Proof.
  induction values as [| v values IH]; cbn [coalesceNumber].
  - intros [= <-]. now exists x.
  - destruct (Number_of v) as [[y | | |] | m]; cbn [bind Number_isFinite];
      try exact IH; [| discriminate].
    intros [= <-]. now exists y.
Qed.

Lemma String_of_returns (v : jsval) : convertible v -> exists t, String_of v = Ok t.
Proof.
  unfold convertible. destruct v as [| | [|] | n | t | [q |]]; cbn;
    intros Hv; try (eexists; reflexivity). exfalso. now apply Hv.
Qed.

Lemma Number_of_returns (v : jsval) : convertible v -> exists n, Number_of v = Ok n.
Proof.
  unfold convertible. destruct v as [| | [|] | n | t | [q |]]; cbn;
    intros Hv; try (eexists; reflexivity). exfalso. now apply Hv.
Qed.

Lemma coalesceNumber_returns (values : list jsval) (fallback : number) :
  Forall convertible values -> exists n, coalesceNumber values fallback = Ok n.
Proof.
  induction 1 as [| v values Hv _ IH]; cbn [coalesceNumber]; [now eexists |].
  destruct (Number_of_returns v Hv) as [n ->]. cbn [bind].
  destruct (Number_isFinite n); [now eexists | exact IH].
Qed.

Lemma prop_convertible (raw : Properties) (key : string) :
  Forall convertible (map snd raw) -> convertible (prop raw key).
Proof.
  induction raw as [| [k v] raw IH]; cbn; intros Hall; [discriminate |].
  inversion Hall; subst. destruct (String.eqb k key); auto.
Qed.

Lemma orElse_convertible (a b : jsval) :
  convertible a -> convertible b -> convertible (a ?? b).
Proof. unfold orElse. now destruct (nullish a). Qed.

Lemma normalizeObservation_fields (raw : Properties) (obs : DerivedObservation) :
  normalizeObservation (ObjectRecord raw) = Ok obs ->
  coalesceNumber [prop raw "altitude"; prop raw "altitude_m";
                  prop raw "altitude_agl"; prop raw "altitude_from_gps"] (Fin 0)
    = Ok (altitude obs) /\
  coalesceNumber [prop raw "temperature"; prop raw "temperature_c";
                  prop raw "temp"; prop raw "temperature_celsius"] (Fin 0)
    = Ok (temperature obs) /\
  coalesceNumber [prop raw "humidity"; prop raw "relative_humidity";
                  prop raw "rh"; prop raw "humidity_percent"] (Fin 0)
    = Ok (humidity obs) /\
  coalesceNumber [prop raw "speed_u"; prop raw "wind_u"; prop raw "u_component"] (Fin 0)
    = Ok (speed_u obs) /\
  coalesceNumber [prop raw "speed_v"; prop raw "wind_v"; prop raw "v_component"] (Fin 0)
    = Ok (speed_v obs) /\
  windSpeed obs = Math_hypot (speed_u obs) (speed_v obs).
Proof.
  unfold normalizeObservation.
  destruct (String_of _) as [i | m]; [| discriminate]. cbn [bind].
  destruct (String_of _) as [mi | m]; [| discriminate]. cbn [bind].
  destruct (resolveTimestamp _) as [ts | m]; [| discriminate]. cbn [bind].
  destruct (coalesceNumber _ _) as [a | m]; [| discriminate]. cbn [bind].
  destruct (coalesceNumber _ _) as [t | m]; [| discriminate]. cbn [bind].
  destruct (coalesceNumber _ _) as [h | m]; [| discriminate]. cbn [bind].
  destruct (coalesceNumber _ _) as [u | m]; [| discriminate]. cbn [bind].
  destruct (coalesceNumber _ _) as [v | m]; [| discriminate]. cbn [bind].
  intros [= <-]. cbn [altitude temperature humidity speed_u speed_v windSpeed].
  repeat split.
Qed.

(** [resolveTimestamp] returns unless its argument is a number, or a
    string that reads as one, that lies past the range of [Date]. *)
Lemma resolveTimestamp_returns (value : jsval) :
  (forall x, finiteContent value = Some x ->
     (Rabs (epochMilliseconds x) <= IZR maxTimeValue)%R) ->
  exists ts, resolveTimestamp value = Ok ts.
Proof.
  intros Hrange.
  assert (Hepoch : forall x,
             (Rabs (epochMilliseconds x) <= IZR maxTimeValue)%R ->
             exists ts, epochToISO x = Ok ts).
  { intros x Hx. unfold epochToISO, Date_ofNumber.
    destruct (Rle_dec _ _) as [_ | Hout]; [cbn; now eexists | contradiction]. }
  destruct value as [| | b | [x | | |] | s | p]; cbn in *;
    try (now eexists).
  - apply Hepoch, Hrange. reflexivity.
  - destruct (StringToNumber s) as [x | | |]; try (now eexists).
    apply Hepoch, Hrange. reflexivity.
Qed.

Lemma normalizeObservation_returns (raw : Properties) (ts : string) :
  Forall convertible (map snd raw) ->
  resolveTimestamp (prop raw "timestamp" ?? prop raw "datetime"
                      ?? prop raw "observation_time" ?? JNumber (Fin (IZR Date_now)))
    = Ok ts ->
  exists obs, normalizeObservation (ObjectRecord raw) = Ok obs /\ timestamp obs = ts.
Proof.
  intros Hall Hts. unfold normalizeObservation.
  assert (Hprop : forall key, convertible (prop raw key))
    by (intros key; now apply prop_convertible).
  destruct (String_of_returns
              (prop raw "id" ?? prop raw "pk" ?? prop raw "timestamp"
                 ?? JString cryptoRandomId)) as [i ->].
  { repeat apply orElse_convertible; auto. discriminate. }
  destruct (String_of_returns
              (prop raw "mission_id" ?? prop raw "mission" ?? JString "unknown"))
    as [mi ->].
  { repeat apply orElse_convertible; auto. discriminate. }
  rewrite Hts. cbn [bind].
  destruct (coalesceNumber_returns
              [prop raw "altitude"; prop raw "altitude_m";
               prop raw "altitude_agl"; prop raw "altitude_from_gps"] (Fin 0))
    as [a ->]; [repeat constructor; auto |].
  destruct (coalesceNumber_returns
              [prop raw "temperature"; prop raw "temperature_c";
               prop raw "temp"; prop raw "temperature_celsius"] (Fin 0))
    as [t ->]; [repeat constructor; auto |].
  destruct (coalesceNumber_returns
              [prop raw "humidity"; prop raw "relative_humidity";
               prop raw "rh"; prop raw "humidity_percent"] (Fin 0))
    as [h ->]; [repeat constructor; auto |].
  destruct (coalesceNumber_returns
              [prop raw "speed_u"; prop raw "wind_u"; prop raw "u_component"] (Fin 0))
    as [u ->]; [repeat constructor; auto |].
  destruct (coalesceNumber_returns
              [prop raw "speed_v"; prop raw "wind_v"; prop raw "v_component"] (Fin 0))
    as [v ->]; [repeat constructor; auto |].
  cbn [bind]. eexists. split; reflexivity.
Qed.

(** A timestamp in nanoseconds is past the range of [Date]: the
    normaliser throws the RangeError of [toISOString]. *)
Remark normalizeObservation_throws_past_date_range :
  normalizeObservation rawNanoseconds = Throw "Invalid time value".
Proof.
  unfold normalizeObservation, rawNanoseconds.
  cbn [prop String.eqb Ascii.eqb Bool.eqb orElse nullish String_of bind].
  unfold resolveTimestamp, epochToISO, epochMilliseconds.
  destruct (Rlt_dec 1000000000000 1700000000000000000) as [_ | Hn]; [| exfalso; lra].
  unfold Date_ofNumber.
  destruct (Rle_dec (Rabs 1700000000000000000) (IZR maxTimeValue)) as [Hle | _].
  - exfalso. rewrite Rabs_right in Hle by lra. unfold maxTimeValue in Hle. lra.
  - reflexivity.
Qed.

(** Nor does the normaliser return on a record that is [null], or on one
    that holds an object whose conversion to a primitive value throws. *)
Remark normalizeObservation_throws_on_null_record :
  normalizeObservation NullRecord = Throw TypeError_nullRecord.
Proof. reflexivity. Qed.

End NormalizerProperties.

Remark normalizeObservation_throws_on_unprintable_object :
  @normalizeObservation exampleHost rawUnprintableAltitude =
    Throw "Cannot convert object to primitive value".
Proof. reflexivity. Qed.

(** C9: the claim fails on a candidate that is [null].  [coalesceNumber]
    converts every candidate with [Number(...)], and [Number(null)] is 0, a
    finite number: on the record with [altitude: null] and
    [altitude_m: 1200] the normaliser returns the altitude 0, where the
    first candidate that holds a finite number gives 1200. *)
Lemma null_field_wins_over_later_alias :
  exists obs,
    @normalizeObservation exampleHost rawNullAltitude = Ok obs /\
    altitude obs = Fin 0 /\
    @firstFiniteContent exampleHost
      [prop fieldsNullAltitude "altitude"; prop fieldsNullAltitude "altitude_m";
       prop fieldsNullAltitude "altitude_agl";
       prop fieldsNullAltitude "altitude_from_gps"]
      = Fin 1200 /\
    altitude obs <>
      @firstFiniteContent exampleHost
        [prop fieldsNullAltitude "altitude"; prop fieldsNullAltitude "altitude_m";
         prop fieldsNullAltitude "altitude_agl";
         prop fieldsNullAltitude "altitude_from_gps"].
Proof.
  eexists. split; [reflexivity |]. split; [reflexivity |]. split; [reflexivity |].
  cbn. intros Heq. injection Heq as Heq. lra.
Qed.

(** X27: what [coalesceNumber] and the numeric fields are in the code.  A
    search ends at the first candidate whose conversion [Number(v)] is
    finite, with that number, or at the first whose conversion throws,
    with its TypeError, every candidate before having a conversion that is
    not finite; past the last candidate it yields the fallback.  Whenever
    the normaliser returns, each numeric field is the result of the search
    over its alias list with fallback 0, and is finite.  A numeric string
    yields its parsed value; null and the booleans count as 0, 1 and 0;
    an absent candidate is passed over. *)
Theorem numeric_fields_take_first_finite_conversion `{Host} :
  (forall values fallback,
      (exists before v after x,
          values = before ++ v :: after /\ Forall skipped before /\
          Number_of v = Ok (Fin x) /\
          coalesceNumber values fallback = Ok (Fin x)) \/
      (exists before v after,
          values = before ++ v :: after /\ Forall skipped before /\
          Number_of v = Throw TypeError_toPrimitive /\
          coalesceNumber values fallback = Throw TypeError_toPrimitive) \/
      (Forall skipped values /\ coalesceNumber values fallback = Ok fallback)) /\
  (forall raw obs,
      normalizeObservation (ObjectRecord raw) = Ok obs ->
      coalesceNumber [prop raw "altitude"; prop raw "altitude_m";
                      prop raw "altitude_agl"; prop raw "altitude_from_gps"] (Fin 0)
        = Ok (altitude obs) /\
      coalesceNumber [prop raw "temperature"; prop raw "temperature_c";
                      prop raw "temp"; prop raw "temperature_celsius"] (Fin 0)
        = Ok (temperature obs) /\
      coalesceNumber [prop raw "humidity"; prop raw "relative_humidity";
                      prop raw "rh"; prop raw "humidity_percent"] (Fin 0)
        = Ok (humidity obs) /\
      coalesceNumber [prop raw "speed_u"; prop raw "wind_u";
                      prop raw "u_component"] (Fin 0)
        = Ok (speed_u obs) /\
      coalesceNumber [prop raw "speed_v"; prop raw "wind_v";
                      prop raw "v_component"] (Fin 0)
        = Ok (speed_v obs) /\
      Forall (fun n => Number_isFinite n = true)
        [altitude obs; temperature obs; humidity obs; speed_u obs; speed_v obs]) /\
  (forall s x rest fallback,
      StringToNumber s = Fin x ->
      coalesceNumber (JString s :: rest) fallback = Ok (Fin x)) /\
  (forall rest fallback,
      coalesceNumber (JNull :: rest) fallback = Ok (Fin 0) /\
      coalesceNumber (JBool true :: rest) fallback = Ok (Fin 1) /\
      coalesceNumber (JBool false :: rest) fallback = Ok (Fin 0) /\
      coalesceNumber (JUndefined :: rest) fallback = coalesceNumber rest fallback).
Proof.
  split; [exact coalesceNumber_search |].
  split; [| split].
  - intros raw obs Hobs.
    destruct (normalizeObservation_fields raw obs Hobs)
      as (Ha & Ht & Hh & Hu & Hv & _).
    do 5 (split; [assumption |]).
    destruct (coalesceNumber_finite _ _ _ Ha) as [a ->].
    destruct (coalesceNumber_finite _ _ _ Ht) as [t ->].
    destruct (coalesceNumber_finite _ _ _ Hh) as [h ->].
    destruct (coalesceNumber_finite _ _ _ Hu) as [u ->].
    destruct (coalesceNumber_finite _ _ _ Hv) as [v ->].
    repeat constructor.
  - intros s x rest fallback Hs. cbn. now rewrite Hs.
  - intros rest fallback. repeat split.
Qed.

Lemma numeric_fields_take_first_finite_conversion_witness :
  @coalesceNumber exampleHost
    [prop fieldsAt5 "altitude"; prop fieldsAt5 "altitude_m";
     prop fieldsAt5 "altitude_agl"; prop fieldsAt5 "altitude_from_gps"] (Fin 0)
    = Ok (altitude normalizedAt5) /\
  @coalesceNumber exampleHost [JString "1200"; JNumber (Fin 7)] (Fin 0)
    = Ok (Fin (IZR 1200)).
Proof.
  destruct (@numeric_fields_take_first_finite_conversion exampleHost)
    as (_ & Hfields & Hstring & _).
  split.
  - destruct (Hfields fieldsAt5 normalizedAt5 eq_refl) as (Ha & _). exact Ha.
  - apply Hstring. reflexivity.
Defined.

(** X28: when the normaliser returns and when it throws.  It returns on
    every record that is not [null], holds no object whose conversion to a
    primitive value throws, and whose timestamp, when it is a number or
    reads as one, gives milliseconds within the range of [Date].  It throws
    on the record [null], on a record whose [id] is an object whose
    conversion throws, and on a numeric timestamp above 8.64e15. *)
Theorem normalizeObservation_returns_or_throws `{Host} :
  (forall raw,
      Forall convertible (map snd raw) ->
      (forall x,
          finiteContent (prop raw "timestamp" ?? prop raw "datetime"
                           ?? prop raw "observation_time"
                           ?? JNumber (Fin (IZR Date_now))) = Some x ->
          (Rabs (epochMilliseconds x) <= IZR maxTimeValue)%R) ->
      exists obs, normalizeObservation (ObjectRecord raw) = Ok obs) /\
  normalizeObservation NullRecord = Throw TypeError_nullRecord /\
  (forall raw,
      prop raw "id" = JObject None ->
      normalizeObservation (ObjectRecord raw) = Throw TypeError_toPrimitive) /\
  (forall raw x,
      convertible (prop raw "id") -> convertible (prop raw "pk") ->
      convertible (prop raw "mission_id") -> convertible (prop raw "mission") ->
      prop raw "timestamp" = JNumber (Fin x) ->
      (8640000000000000 < x)%R ->
      normalizeObservation (ObjectRecord raw) = Throw "Invalid time value").
Proof.
  split; [| split; [reflexivity | split]].
  - intros raw Hall Hrange.
    destruct (resolveTimestamp_returns _ Hrange) as [ts Hts].
    destruct (normalizeObservation_returns raw ts Hall Hts) as (obs & Hobs & _).
    now exists obs.
  - intros raw Hid. unfold normalizeObservation. rewrite Hid. reflexivity.
  - intros raw x Hid Hpk Hmid Hmission Hts Hx. unfold normalizeObservation.
    destruct (String_of_returns
                (prop raw "id" ?? prop raw "pk" ?? prop raw "timestamp"
                   ?? JString cryptoRandomId)) as [i ->].
    { repeat apply orElse_convertible; auto; [rewrite Hts |]; discriminate. }
    destruct (String_of_returns
                (prop raw "mission_id" ?? prop raw "mission" ?? JString "unknown"))
      as [mi ->].
    { repeat apply orElse_convertible; auto. discriminate. }
    cbn [bind]. rewrite Hts. cbn [orElse nullish resolveTimestamp].
    unfold epochToISO, epochMilliseconds.
    destruct (Rlt_dec 1000000000000 x) as [_ | Hn]; [| exfalso; lra].
    unfold Date_ofNumber.
    destruct (Rle_dec (Rabs x) (IZR maxTimeValue)) as [Hle | _]; [| reflexivity].
    exfalso. rewrite Rabs_right in Hle by lra. unfold maxTimeValue in Hle. lra.
Qed.

Lemma normalizeObservation_returns_or_throws_witness :
  exists obs, @normalizeObservation exampleHost rawAt5 = Ok obs.
Proof.
  apply (proj1 (@normalizeObservation_returns_or_throws exampleHost) fieldsAt5).
  - repeat constructor; discriminate.
  - intros x Hx. cbn in Hx. discriminate.
Defined.

(** ** The wind speed *)


Lemma mapM_Forall {A B : Type} (f : A -> Result B) (P : B -> Prop) (l : list A)
  (r : list B) :
  (forall a b, f a = Ok b -> P b) -> mapM f l = Ok r -> Forall P r.
Proof.
  intros Hf. revert r. induction l as [| a l IH]; cbn; intros r Hr.
  - injection Hr as <-. constructor.
  - destruct (f a) as [b |] eqn:Hb; [| discriminate]. cbn in Hr.
    destruct (mapM f l) as [bs |]; [| discriminate]. cbn in Hr.
    injection Hr as <-. constructor; [now apply (Hf a) | now apply IH].
Qed.

Lemma overflowThreshold_pos : (0 < overflowThreshold)%R.
Proof.
  unfold overflowThreshold.
  assert (Hstep : (2 ^ 1024 = 2 ^ 54 * 2 ^ 970)%R) by (rewrite <- pow_add; reflexivity).
  pose proof (pow2_pos 970). assert (1 < 2 ^ 54)%R by lra. nra.
Qed.



(** Components near the largest double: the norm overflows and the wind
    speed stored is Infinity. *)
Remark windSpeed_of_storm_is_infinite :
  exists obs,
    @normalizeObservation exampleHost rawStorm = Ok obs /\ windSpeed obs = PosInf.
Proof.
  eexists. split; [reflexivity |]. cbn [windSpeed Math_hypot].
  destruct (Rle_dec overflowThreshold _) as [_ | Hbelow]; [reflexivity |].
  exfalso. apply Hbelow. unfold overflowThreshold.
  apply Rsqr_incr_0_var; [| apply sqrt_pos].
  rewrite Rsqr_sqrt by (pose proof (pow2_pos 1022); nra).
  assert (Hstep : (2 ^ 1024 = 4 * 2 ^ 1022)%R) by (simpl; ring).
  pose proof (pow2_pos 1022). pose proof (pow2_pos 970).
  pose proof (pow2_monotone 970 1024 ltac:(lia)).
  unfold Rsqr. rewrite Hstep in *. nra.
Qed.

(** * Further properties of the code *)

(** ** Progress and scrubbing *)

(** X13: for an index within the slice, [progress] lies in [0, 1], and
    scrubbing to that progress with [setProgress] gives back the index. *)
Theorem progress_scrub_round_trip :
  forall (len : nat) (i j : Z),
    (0 <= i < Z.of_nat len)%Z ->
    (0 <= progress len i <= 1)%R /\ setProgress len (progress len i) j = i.
Proof.
  intros len i j [Hlo Hhi].
  destruct len as [| [| n]]; [lia | |].
  - assert (i = 0%Z) by lia. subst i. unfold progress, setProgress. cbn [Nat.leb].
    split; [lra |]. rewrite clamp_inside by lra.
    rewrite Rmult_0_l, (double_IZR 0). apply (Math_round_IZR 0).
  - unfold progress, setProgress. cbn [Nat.leb].
    rewrite INR_pred_S.
    assert (Hn : (1 <= IZR (Z.of_nat (S n)))%R) by (apply IZR_le; lia).
    assert (Hi : (0 <= IZR i <= IZR (Z.of_nat (S n)))%R)
      by (split; apply IZR_le; lia).
    assert (Hq : (0 <= IZR i / IZR (Z.of_nat (S n)) <= 1)%R).
    { split.
      - apply Rmult_le_pos; [tauto |]. left. apply Rinv_0_lt_compat. lra.
      - apply Rmult_le_reg_r with (IZR (Z.of_nat (S n))); [lra |].
        unfold Rdiv. rewrite Rmult_assoc, Rinv_l by lra. lra. }
    split; [exact Hq |].
    rewrite clamp_inside by exact Hq.
    replace (IZR i / IZR (Z.of_nat (S n)) * IZR (Z.of_nat (S n)))%R with (IZR i)
      by (field; lra).
    rewrite double_IZR. apply Math_round_IZR.
Qed.

Lemma progress_scrub_round_trip_witness :
  (0 <= progress 10 7 <= 1)%R /\ setProgress 10 (progress 10 7) 0 = 7%Z.
Proof. apply (progress_scrub_round_trip 10 7 0). lia. Defined.

(** ** Running to the end *)

Lemma timer_step_inside (p : Player) :
  playing p = true -> (2 <= List.length (slice p))%nat ->
  (0 <= index p < Z.of_nat (List.length (slice p)) - 1)%Z ->
  playbackStep p TimerFired = with_index (index p + 1) p.
Proof.
  intros Hplay Hlen Hi.
  destruct (at_index_in_range (slice p) (index p)) as [current Hcur]; [lia |].
  destruct (at_index_in_range (slice p) (index p + 1)) as [next Hnext]; [lia |].
  pose proof (schedule_in_range (slice p) (index p) (speed p) current next
                Hlen Hcur Hnext) as Hs.
  unfold playbackStep. rewrite Hplay, Hs. unfold advance. f_equal. lia.
Qed.

Lemma at_index_past_end {A : Type} (l : list A) (i : Z) :
  (Z.of_nat (List.length l) <= i)%Z -> at_index l i = None.
Proof.
  intros Hi. unfold at_index. destruct (Z.ltb_spec i 0); [reflexivity |].
  apply nth_error_None. lia.
Qed.

Lemma schedule_at_end (S : list DerivedObservation) (i : Z) (on : bool) (v : R) :
  (Z.of_nat (List.length S) - 1 <= i)%Z -> schedule S i on v = ClearTimer.
Proof.
  intros Hi. unfold schedule.
  destruct (negb on || (List.length S <? 2)%nat); [reflexivity |].
  rewrite at_index_past_end by lia. reflexivity.
Qed.

Lemma timer_step_at_end (p : Player) :
  (Z.of_nat (List.length (slice p)) - 1 <= index p)%Z ->
  playbackStep p TimerFired = p.
Proof.
  intros Hi. unfold playbackStep. now rewrite schedule_at_end.
Qed.

Lemma timerFirings_run (k : nat) (p : Player) :
  playing p = true -> (2 <= List.length (slice p))%nat -> indexInBounds p ->
  timerFirings k p =
    with_index (Z.min (index p + Z.of_nat k) (Z.of_nat (List.length (slice p)) - 1)) p.
Proof.
  intros Hplay Hlen [Hlo Hhi].
  induction k as [| k IH].
  - cbn. destruct p as [S on v i]. unfold with_index. cbn in *. f_equal. lia.
  - change (timerFirings (S k) p) with (playbackStep (timerFirings k p) TimerFired).
    rewrite IH.
    set (q := with_index _ p).
    assert (Hq : slice q = slice p /\ playing q = playing p) by (split; reflexivity).
    destruct Hq as [Hslice Hon].
    destruct (Z.lt_ge_cases (index p + Z.of_nat k)
                (Z.of_nat (List.length (slice p)) - 1)) as [Hin | Hout].
    + rewrite timer_step_inside; rewrite ?Hslice, ?Hon; try assumption.
      * subst q. unfold with_index. cbn [index slice playing speed]. f_equal. lia.
      * subst q. cbn [with_index index]. lia.
    + rewrite timer_step_at_end.
      * subst q. unfold with_index. f_equal. lia.
      * rewrite Hslice. subst q. cbn [with_index index]. lia.
Qed.

(** X14: while playing on a slice of at least two records, [k] firings of
    the timer move the index from [i] to [min(i + k, length - 1)]: playback
    runs to the last record and stays there; at the last record, and
    whenever playback is paused, no timer is set. *)
Theorem playback_runs_to_the_end_and_halts :
  (forall (k : nat) (p : Player),
      playing p = true -> (2 <= List.length (slice p))%nat -> indexInBounds p ->
      index (timerFirings k p) =
        Z.min (index p + Z.of_nat k) (Z.of_nat (List.length (slice p)) - 1) /\
      slice (timerFirings k p) = slice p) /\
  (forall (S : list DerivedObservation) (i : Z) (on : bool) (v : R),
      (Z.of_nat (List.length S) - 1 <= i)%Z -> schedule S i on v = ClearTimer) /\
  (forall (S : list DerivedObservation) (i : Z) (v : R),
      schedule S i false v = ClearTimer).
Proof.
  split; [| split].
  - intros k p Hplay Hlen Hin. rewrite timerFirings_run by assumption.
    split; reflexivity.
  - exact schedule_at_end.
  - reflexivity.
Qed.

Lemma playback_runs_to_the_end_and_halts_witness :
  index (timerFirings 5 {| slice := threeSamples; playing := true; speed := 1; index := 0 |})
  = 2%Z.
Proof.
  destruct (proj1 playback_runs_to_the_end_and_halts 5%nat
              {| slice := threeSamples; playing := true; speed := 1; index := 0 |})
    as [Hindex _].
  - reflexivity.
  - cbn. lia.
  - unfold indexInBounds. cbn. lia.
  - exact Hindex.
Defined.

(** X15: inside the slice [stepForward] and [stepBackward] undo each
    other; [stepForward] stays at the last index and [stepBackward] at 0;
    and with the index in bounds on a non-empty slice the current
    observation is never null. *)
Theorem steps_saturate_and_invert :
  forall (p : Player),
    indexInBounds p -> slice p <> [] ->
    let len := List.length (slice p) in
    let i := index p in
    ((i < Z.of_nat len - 1)%Z -> stepBackward (stepForward len i) = i) /\
    ((0 < i)%Z -> stepForward len (stepBackward i) = i) /\
    stepForward len (Z.of_nat len - 1) = (Z.of_nat len - 1)%Z /\
    stepBackward 0 = 0%Z /\
    exists obs, currentObservation p = Some obs.
Proof.
  intros p [Hlo Hhi] Hne len i.
  assert (Hlen : (1 <= len)%nat).
  { subst len. destruct (slice p); [contradiction | cbn; lia]. }
  unfold stepForward, stepBackward.
  destruct len as [| n] eqn:Hl; [lia |].
  repeat split; try lia.
  unfold currentObservation. apply at_index_in_range. subst i. fold len in Hl.
  unfold len in Hl. rewrite Hl. lia.
Qed.

Lemma steps_saturate_and_invert_witness :
  stepBackward (stepForward 3 0) = 0%Z /\
  exists obs,
    currentObservation {| slice := threeSamples; playing := false; speed := 1; index := 0 |}
    = Some obs.
Proof.
  destruct (steps_saturate_and_invert
              {| slice := threeSamples; playing := false; speed := 1; index := 0 |})
    as (Hback & _ & _ & _ & Hcurrent).
  - unfold indexInBounds. cbn. lia.
  - discriminate.
  - split; [apply Hback; cbn; lia | exact Hcurrent].
Defined.

(** ** The window of [App] *)

Lemma presets_within_day (preset : Z) :
  In preset DURATION_PRESETS -> (1 <= preset <= HOURS_IN_DAY)%Z.
Proof.
  unfold DURATION_PRESETS, HOURS_IN_DAY. cbn.
  intros [<- | [<- | [<- | [<- | [<- | []]]]]]; lia.
Qed.

(** X19: the window starts within the day, and choosing a preset duration
    or moving the window along the track keeps it there: the start is never
    negative, start plus duration never passes 24 hours, and so the window
    end is start plus duration, the window having its full duration. *)
Theorem window_stays_within_day :
  windowWithinDay initialWindow /\
  (forall (w : Window) (preset : Z),
      windowWithinDay w -> In preset DURATION_PRESETS ->
      let w' := windowStep w (ChooseDuration preset) in
      windowWithinDay w' /\ windowDuration w' = preset /\
      windowEnd w' = (windowStart w' + preset)%Z) /\
  (forall (w : Window) (relative : R),
      windowWithinDay w ->
      let w' := windowStep w (MoveTo relative) in
      windowWithinDay w' /\ windowDuration w' = windowDuration w /\
      windowEnd w' = (windowStart w' + windowDuration w)%Z).
Proof.
  unfold windowWithinDay, windowEnd. split; [| split].
  - unfold initialWindow, HOURS_IN_DAY. cbn [windowStart windowDuration]. lia.
  - intros w preset [Hlo Hhi] Hin. apply presets_within_day in Hin.
    unfold windowStep, chooseDuration, clampWindowStart.
    cbn [windowStart windowDuration]. unfold HOURS_IN_DAY in *. lia.
  - intros w relative [Hlo Hhi].
    unfold windowStep, moveWindowToPosition, maxWindowStart.
    unfold HOURS_IN_DAY in *.
    destruct (Z.leb_spec (Z.max 0 (24 - windowDuration w)) 0);
      cbn [windowStart windowDuration]; lia.
Qed.

Lemma window_stays_within_day_witness :
  let w' := windowStep {| windowStart := 20; windowDuration := 1 |} (ChooseDuration 6) in
  windowStart w' = 18%Z /\ windowEnd w' = 24%Z.
Proof.
  destruct (proj1 (proj2 window_stays_within_day)
              {| windowStart := 20; windowDuration := 1 |} 6%Z)
    as (_ & _ & Hend).
  - unfold windowWithinDay, HOURS_IN_DAY. cbn [windowStart windowDuration]. lia.
  - unfold DURATION_PRESETS. cbn [In]. tauto.
  - cbv zeta. split; [reflexivity | exact Hend].
Defined.

(** ** The sonifier *)

Lemma clamp_monotone (x y lo hi : R) : (x <= y)%R -> (clamp x lo hi <= clamp y lo hi)%R.
Proof.
  intros Hxy. unfold clamp.
  apply Rle_min_compat_r, Rle_max_compat_r, Hxy.
Qed.

Lemma normalize_unit (value : R) (range : Range) : (0 <= normalize value range <= 1)%R.
Proof.
  unfold normalize. destruct range as [lo hi]. cbn [range_min range_max].
  destruct (Req_dec_T (hi - lo) 0) as [Hzero | Hwidth].
  - assert (hi = lo) by lra. subst hi.
    unfold clamp. rewrite Rmin_right by apply Rmax_r. lra.
  - destruct (Rlt_le_dec lo hi) as [Hlt | Hge].
    + pose proof (clamp_between value lo hi ltac:(lra)) as Hc.
      assert (Hinv : (0 < / (hi - lo))%R) by (apply Rinv_0_lt_compat; lra).
      split.
      * apply Rmult_le_pos; lra.
      * apply Rmult_le_reg_r with (hi - lo)%R; [lra |].
        unfold Rdiv. rewrite Rmult_assoc, Rinv_l by lra. lra.
    + unfold clamp. rewrite Rmin_right by (pose proof (Rmax_r value lo); lra).
      unfold Rdiv. rewrite Rinv_r by lra. lra.
Qed.

Lemma normalize_monotone (x y : R) (range : Range) :
  (x <= y)%R -> (normalize x range <= normalize y range)%R.
Proof.
  intros Hxy. unfold normalize. destruct range as [lo hi]. cbn [range_min range_max].
  pose proof (clamp_monotone x y lo hi Hxy) as Hc.
  destruct (Req_dec_T (hi - lo) 0) as [Hzero | Hwidth].
  - lra.
  - destruct (Rlt_le_dec lo hi) as [Hlt | Hge].
    + apply Rmult_le_compat_r; [left; apply Rinv_0_lt_compat; lra | lra].
    + unfold clamp.
      rewrite !Rmin_right by (pose proof (Rmax_r x lo); pose proof (Rmax_r y lo); lra).
      lra.
Qed.

Lemma normalize_proper (value lo hi : R) :
  (lo < hi)%R ->
  normalize value {| range_min := lo; range_max := hi |} =
    ((clamp value lo hi - lo) / (hi - lo))%R.
Proof.
  intros Hlt. unfold normalize. cbn [range_min range_max].
  destruct (Req_dec_T (hi - lo) 0); [lra | reflexivity].
Qed.

(** X21: [normalize] yields a ratio in [0, 1] for every value and every
    range, also when the range is empty or reversed (the guard [|| 1]
    keeps the division defined), and it never decreases when the value
    grows. *)
Theorem normalize_within_unit_interval :
  forall (value other : R) (range : Range),
    (0 <= normalize value range <= 1)%R /\
    ((value <= other)%R -> (normalize value range <= normalize other range)%R) /\
    ((range_min range < range_max range)%R ->
     ((value <= range_min range)%R -> normalize value range = 0%R) /\
     ((range_max range <= value)%R -> normalize value range = 1%R)).
Proof.
  intros value other range. split; [apply normalize_unit |].
  split; [apply normalize_monotone |].
  intros Hlt. destruct range as [lo hi]. cbn [range_min range_max] in *.
  rewrite normalize_proper by exact Hlt. split; intros Hv.
  - rewrite clamp_below by lra. unfold Rdiv. lra.
  - rewrite clamp_above by lra. unfold Rdiv. rewrite Rinv_r by lra. lra.
Qed.

Lemma normalize_within_unit_interval_witness :
  normalize (-5) ALTITUDE_RANGE = 0%R /\ normalize 40000 ALTITUDE_RANGE = 1%R.
Proof.
  destruct (normalize_within_unit_interval (-5) 0 ALTITUDE_RANGE) as (_ & _ & Hends).
  destruct (normalize_within_unit_interval 40000 0 ALTITUDE_RANGE) as (_ & _ & Hends').
  split.
  - apply Hends; cbn; lra.
  - apply Hends'; cbn; lra.
Defined.

Lemma SCALE_length : INR (List.length SCALE) = 11%R.
Proof. cbn. lra. Qed.

Lemma pitchIndex_range (altitude : R) : (0 <= pitchIndex altitude <= 10)%Z.
Proof. unfold pitchIndex. cbn [List.length SCALE]. lia. Qed.

Lemma pitchIndex_monotone (x y : R) : (x <= y)%R -> (pitchIndex x <= pitchIndex y)%Z.
Proof.
  intros Hxy. unfold pitchIndex.
  pose proof (normalize_monotone x y ALTITUDE_RANGE Hxy) as Hn.
  assert (Hf : (Math_floor (normalize x ALTITUDE_RANGE * INR (List.length SCALE)) <=
                Math_floor (normalize y ALTITUDE_RANGE * INR (List.length SCALE)))%Z).
  { apply Math_floor_monotone. rewrite SCALE_length. lra. }
  lia.
Qed.

(** X22: [altitudeToPitch] always yields a note of the scale, never
    [undefined]; the note never falls when the altitude rises; an altitude
    of 0 or below gives the lowest note and one of 30000 m or above the
    highest. *)
Theorem altitudeToPitch_total_and_monotone :
  forall (altitude other : R),
    (exists note, altitudeToPitch altitude = Some note /\ In note SCALE) /\
    ((altitude <= other)%R -> (pitchIndex altitude <= pitchIndex other)%Z) /\
    ((altitude <= 0)%R -> altitudeToPitch altitude = Some "C3") /\
    ((30000 <= altitude)%R -> altitudeToPitch altitude = Some "C5").
Proof.
  intros altitude other. pose proof (pitchIndex_range altitude) as Hrange.
  split; [| split; [apply pitchIndex_monotone | split]].
  - unfold altitudeToPitch.
    destruct (at_index_in_range SCALE (pitchIndex altitude)) as [note Hnote];
      [cbn; lia |].
    exists note. split; [exact Hnote |].
    unfold at_index in Hnote. destruct (pitchIndex altitude <? 0)%Z; [discriminate |].
    now apply nth_error_In in Hnote.
  - intros Hlow. unfold altitudeToPitch.
    assert (Hi : pitchIndex altitude = 0%Z).
    { unfold pitchIndex.
      assert (Hzero : normalize altitude ALTITUDE_RANGE = 0%R).
      { unfold ALTITUDE_RANGE. rewrite normalize_proper by lra.
        rewrite clamp_below by lra. unfold Rdiv. lra. }
      rewrite Hzero. rewrite Rmult_0_l, (Math_floor_IZR 0).
      cbn [List.length SCALE]. lia. }
    now rewrite Hi.
  - intros Hhigh. unfold altitudeToPitch.
    assert (Hi : pitchIndex altitude = 10%Z).
    { unfold pitchIndex.
      pose proof (normalize_monotone 30000 altitude ALTITUDE_RANGE Hhigh) as Hn.
      assert (H30 : normalize 30000 ALTITUDE_RANGE = (30000 / 33000)%R).
      { unfold ALTITUDE_RANGE. rewrite normalize_proper by lra.
        rewrite clamp_inside by lra. f_equal; lra. }
      rewrite H30 in Hn.
      assert (Hf : (10 <= Math_floor (normalize altitude ALTITUDE_RANGE *
                                      INR (List.length SCALE)))%Z).
      { rewrite <- (Math_floor_IZR 10). apply Math_floor_monotone.
        rewrite SCALE_length. lra. }
      change (Z.of_nat (List.length SCALE)) with 11%Z. lia. }
    now rewrite Hi.
Qed.

Lemma altitudeToPitch_total_and_monotone_witness :
  altitudeToPitch (-100) = Some "C3" /\ altitudeToPitch 32000 = Some "C5".
Proof.
  destruct (altitudeToPitch_total_and_monotone (-100) 0) as (_ & _ & Hlow & _).
  destruct (altitudeToPitch_total_and_monotone 32000 0) as (_ & _ & _ & Hhigh).
  split; [apply Hlow | apply Hhigh]; lra.
Defined.

(** X23: the audio parameters stay within their ranges for every input
    and never decrease when the input grows: the filter frequency within
    [200, 6700], the reverb mix within [0.1, 0.8], the gain within
    [0.2, 1] and the LFO rate within [0.1, 6.1]. *)
Theorem sonifier_parameters_within_range :
  forall (x y : R),
    (200 <= temperatureToFrequency x <= 6700)%R /\
    (0.1 <= humidityToReverb x <= 0.8)%R /\
    (0.2 <= windToGain x <= 1)%R /\
    (0.1 <= windToLfo x <= 6.1)%R /\
    ((x <= y)%R ->
     (temperatureToFrequency x <= temperatureToFrequency y)%R /\
     (humidityToReverb x <= humidityToReverb y)%R /\
     (windToGain x <= windToGain y)%R /\
     (windToLfo x <= windToLfo y)%R).
Proof.
  intros x y.
  unfold temperatureToFrequency, humidityToReverb, windToGain, windToLfo.
  pose proof (normalize_unit x TEMPERATURE_RANGE).
  pose proof (normalize_unit x HUMIDITY_RANGE).
  pose proof (normalize_unit x WIND_RANGE).
  do 4 (split; [lra |]).
  intros Hxy.
  pose proof (normalize_monotone x y TEMPERATURE_RANGE Hxy).
  pose proof (normalize_monotone x y HUMIDITY_RANGE Hxy).
  pose proof (normalize_monotone x y WIND_RANGE Hxy).
  repeat split; lra.
Qed.

Lemma sonifier_parameters_within_range_witness :
  (windToGain 10 <= windToGain 20)%R.
Proof.
  destruct (sonifier_parameters_within_range 10 20) as (_ & _ & _ & _ & Hmono).
  destruct Hmono as (_ & _ & Hgain & _); [lra | exact Hgain].
Defined.

(** ** The slice of [App] *)

Lemma inWindow_spec (startMs : Z) (a b : R) (obs : DerivedObservation) :
  inWindow startMs a b obs = true <->
  exists t, date obs = ValidDate t /\
            (IZR startMs + a * 3600000 <= IZR t <= IZR startMs + b * 3600000)%R.
Proof.
  unfold inWindow, hoursFromStart.
  destruct (date obs) as [t |] eqn:Hd; cbn [getTime].
  - set (h := ((IZR t - IZR startMs) / (60 * 60 * 1000))%R).
    assert (Hh : (IZR t - IZR startMs = h * 3600000)%R) by (unfold h; field).
    destruct (Rle_dec a h) as [Ha | Ha], (Rle_dec h b) as [Hb | Hb]; cbn [andb]; split;
      try discriminate; try (intros _; exists t; split; [reflexivity | lra]);
      intros (t' & [= <-] & Hlo & Hhi); try reflexivity; exfalso; lra.
  - split; [discriminate | intros (t & Ht & _); discriminate].
Qed.

Lemma filteredObservations_filter (s : list DerivedObservation) (startMs : Z) (a b : R) :
  filteredObservations s startMs a b = filter (inWindow startMs a b) s.
Proof. now destruct s. Qed.

Lemma filteredObservations_valid (s : list DerivedObservation) (startMs : Z) (a b : R) :
  Forall validInstant (filteredObservations s startMs a b).
Proof.
  rewrite filteredObservations_filter.
  apply Forall_forall. intros o Ho. apply filter_In in Ho as [_ Ho].
  apply inWindow_spec in Ho as (t & Ht & _). now exists t.
Qed.

(** X16: a record is in the slice exactly when it is in the Series, its
    date is valid and its instant lies between the window start and the
    window end counted from the origin, both ends included; a record with
    an Invalid Date is never in the slice. *)
Theorem filteredObservations_window_membership :
  forall (s : list DerivedObservation) (startMs : Z) (a b : R) (obs : DerivedObservation),
    (In obs (filteredObservations s startMs a b) <->
     In obs s /\
     exists t, date obs = ValidDate t /\
               (IZR startMs + a * 3600000 <= IZR t <= IZR startMs + b * 3600000)%R) /\
    Forall validInstant (filteredObservations s startMs a b).
Proof.
  intros s startMs a b obs. split; [| apply filteredObservations_valid].
  rewrite filteredObservations_filter, filter_In, inWindow_spec. reflexivity.
Qed.

Lemma StronglySorted_filter {A : Type} (R : A -> A -> Prop) (keep : A -> bool)
  (l : list A) :
  StronglySorted R l -> StronglySorted R (filter keep l).
Proof.
  induction 1 as [| a l Hs IH Hall]; cbn; [constructor |].
  destruct (keep a); [| exact IH].
  constructor; [exact IH |].
  rewrite Forall_forall in *. intros x Hx. apply Hall.
  now apply filter_In in Hx as [Hx _].
Qed.

(** X17: the slice keeps the order and the distinct merge keys of the
    Series, and is no longer than it: handing a windowed slice to playback
    never reorders or duplicates records. *)
Theorem filteredObservations_keeps_series_order :
  forall (s : list DerivedObservation) (startMs : Z) (a b : R),
    seriesInvariant s ->
    seriesInvariant (filteredObservations s startMs a b) /\
    (List.length (filteredObservations s startMs a b) <= List.length s)%nat.
Proof.
  intros s startMs a b [Hsorted Hkeys]. rewrite filteredObservations_filter.
  split; [split |].
  - now apply StronglySorted_filter.
  - now apply NoDup_map_filter.
  - apply filter_length_le.
Qed.

Lemma threeSamples_invariant : seriesInvariant threeSamples.
Proof.
  split.
  - unfold threeSamples. repeat constructor;
      eexists; eexists; (split; [reflexivity | split; [reflexivity | lia]]).
  - cbn. repeat constructor; cbn; intuition discriminate.
Qed.

Lemma filteredObservations_keeps_series_order_witness :
  seriesInvariant (filteredObservations threeSamples 0 0 24).
Proof.
  apply (filteredObservations_keeps_series_order threeSamples 0 0 24).
  exact threeSamples_invariant.
Defined.

(** X18: on a slice of [App] every timer the playback hook sets has a
    finite delay between 400 and 10000 ms: the slice holds no Invalid
    Date, so the delay is never NaN. *)
Theorem slice_delays_are_finite :
  forall (s : list DerivedObservation) (startMs : Z) (a b : R) (i : Z) (v : R),
    let S := filteredObservations s startMs a b in
    (2 <= List.length S)%nat ->
    (0 <= i < Z.of_nat (List.length S) - 1)%Z ->
    exists delay,
      schedule S i true v = SetTimeout (Fin delay) /\ (400 <= delay <= 10000)%R.
Proof.
  intros s startMs a b i v S Hlen Hi.
  destruct (at_index_in_range S i) as [current Hcur]; [lia |].
  destruct (at_index_in_range S (i + 1)) as [next Hnext]; [lia |].
  assert (Hvalid : forall o j, at_index S j = Some o -> validInstant o).
  { intros o j Ho. unfold at_index in Ho. destruct (j <? 0)%Z; [discriminate |].
    apply nth_error_In in Ho.
    pose proof (filteredObservations_valid s startMs a b) as Hall.
    rewrite Forall_forall in Hall. now apply Hall. }
  destruct (Hvalid _ _ Hcur) as [tc Htc]. destruct (Hvalid _ _ Hnext) as [tn Htn].
  rewrite (schedule_in_range S i v current next Hlen Hcur Hnext).
  unfold timeDelta. rewrite Htc, Htn. cbn [getTime].
  eexists. split; [reflexivity | apply clamp_between; lra].
Qed.

Lemma threeSamples_within_day : filteredObservations threeSamples 0 0 24 = threeSamples.
Proof.
  rewrite filteredObservations_filter. unfold threeSamples. cbn [filter].
  repeat match goal with
         | |- context [inWindow 0 0 24 (sampleObservation ?k ?s ?t)] =>
             replace (inWindow 0 0 24 (sampleObservation k s t)) with true
               by (symmetry; apply inWindow_spec; exists t;
                   split; [reflexivity | lra])
         end.
  reflexivity.
Qed.

Lemma slice_delays_are_finite_witness :
  exists delay,
    schedule (filteredObservations threeSamples 0 0 24) 0 true 2 = SetTimeout (Fin delay) /\
    (400 <= delay <= 10000)%R.
Proof.
  apply (slice_delays_are_finite threeSamples 0 0 24 0 2);
    rewrite threeSamples_within_day; cbn; lia.
Defined.

(** X20: in [App], a render that moves or resizes the window, or that
    changes the length of the slice, rewinds the playback: the index and
    the progress are 0 and the current observation is the first record of
    the new slice, wherever the index stood.  Only a slice of the same
    length under an unchanged window, as a poll can bring one, leaves the
    index where it was. *)
Theorem window_or_length_change_rewinds_playback :
  forall (windowMoved : bool) (p : Player) (newSlice : list DerivedObservation),
    let p' := appSliceChanged windowMoved p newSlice in
    slice p' = newSlice /\
    (indexInBounds p ->
     windowMoved = true \/ List.length newSlice <> List.length (slice p) ->
     index p' = 0%Z /\
     progress (List.length (slice p')) (index p') = 0%R /\
     currentObservation p' = hd_error newSlice) /\
    (windowMoved = false -> List.length newSlice = List.length (slice p) ->
     index p' = index p).
Proof.
  intros windowMoved p newSlice p'.
  assert (Hslice : slice p' = newSlice).
  { unfold p', appSliceChanged. now destruct (_ || _). }
  split; [exact Hslice |]. split.
  - intros Hbounds Hcause.
    assert (Hindex : index p' = 0%Z).
    { destruct (Nat.eq_dec (List.length newSlice) (List.length (slice p))) as [Heq | Hne].
      - destruct Hcause as [-> | Hne]; [| contradiction].
        unfold p', appSliceChanged. rewrite orb_true_l.
        cbn [playbackStep with_index index slice].
        rewrite Heq, Nat.eqb_refl.
        destruct (List.length (slice p)) as [| n] eqn:Hlen.
        + unfold indexInBounds in Hbounds. rewrite Hlen in Hbounds.
          cbn [setProgress]. cbn in Hbounds. lia.
        + apply setProgress_zero.
      - now apply app_resets_index_on_length_change. }
    split; [exact Hindex |].
    unfold currentObservation. rewrite Hindex, Hslice. split.
    + unfold progress. destruct (List.length newSlice <=? 1)%nat; [reflexivity |].
      unfold Rdiv. apply Rmult_0_l.
    + now destruct newSlice.
  - intros -> Heq. unfold p', appSliceChanged.
    rewrite Heq, Nat.eqb_refl. cbn [orb negb playbackStep slice index].
    now rewrite Heq, Nat.eqb_refl.
Qed.

Lemma window_or_length_change_rewinds_playback_witness :
  index (appSliceChanged true
           {| slice := tenSamples; playing := true; speed := 1; index := 7 |}
           tenSamples) = 0%Z /\
  index (appSliceChanged false
           {| slice := tenSamples; playing := true; speed := 1; index := 7 |}
           tenSamples) = 7%Z.
Proof.
  destruct (window_or_length_change_rewinds_playback true
              {| slice := tenSamples; playing := true; speed := 1; index := 7 |}
              tenSamples) as (_ & Hmoved & _).
  destruct (window_or_length_change_rewinds_playback false
              {| slice := tenSamples; playing := true; speed := 1; index := 7 |}
              tenSamples) as (_ & _ & Hkept).
  split.
  - apply Hmoved; [unfold indexInBounds; cbn; lia | now left].
  - now apply Hkept.
Defined.

(** ** The state of the stream *)

Section StreamInvariants.
Context `{Host}.

Lemma pull_first_status (st : StreamState) :
  status (set_status (match status st with
                      | StatusReady => StatusReady
                      | _ => StatusLoading
                      end) st) <> StatusError /\
  status (set_status (match status st with
                      | StatusReady => StatusReady
                      | _ => StatusLoading
                      end) st) <> StatusIdle.
Proof. cbn. destruct (status st); split; discriminate. Qed.

(** X1: in every state the engine reaches, the status ['error'] comes
    with an error message; under the status ['ready'] the message is absent
    or is the notice of the synthetic fallback; and the status is ['idle']
    only in the initial state, before any poll or change of filter. *)
Theorem status_and_message_agree :
  forall (opts : StreamOptions) (st : StreamState),
    reachable opts st ->
    (status st = StatusError -> exists message, error st = Some message) /\
    (status st = StatusReady -> error st = None \/ error st = Some fallbackNotice) /\
    (status st = StatusIdle -> exists missionId sinceIso, st = initialState missionId sinceIso).
Proof.
  intros opts st Hreach.
  induction Hreach as [missionId sinceIso | st response now Hreach (IHerr & IHready & IHidle)
                      | st missionId sinceIso Hreach _].
  - cbn. repeat split; try discriminate. intros _. now exists missionId, sinceIso.
  - destruct (pull_first_status st) as [Hne Hni].
    destruct (pull_cases opts response now st)
      as [(batch & st2 & _ & ->) | [(message & _ & _ & ->)
         | (message & _ & _ & [(fallback & _ & ->) | (_ & ->)])]];
      cbn [status error set_error set_status set_data].
    + repeat split; try discriminate. intros _. now left.
    + repeat split; try discriminate. intros _. now exists message.
    + repeat split; try discriminate. intros _. now right.
    + split; [| split].
      * intros Hs. now destruct (status st).
      * intros Hs. apply IHready. now destruct (status st).
      * intros Hs. now destruct (status st).
  - cbn. repeat split; discriminate.
Qed.

Lemma syntheticObservation_mission (startMs : option Z) (count : Z) (index : nat)
  (obs : DerivedObservation) :
  syntheticObservation startMs count index = Ok obs -> missionId obs = "windborne-sim".
Proof.
  unfold syntheticObservation.
  destruct (toISOString _); [| discriminate]. cbn [bind]. now intros [= <-].
Qed.

(** X2: without credentials no poll ever reaches the upstream: in every
    state the engine reaches the cursor still stands at the lookback
    origin, no timestamp of a fetched record was noted, and every record of
    the Series is a record of the synthetic generator. *)
Theorem without_credentials_only_synthetic_data :
  forall (opts : StreamOptions) (st : StreamState),
    authHeader opts = None ->
    reachable opts st ->
    cursorRef st = isoToSeconds (sinceRef st) /\
    lastTimestampRef st = None /\
    Forall (fun obs => missionId obs = "windborne-sim") (observations st).
Proof.
  intros opts st Hauth Hreach.
  induction Hreach as [missionId sinceIso | st response now Hreach (IHc & IHt & IHs)
                      | st missionId sinceIso Hreach _].
  - cbn. repeat split. constructor.
  - destruct (pull_cases opts response now st)
      as [(batch & st2 & Hfetch & _) | [(message & _ & _ & ->)
         | (message & _ & _ & [(fallback & Hbuild & ->) | (_ & ->)])]];
      cbn [cursorRef sinceRef lastTimestampRef observations
           set_error set_status set_data].
    + unfold fetchBatch in Hfetch. rewrite Hauth in Hfetch. discriminate.
    + repeat split; assumption.
    + repeat split; try assumption.
      unfold buildSyntheticObservations in Hbuild.
      eapply mapM_Forall; [| exact Hbuild].
      intros index obs. apply syntheticObservation_mission.
    + repeat split; assumption.
  - cbn. repeat split. constructor.
Qed.

(** X5: the time of the last update is present exactly when the data
    flag is set, and so whenever the Series holds a record. *)
Theorem lastUpdated_marks_data :
  forall (opts : StreamOptions) (st : StreamState),
    reachable opts st ->
    (hasDataRef st = true -> exists t, lastUpdated st = Some t) /\
    (hasDataRef st = false -> lastUpdated st = None) /\
    (observations st <> [] -> exists t, lastUpdated st = Some t).
Proof.
  intros opts st Hreach.
  assert (Hflag : (hasDataRef st = true -> exists t, lastUpdated st = Some t) /\
                  (hasDataRef st = false -> lastUpdated st = None)).
  { induction Hreach as [missionId sinceIso | st response now Hreach [IHt IHf]
                        | st missionId sinceIso Hreach _].
    - cbn. split; [discriminate | reflexivity].
    - destruct (pull_cases opts response now st)
        as [(batch & st2 & Hfetch & ->) | [(message & _ & _ & ->)
           | (message & _ & _ & [(fallback & _ & ->) | (_ & ->)])]];
        cbn [hasDataRef lastUpdated set_error set_status set_data].
      + apply fetchBatch_success in Hfetch as (_ & _ & next_since & _ & _ & ->).
        destruct batch as [| o batch]; cbn [ingest].
        * unfold applyCursorAdvance. destruct next_since; cbn; split; assumption.
        * cbn. split; [intros _; now eexists | discriminate].
      + split; assumption.
      + split; [intros _; now eexists | discriminate].
      + split; assumption.
    - cbn. split; [discriminate | reflexivity]. }
  destruct Hflag as [Ht Hf]. split; [exact Ht |]. split; [exact Hf |].
  intros Hne. apply Ht. now apply (proj1 (reachable_data_flag opts st Hreach)).
Qed.

(** X4: a change of the mission filter or of the lookback origin empties
    the Series and puts the cursor back at the new origin; after the next
    successful poll the Series holds records of that poll's batch only,
    none from before the change. *)
Theorem filter_change_discards_earlier_records :
  forall (opts : StreamOptions) (st : StreamState) (missionId : option string)
         (sinceIso : string) (response : FetchResponse) (now : Z)
         (batch : list DerivedObservation) (st2 : StreamState),
    let st1 := onFilterChange missionId sinceIso st in
    fetchBatch opts st1 response = Ok (batch, st2) ->
    let st' := pull opts response now st1 in
    (observations st1 = [] /\ cursorRef st1 = isoToSeconds sinceIso /\
     hasDataRef st1 = false /\ lastUpdated st1 = None /\ status st1 = StatusLoading) /\
    Forall (fun obs => In obs batch) (observations st') /\
    status st' = StatusReady /\ error st' = None.
Proof.
  intros opts st missionId sinceIso response now batch st2 st1 Hfetch st'.
  split; [repeat split |].
  subst st'. unfold pull.
  destruct (fetchBatch_success_any_state opts st1
              (set_status (match status st1 with
                           | StatusReady => StatusReady
                           | _ => StatusLoading
                           end) st1) response batch st2 Hfetch) as [st3 Hfetch3].
  rewrite Hfetch3.
  apply fetchBatch_success in Hfetch3 as (_ & _ & next_since & _ & _ & ->).
  cbn [observations status error set_error set_status].
  split; [| split; reflexivity].
  rewrite ingest_series.
  destruct (applyCursorAdvance_keeps_data batch next_since
              (set_status (match status st1 with
                           | StatusReady => StatusReady
                           | _ => StatusLoading
                           end) st1)) as (Hobs & _).
  rewrite Hobs. cbn [observations set_status]. subst st1. cbn [observations onFilterChange
    set_status resetState].
  destruct batch as [| o batch]; [constructor |].
  apply Forall_forall. intros obs Hin.
  destruct (merge_in_source _ _ _ Hin) as [[] | Hb]. exact Hb.
Qed.

End StreamInvariants.

Lemma exampleLoaded_reachable : @reachable exampleHost (exampleOptions 250) exampleLoaded.
Proof. apply reachable_pull, reachable_initial. Qed.

Lemma status_and_message_agree_witness :
  error exampleLoaded = None \/ error exampleLoaded = Some fallbackNotice.
Proof.
  destruct (@status_and_message_agree exampleHost (exampleOptions 250) exampleLoaded
              exampleLoaded_reachable) as (_ & Hready & _).
  apply Hready. reflexivity.
Defined.

Lemma without_credentials_only_synthetic_data_witness :
  let st := @pull exampleHost optionsWithoutCredentials (responseOf [rawAt5]) 1
              exampleStart in
  cursorRef st = @isoToSeconds exampleHost (sinceRef st) /\
  lastTimestampRef st = None /\
  Forall (fun obs => missionId obs = "windborne-sim") (observations st).
Proof.
  apply (@without_credentials_only_synthetic_data exampleHost optionsWithoutCredentials).
  - reflexivity.
  - apply reachable_pull, reachable_initial.
Defined.

Lemma lastUpdated_marks_data_witness : exists t, lastUpdated exampleLoaded = Some t.
Proof.
  destruct (@lastUpdated_marks_data exampleHost (exampleOptions 250) exampleLoaded
              exampleLoaded_reachable) as (_ & _ & Hdata).
  apply Hdata. rewrite exampleLoaded_series. discriminate.
Defined.

Lemma filter_change_discards_earlier_records_witness :
  let st1 := @onFilterChange exampleHost None "1970-01-01T00:00:00.000Z" exampleLoaded in
  let st' := @pull exampleHost (exampleOptions 250) (responseOf [rawAt1]) 2 st1 in
  Forall (fun obs => In obs [normalizedAt1]) (observations st').
Proof.
  destruct (@filter_change_discards_earlier_records exampleHost (exampleOptions 250)
              exampleLoaded None "1970-01-01T00:00:00.000Z" (responseOf [rawAt1]) 2%Z
              [normalizedAt1]
              (applyCursorAdvance [normalizedAt1] JUndefined
                 (@onFilterChange exampleHost None "1970-01-01T00:00:00.000Z"
                    exampleLoaded)))
    as (_ & Hbatch & _).
  - reflexivity.
  - exact Hbatch.
Defined.

(** ** The request *)



(** A poll that brings one record with an unreadable timestamp: the
    record is kept, with an Invalid Date, and the next request carries
    [since=NaN]. *)
Remark unreadable_timestamp_sends_since_NaN :
  let st := @pull exampleHost (exampleOptions 250)
              (responseOf [rawUnreadableTimestamp]) 1 exampleStart in
  @reachable exampleHost (exampleOptions 250) st /\
  map date (observations st) = [InvalidDate] /\
  cursorRef st = NaN /\ sinceParam (cursorRef st) = NaN.
Proof.
  cbv zeta. split; [apply reachable_pull, reachable_initial |].
  repeat split; reflexivity.
Qed.

(** ** The time range *)

Lemma StronglySorted_last {A : Type} (R : A -> A -> Prop) (l : list A) (z : A) :
  StronglySorted R (l ++ [z]) -> Forall (fun x => R x z) l.
Proof.
  induction l as [| a l IH]; cbn; intros Hs; [constructor |].
  inversion Hs as [| ? ? Hrest Hall]; subst. constructor.
  - rewrite Forall_forall in Hall. apply Hall. apply in_or_app. right. now left.
  - now apply IH.
Qed.

(** X6: on a non-empty Series of valid dates sorted by instant,
    [timeRange] gives the earliest and the latest instant: its start is not
    after its end and the instant of every record lies between them. *)
Theorem timeRange_spans_the_series :
  forall (s : list DerivedObservation),
    StronglySorted notLater s -> Forall validInstant s -> s <> [] ->
    exists a b,
      timeRange s = Some (ValidDate a, ValidDate b) /\ (a <= b)%Z /\
      forall obs, In obs s -> exists t, date obs = ValidDate t /\ (a <= t <= b)%Z.
Proof.
  intros s Hsorted Hvalid Hne.
  destruct s as [| first rest]; [contradiction |].
  destruct (exists_last Hne) as (front & final & Heq).
  inversion Hvalid as [| ? ? [a Ha] _]; subst.
  assert (Hfinal : In final (first :: rest))
    by (rewrite Heq; apply in_or_app; right; now left).
  rewrite Forall_forall in Hvalid.
  destruct (Hvalid final Hfinal) as [b Hb].
  assert (Hlast : List.last (first :: rest) first = final)
    by (rewrite Heq; apply last_last).
  assert (Hfrom : forall obs, In obs (first :: rest) ->
                              exists t, date obs = ValidDate t /\ (a <= t)%Z).
  { inversion Hsorted as [| ? ? _ Hall]; subst. rewrite Forall_forall in Hall.
    intros obs [<- | Hin].
    - exists a. split; [exact Ha | lia].
    - destruct (Hall obs Hin) as (x & y & Hx & Hy & Hxy).
      rewrite Ha in Hx. injection Hx as <-. now exists y. }
  assert (Hto : forall obs t, In obs (first :: rest) -> date obs = ValidDate t -> (t <= b)%Z).
  { rewrite Heq in Hsorted |- *. pose proof (StronglySorted_last _ _ _ Hsorted) as Hall.
    rewrite Forall_forall in Hall. intros obs t Hin Ht.
    apply in_app_or in Hin as [Hin | [<- | []]].
    - destruct (Hall obs Hin) as (x & y & Hx & Hy & Hxy). congruence.
    - assert (t = b) by congruence. lia. }
  exists a, b. split; [| split].
  - unfold timeRange. now rewrite Hlast, Ha, Hb.
  - destruct (Hfrom final Hfinal) as (t & Ht & Hle). congruence.
  - intros obs Hin. destruct (Hfrom obs Hin) as (t & Ht & Hle).
    exists t. split; [exact Ht |]. split; [exact Hle | now apply (Hto obs)].
Qed.

Lemma timeRange_spans_the_series_witness :
  exists a b,
    timeRange threeSamples = Some (ValidDate a, ValidDate b) /\ (a <= b)%Z /\
    forall obs, In obs threeSamples -> exists t, date obs = ValidDate t /\ (a <= t <= b)%Z.
Proof.
  apply timeRange_spans_the_series.
  - apply threeSamples_invariant.
  - unfold threeSamples. repeat constructor; eexists; reflexivity.
  - discriminate.
Defined.

(** ** More on the merge *)

Lemma Map_set_length (m : JsMap) (k : string) (v : DerivedObservation) :
  (List.length (Map_set m k v) <= S (List.length m))%nat.
Proof.
  induction m as [| [k' v'] m IH]; cbn; [lia |].
  destruct (String.eqb k' k); cbn; lia.
Qed.

Lemma setAll_length (l : list DerivedObservation) (m : JsMap) :
  (List.length (setAll m l) <= List.length m + List.length l)%nat.
Proof.
  revert m. induction l as [| o l IH]; intros m; [cbn; lia |].
  rewrite setAll_cons. pose proof (IH (Map_set m (mergeKey o) o)).
  pose proof (Map_set_length m (mergeKey o) o). cbn [List.length]. lia.
Qed.

Lemma merge_length (s b : list DerivedObservation) :
  List.length (mergeChronologically s b) = List.length (Map_keys (mergedMap s b)).
Proof.
  rewrite <- (Permutation_length (merge_keys_perm s b)). now rewrite length_map.
Qed.

(** X7: a merge never loses a merge key: a Series with distinct merge
    keys never shrinks when a batch is merged into it, and it grows by at
    most the size of the batch. *)
Theorem merge_never_shrinks_the_series :
  forall (s b : list DerivedObservation),
    (List.length (mergeChronologically s b) <= List.length s + List.length b)%nat /\
    (NoDup (map mergeKey s) ->
     (List.length s <= List.length (mergeChronologically s b))%nat) /\
    (forall obs, In obs s ->
       exists kept, In kept (mergeChronologically s b) /\ mergeKey kept = mergeKey obs).
Proof.
  intros s b. rewrite merge_length. split; [| split].
  - unfold Map_keys, mergedMap. rewrite length_map.
    pose proof (setAll_length b (setAll [] s)). pose proof (setAll_length s []).
    cbn [List.length] in *. lia.
  - intros Hnd. rewrite <- (length_map mergeKey s).
    apply NoDup_incl_length; [exact Hnd |].
    intros k Hk. apply mergedMap_keys_in. now left.
  - intros obs Hin.
    assert (Hk : In (mergeKey obs) (map mergeKey (mergeChronologically s b))).
    { apply merge_keys_in. left. now apply in_map. }
    apply in_map_iff in Hk as (kept & Hkey & Hkept). now exists kept.
Qed.

Lemma merge_never_shrinks_the_series_witness :
  (List.length [normalizedAt1] <=
   List.length (mergeChronologically [normalizedAt1] [normalizedAt5]))%nat.
Proof.
  destruct (merge_never_shrinks_the_series [normalizedAt1] [normalizedAt5])
    as (_ & Hgrow & _).
  apply Hgrow. cbn. repeat constructor. intros [].
Defined.

Lemma lastWithKey_app (l1 l2 : list DerivedObservation) (k : string) :
  lastWithKey (l1 ++ l2) k =
    match lastWithKey l2 k with
    | Some obs => Some obs
    | None => lastWithKey l1 k
    end.
Proof.
  induction l1 as [| o l1 IH]; cbn.
  - now destruct (lastWithKey l2 k).
  - rewrite IH. now destruct (lastWithKey l2 k), (lastWithKey l1 k).
Qed.

Lemma lastWithKey_entries (l : list DerivedObservation) (k : string) :
  NoDup (map mergeKey l) -> lastWithKey l k = Map_get (map entryOf l) k.
Proof.
  induction l as [| o l IH]; cbn; intros Hnd; [reflexivity |].
  inversion Hnd as [| ? ? Hout Hnd']; subst. rewrite (IH Hnd').
  destruct (String.eqb_spec (mergeKey o) k) as [<- | Hne]; [| now destruct (Map_get _ k)].
  assert (Hnone : Map_get (map entryOf l) (mergeKey o) = None).
  { apply Map_get_none. now rewrite Map_keys_entries. }
  now rewrite Hnone.
Qed.

Lemma Map_get_same_entries (m1 m2 : JsMap) (k : string) :
  NoDup (Map_keys m1) -> NoDup (Map_keys m2) ->
  (forall e, In e m1 <-> In e m2) -> Map_get m1 k = Map_get m2 k.
Proof.
  intros H1 H2 Hsame.
  destruct (Map_get m1 k) as [v |] eqn:Hg1.
  - symmetry. apply Map_get_in; [exact H2 |]. apply Hsame. now apply Map_get_in.
  - destruct (Map_get m2 k) as [v |] eqn:Hg2; [| reflexivity].
    apply Map_get_in in Hg2; [| exact H2]. apply Hsame in Hg2.
    apply Map_get_in in Hg2; [| exact H1]. congruence.
Qed.

Lemma merge_lookup (s b : list DerivedObservation) (k : string) :
  lastWithKey (mergeChronologically s b) k = Map_get (mergedMap s b) k.
Proof.
  rewrite lastWithKey_entries by apply merge_keys_NoDup.
  apply Map_get_same_entries.
  - rewrite Map_keys_entries. apply merge_keys_NoDup.
  - apply mergedMap_NoDup.
  - intros [k' v]. split.
    + intros Hin. apply in_map_iff in Hin as (o & [= <- <-] & Hin).
      apply merge_in in Hin. now apply Map_get_in in Hin; [| apply mergedMap_NoDup].
    + intros Hin. pose proof (mergedMap_keyed s b) as Hk.
      unfold keyedByMergeKey in Hk. rewrite Forall_forall in Hk.
      pose proof (Hk _ Hin) as Hkey. cbn in Hkey. subst k'.
      apply (in_map entryOf). apply merge_in.
      apply Map_get_in; [apply mergedMap_NoDup | exact Hin].
Qed.

(** X8: ingesting two batches one after the other leaves the same records
    in the Series as merging their concatenation in one go: the two Series
    are permutations of each other. *)
Theorem merging_in_steps_keeps_the_same_records :
  forall (s b1 b2 : list DerivedObservation),
    Permutation (mergeChronologically (mergeChronologically s b1) b2)
                (mergeChronologically s (b1 ++ b2)).
Proof.
  intros s b1 b2.
  assert (Hnd : forall x y, NoDup (mergeChronologically x y)).
  { intros x y. apply (NoDup_map_inv mergeKey), merge_keys_NoDup. }
  apply NoDup_Permutation; [apply Hnd | apply Hnd |].
  intros obs. rewrite 2 merge_in, 2 mergedMap_get, merge_lookup, mergedMap_get.
  rewrite lastWithKey_app.
  now destruct (lastWithKey b2 (mergeKey obs)).
Qed.

(** ** The synthetic generator *)

Lemma truncate_IZR (k : Z) : truncate (IZR k) = k.
Proof.
  unfold truncate. destruct (Rle_dec 0 (IZR k)) as [_ | _].
  - symmetry. apply Int_part_spec. lra.
  - rewrite <- opp_IZR. rewrite <- (Int_part_spec (IZR (- k)) (- k)%Z); [lia |]. lra.
Qed.

Lemma truncate_monotone (x y : R) : (x <= y)%R -> (truncate x <= truncate y)%Z.
Proof.
  intros Hxy. unfold truncate.
  destruct (Rle_dec 0 x) as [Hx | Hx], (Rle_dec 0 y) as [Hy | Hy]; try lra.
  - now apply (Math_floor_monotone x y).
  - apply Rnot_le_lt in Hx.
    pose proof (Math_floor_monotone 0 (- x) ltac:(lra)) as H1.
    pose proof (Math_floor_monotone 0 y Hy) as H2.
    change 0%R with (IZR 0) in H1, H2. rewrite Math_floor_IZR in H1, H2.
    unfold Math_floor in *. lia.
  - pose proof (Math_floor_monotone (- y) (- x) ltac:(lra)) as H1.
    unfold Math_floor in *. lia.
Qed.

Lemma truncate_between (a b : Z) (x : R) :
  (IZR a <= x <= IZR b)%R -> (a <= truncate x <= b)%Z.
Proof.
  intros [Ha Hb]. split.
  - rewrite <- (truncate_IZR a). now apply truncate_monotone.
  - rewrite <- (truncate_IZR b). now apply truncate_monotone.
Qed.

Lemma easeInOut_unit (t : R) : (0 <= easeInOut t <= 1)%R.
Proof. unfold easeInOut. pose proof (COS_bound (PI * clamp t 0 1)). lra. Qed.

(** X10: [easeInOut] is 0 up to 0 and 1 from 1 on, stays in [0, 1] and
    never decreases. *)
Theorem easeInOut_is_a_monotone_ramp :
  (forall t, (t <= 0)%R -> easeInOut t = 0%R) /\
  (forall t, (1 <= t)%R -> easeInOut t = 1%R) /\
  (forall t, (0 <= easeInOut t <= 1)%R) /\
  (forall s t, (s <= t)%R -> (easeInOut s <= easeInOut t)%R).
Proof.
  split; [| split; [| split]].
  - intros t Ht. unfold easeInOut. rewrite clamp_below by lra.
    rewrite Rmult_0_r, cos_0. lra.
  - intros t Ht. unfold easeInOut. rewrite clamp_above by lra.
    rewrite Rmult_1_r, cos_PI. lra.
  - apply easeInOut_unit.
  - intros s t Hst. unfold easeInOut.
    pose proof (clamp_between s 0 1 ltac:(lra)) as Hs.
    pose proof (clamp_between t 0 1 ltac:(lra)) as Ht.
    pose proof (clamp_monotone s t 0 1 Hst) as Hmono.
    pose proof PI_RGT_0 as Hpi.
    assert (Hcos : (cos (PI * clamp t 0 1) <= cos (PI * clamp s 0 1))%R).
    { apply cos_decr_1; try nra. }
    lra.
Qed.

Lemma easeInOut_is_a_monotone_ramp_witness :
  easeInOut (-1) = 0%R /\ easeInOut 2 = 1%R /\ (easeInOut 0.25 <= easeInOut 0.75)%R.
Proof.
  destruct easeInOut_is_a_monotone_ramp as (Hlow & Hhigh & _ & Hmono).
  split; [apply Hlow; lra | split; [apply Hhigh; lra | apply Hmono; lra]].
Defined.

Section SyntheticProperties.
Context `{Host}.

Lemma synthetic_progress_unit (count : Z) (index : nat) :
  (1 <= count)%Z -> (index < Z.to_nat count)%nat ->
  (0 <= INR index / IZR (Z.max 1 (count - 1)) <= 1)%R.
Proof.
  intros Hcount Hindex.
  assert (Hd : (1 <= IZR (Z.max 1 (count - 1)))%R) by (apply IZR_le; lia).
  assert (Hi : (0 <= INR index <= IZR (Z.max 1 (count - 1)))%R).
  { split; [apply pos_INR |]. rewrite INR_IZR_INZ. apply IZR_le. lia. }
  split.
  - apply Rmult_le_pos; [tauto |]. left. apply Rinv_0_lt_compat. lra.
  - apply (Rmult_le_reg_r (IZR (Z.max 1 (count - 1)))); [lra |].
    unfold Rdiv. rewrite Rmult_assoc, Rinv_l by lra. lra.
Qed.

Lemma syntheticObservation_date (startMs count : Z) (index : nat)
  (obs : DerivedObservation) :
  syntheticObservation (Some startMs) count index = Ok obs ->
  (Rabs (syntheticTimestampMs startMs count index) <= IZR maxTimeValue)%R /\
  date obs = ValidDate (truncate (syntheticTimestampMs startMs count index)) /\
  timestamp obs = formatISO (truncate (syntheticTimestampMs startMs count index)).
Proof.
  unfold syntheticObservation.
  change (IZR startMs + INR index * (24 * 60 * 60 * 1000 / IZR (Z.max count 1)) +
          randRange (Math_random (6 * index + 0)) (-2) 2 * 60 * 1000)%R
    with (syntheticTimestampMs startMs count index).
  unfold Date_ofNumber.
  destruct (Rle_dec (Rabs (syntheticTimestampMs startMs count index)) (IZR maxTimeValue))
    as [Hin | Hout]; cbn [toISOString bind]; [| discriminate].
  intros [= <-]. cbn [date timestamp]. repeat split. exact Hin.
Qed.

(** The bounds of the draw of [Math.random()] the goal mentions. *)
Ltac draw_bounds :=
  match goal with
  | Hrandom : forall n, (0 <= Math_random n < 1)%R
    |- context [randRange (Math_random ?n) _ _] => pose proof (Hrandom n)
  end.

(** A wind component: a cosine or sine times a speed clamped to [2, 60]. *)
Ltac component_bounds :=
  match goal with
  | |- (_ <= ?trig ?direction * clamp ?speed 2 60 <= _)%R =>
      pose proof (COS_bound direction); pose proof (SIN_bound direction);
      pose proof (clamp_between speed 2 60 ltac:(lra));
      generalize dependent (clamp speed 2 60); intros; nra
  end.

(** X9: every record the synthetic generator makes is physically
    plausible: its instant lies within two minutes of the 24-hour span that
    starts at [startIso], the altitude within [-300, 30300] m, the
    temperature within [-70, -20] degrees, the humidity within [5, 95]
    per cent, and each wind component within [-60, 60] m/s. *)
Theorem synthetic_record_within_ranges :
  forall (startMs count : Z) (index : nat),
    (1 <= count)%Z -> (index < Z.to_nat count)%nat ->
    (forall n, (0 <= Math_random n < 1)%R) ->
    (- maxTimeValue + 120000 <= startMs <= maxTimeValue - 86520000)%Z ->
    exists obs t a c h u v,
      syntheticObservation (Some startMs) count index = Ok obs /\
      date obs = ValidDate t /\ timestamp obs = formatISO t /\
      (startMs - 120000 <= t <= startMs + 86520000)%Z /\
      altitude obs = Fin a /\ (-300 <= a <= 30300)%R /\
      temperature obs = Fin c /\ (-70 <= c <= -20)%R /\
      humidity obs = Fin h /\ (5 <= h <= 95)%R /\
      speed_u obs = Fin u /\ (-60 <= u <= 60)%R /\
      speed_v obs = Fin v /\ (-60 <= v <= 60)%R.
Proof.
  intros startMs count index Hcount Hindex Hrandom Hstart.
  destruct (syntheticObservation_ok startMs count index Hcount Hindex Hrandom Hstart)
    as [obs Hobs].
  destruct (syntheticObservation_date _ _ _ _ Hobs) as (_ & Hdate & Hts).
  pose proof (synthetic_timestamp_range startMs count index
                (Math_random (6 * index + 0)) Hcount Hindex (Hrandom _)) as Hrange.
  cbv zeta in Hrange.
  pose proof (synthetic_progress_unit count index Hcount Hindex) as Hprogress.
  pose proof Hobs as Hfields. unfold syntheticObservation in Hfields.
  destruct (toISOString _) as [ts | m] in Hfields; [| discriminate].
  cbn [bind] in Hfields. injection Hfields as Hfields.
  set (progress := (INR index / IZR (Z.max 1 (count - 1)))%R) in *.
  pose proof (easeInOut_unit progress) as Hease.
  exists obs. do 6 eexists.
  split; [exact Hobs |].
  split; [exact Hdate |]. split; [exact Hts |].
  split.
  { apply truncate_between. rewrite minus_IZR, plus_IZR.
    unfold syntheticTimestampMs. exact Hrange. }
  rewrite <- Hfields. cbn [altitude temperature humidity speed_u speed_v].
  split; [reflexivity |]. split; [draw_bounds; unfold randRange; lra |].
  split; [reflexivity |]. split; [draw_bounds; unfold randRange; nra |].
  split; [reflexivity |]. split; [apply clamp_between; lra |].
  split; [reflexivity |]. split; [component_bounds |].
  split; [reflexivity |]. component_bounds.
Qed.

Lemma mapM_In {A B : Type} (f : A -> Result B) (l : list A) (r : list B) (y : B) :
  mapM f l = Ok r -> In y r -> exists a, In a l /\ f a = Ok y.
Proof.
  revert r. induction l as [| a l IH]; cbn [mapM]; intros r Hr Hy.
  - injection Hr as <-. destruct Hy.
  - destruct (f a) as [b | m] eqn:Hb; cbn [bind] in Hr; [| discriminate].
    destruct (mapM f l) as [bs | m]; cbn [bind] in Hr; [| discriminate].
    injection Hr as <-. destruct Hy as [<- | Hy].
    + exists a. split; [now left | exact Hb].
    + destruct (IH bs eq_refl Hy) as (a' & Hin & Ha'). exists a'. split; [now right | exact Ha'].
Qed.

Lemma mapM_seq_sorted {B : Type} (R : B -> B -> Prop) (f : nat -> Result B)
  (n start : nat) (l : list B) :
  (forall i j x y, (start <= i < j)%nat -> (j < start + n)%nat ->
                   f i = Ok x -> f j = Ok y -> R x y) ->
  mapM f (seq start n) = Ok l -> StronglySorted R l.
Proof.
  revert start l. induction n as [| n IH]; intros start l Hord; cbn [seq mapM].
  - intros [= <-]. constructor.
  - destruct (f start) as [x | m] eqn:Hx; cbn [bind]; [| discriminate].
    destruct (mapM f (seq (S start) n)) as [rest | m] eqn:Hrest; cbn [bind]; [| discriminate].
    intros [= <-]. constructor.
    + apply (IH (S start)); [| exact Hrest].
      intros i j a b Hij Hj. apply Hord; lia.
    + rewrite Forall_forall. intros y Hy.
      destruct (mapM_In f _ _ y Hrest Hy) as (j & Hj & Hfj). apply in_seq in Hj.
      apply (Hord start j); [lia | lia | exact Hx | exact Hfj].
Qed.

(** X11: up to 360 records, the synthetic fallback is in chronological
    order as generated: the spacing of the records, a day divided by the
    count, is then at least the four minutes the jitter of two neighbours
    can take away. *)
Theorem synthetic_fallback_in_order_up_to_360 :
  forall (startIso : string) (startMs count : Z),
    (1 <= count <= 360)%Z ->
    (forall n, (0 <= Math_random n < 1)%R) ->
    Date_parse startIso = ValidDate startMs ->
    (- maxTimeValue + 120000 <= startMs <= maxTimeValue - 86520000)%Z ->
    exists fallback,
      buildSyntheticObservations startIso count = Ok fallback /\
      List.length fallback = Z.to_nat count /\
      StronglySorted notLater fallback.
Proof.
  intros startIso startMs count [Hcount Hmax] Hrandom Hparse Hstart.
  destruct (buildSynthetic_ok startIso startMs count Hcount Hrandom Hparse Hstart)
    as [fallback Hbuild].
  exists fallback. split; [exact Hbuild |].
  split; [exact (buildSynthetic_length _ _ _ Hbuild) |].
  revert Hbuild. unfold buildSyntheticObservations. rewrite Hparse. cbn [getTime].
  apply mapM_seq_sorted.
  intros i j x y Hij _ Hx Hy.
  destruct (syntheticObservation_date _ _ _ _ Hx) as (_ & Hdx & _).
  destruct (syntheticObservation_date _ _ _ _ Hy) as (_ & Hdy & _).
  exists (truncate (syntheticTimestampMs startMs count i)),
         (truncate (syntheticTimestampMs startMs count j)).
  split; [exact Hdx |]. split; [exact Hdy |].
  apply truncate_monotone. unfold syntheticTimestampMs, randRange.
  pose proof (Hrandom (6 * i + 0)%nat) as Hi.
  pose proof (Hrandom (6 * j + 0)%nat) as Hj.
  assert (Hc : (1 <= IZR (Z.max count 1) <= 360)%R).
  { split; apply IZR_le; lia. }
  set (c := IZR (Z.max count 1)) in *.
  assert (Hstep : (240000 <= 24 * 60 * 60 * 1000 / c)%R).
  { apply (Rmult_le_reg_r c); [lra |].
    unfold Rdiv. rewrite Rmult_assoc, Rinv_l by lra. lra. }
  assert (Hgap : (INR i + 1 <= INR j)%R).
  { rewrite <- S_INR. apply le_INR. lia. }
  pose proof (pos_INR i) as Hi0.
  set (step := (24 * 60 * 60 * 1000 / c)%R) in *.
  nra.
Qed.

End SyntheticProperties.

Lemma synthetic_record_within_ranges_witness :
  exists obs t,
    @syntheticObservation exampleHost (Some 0%Z) 3 1 = Ok obs /\
    date obs = ValidDate t /\ (-120000 <= t <= 86520000)%Z.
Proof.
  destruct (@synthetic_record_within_ranges exampleHost 0 3 1)
    as (obs & t & a & c & h & u & v & Hobs & Hdate & _ & Ht & _).
  - lia.
  - cbn. lia.
  - intros n. cbn. lra.
  - unfold maxTimeValue. lia.
  - exists obs, t. split; [exact Hobs |]. split; [exact Hdate | lia].
Defined.

Lemma synthetic_fallback_in_order_up_to_360_witness :
  exists fallback,
    @buildSyntheticObservations exampleHost "1970-01-01T00:00:00.000Z" 3 = Ok fallback /\
    List.length fallback = 3%nat /\
    StronglySorted notLater fallback.
Proof.
  apply (@synthetic_fallback_in_order_up_to_360 exampleHost
           "1970-01-01T00:00:00.000Z" 0 3).
  - lia.
  - intros n. cbn. lra.
  - reflexivity.
  - unfold maxTimeValue. lia.
Defined.

(** ** Timestamps of raw records *)

Section TimestampProperties.
Context `{Host}.

Lemma epochToISO_valid (x : R) :
  (Rabs (epochMilliseconds x) <= IZR maxTimeValue)%R ->
  epochToISO x = Ok (formatISO (truncate (epochMilliseconds x))).
Proof.
  intros Hin. unfold epochToISO, Date_ofNumber.
  destruct (Rle_dec _ _) as [_ | Hout]; [reflexivity | contradiction].
Qed.

Lemma epochToISO_invalid (x : R) :
  (IZR maxTimeValue < Rabs (epochMilliseconds x))%R ->
  epochToISO x = Throw "Invalid time value".
Proof.
  intros Hout. unfold epochToISO, Date_ofNumber.
  destruct (Rle_dec _ _) as [Hin | _]; [lra | reflexivity].
Qed.

Lemma resolveTimestamp_numeric (value : jsval) (x : R) :
  finiteContent value = Some x -> resolveTimestamp value = epochToISO x.
Proof.
  intros Hx.
  destruct value as [| | b | [y | | |] | s | p]; cbn in Hx; try discriminate.
  - now injection Hx as ->.
  - cbn [resolveTimestamp]. destruct (StringToNumber s) as [y | | |]; try discriminate.
    now injection Hx as ->.
Qed.

(** X12: a numeric timestamp, given as a number or as a numeric string, is
    read as seconds up to 1e12 and as milliseconds above.  Whole seconds
    [s] between -8.64e12 and 1e12 give the instant [1000 s]; milliseconds
    up to 8.64e15 give their whole part; seconds with a fraction give the
    whole part of the product with 1000 as the doubles round it.  The
    conversion throws above 8.64e15 and from one second below -8.64e12
    on, where the instant is out of the range of a Date; a string that is
    not numeric is kept as it is. *)
Theorem numeric_timestamp_units :
  (forall (value : jsval) (s : Z),
     finiteContent value = Some (IZR s) ->
     (-8640000000000 <= s <= 1000000000000)%Z ->
     resolveTimestamp value = Ok (formatISO (s * 1000))) /\
  (forall (value : jsval) (x : R),
     finiteContent value = Some x ->
     (1000000000000 < x <= 8640000000000000)%R ->
     resolveTimestamp value = Ok (formatISO (truncate x))) /\
  (forall (value : jsval) (x : R),
     finiteContent value = Some x ->
     (-8640000000000 <= x <= 1000000000000)%R ->
     resolveTimestamp value = Ok (formatISO (truncate (double (x * 1000))))) /\
  (forall (value : jsval) (x : R),
     finiteContent value = Some x ->
     (x <= -8640000000001 \/ 8640000000000000 < x)%R ->
     resolveTimestamp value = Throw "Invalid time value") /\
  (forall (s : string),
     Number_isFinite (StringToNumber s) = false ->
     resolveTimestamp (JString s) = Ok s).
Proof.
  assert (Hseconds : forall x,
             (-8640000000000 <= x <= 1000000000000)%R ->
             epochMilliseconds x = double (x * 1000) /\
             (Rabs (double (x * 1000)) <= IZR maxTimeValue)%R).
  { intros x [Hlo Hhi]. unfold epochMilliseconds.
    destruct (Rlt_dec 1000000000000 x) as [Hms | _]; [lra |].
    split; [reflexivity |]. unfold maxTimeValue. apply Rabs_le. split.
    - rewrite <- opp_IZR. apply double_ge_IZR. rewrite opp_IZR. lra.
    - apply double_le_IZR. lra. }
  split; [| split; [| split; [| split]]].
  - intros value s Hs [Hlo Hhi].
    apply IZR_le in Hlo, Hhi.
    rewrite (resolveTimestamp_numeric _ _ Hs).
    destruct (Hseconds (IZR s) (conj Hlo Hhi)) as [Hms Hin].
    rewrite epochToISO_valid by (rewrite Hms; exact Hin).
    rewrite Hms, <- (mult_IZR s 1000), double_IZR, truncate_IZR. reflexivity.
  - intros value x Hx [Hlo Hhi].
    rewrite (resolveTimestamp_numeric _ _ Hx).
    assert (Hms : epochMilliseconds x = x).
    { unfold epochMilliseconds. destruct (Rlt_dec 1000000000000 x); [reflexivity | lra]. }
    rewrite epochToISO_valid; rewrite Hms; [reflexivity |].
    unfold maxTimeValue. rewrite Rabs_right by lra. lra.
  - intros value x Hx Hrange.
    rewrite (resolveTimestamp_numeric _ _ Hx).
    destruct (Hseconds x Hrange) as [Hms Hin].
    rewrite epochToISO_valid by (rewrite Hms; exact Hin).
    now rewrite Hms.
  - intros value x Hx Hout.
    rewrite (resolveTimestamp_numeric _ _ Hx).
    apply epochToISO_invalid. unfold epochMilliseconds, maxTimeValue.
    destruct (Rlt_dec 1000000000000 x) as [Hms | Hsec].
    + destruct Hout as [Hlow | Hhigh]; [lra |]. rewrite Rabs_right by lra. exact Hhigh.
    + destruct Hout as [Hlow | Hhigh]; [| lra].
      assert (Hd : (double (x * 1000) <= IZR (-8640000000001000))%R)
        by (apply double_le_IZR; lra).
      rewrite Rabs_left by lra. lra.
  - intros s Hs. cbn [resolveTimestamp].
    destruct (StringToNumber s); [discriminate | reflexivity ..].
Qed.

End TimestampProperties.

(** Seconds with a fraction: 1700000000.123, which as a double is
    [7130316800515899 / 2^22].  The product with 1000 lies just below
    1700000000123 and is rounded to it. *)
Lemma numeric_timestamp_units_witness :
  @resolveTimestamp exampleHost (JString "5") = Ok (@formatISO exampleHost 5000) /\
  @resolveTimestamp exampleHost (JNumber (Fin (7130316800515899 / 2 ^ 22))) =
    Ok (@formatISO exampleHost 1700000000123).
Proof.
  destruct (@numeric_timestamp_units exampleHost) as (Hwhole & _ & Hfraction & _).
  split.
  - apply (Hwhole (JString "5") 5%Z); [reflexivity | lia].
  - rewrite (Hfraction (JNumber (Fin (7130316800515899 / 2 ^ 22)))
               (7130316800515899 / 2 ^ 22)%R eq_refl) by lra.
    rewrite (double_eval _ 12 6963200000503808).
    + replace (6963200000503808 / 2 ^ 12)%R with (IZR 1700000000123) by lra.
      now rewrite truncate_IZR.
    + lia.
    + rewrite Rabs_right by lra. lra.
    + lra.
Defined.

(** ** The status line *)

Section StatusLine.
Context `{Host}.

Lemma reachable_status_message (opts : StreamOptions) (st : StreamState) :
  reachable opts st ->
  (status st = StatusError -> exists message, error st = Some message) /\
  (status st = StatusReady -> error st = None \/ error st = Some fallbackNotice).
Proof.
  intros Hreach.
  induction Hreach as [missionId sinceIso | st response now Hreach (IHerr & IHready)
                      | st missionId sinceIso Hreach _].
  - cbn. split; discriminate.
  - destruct (pull_first_status st) as [Hne Hni].
    destruct (pull_cases opts response now st)
      as [(batch & st2 & _ & ->) | [(message & _ & _ & ->)
         | (message & _ & _ & [(fallback & _ & ->) | (_ & ->)])]];
      cbn [status error set_error set_status set_data].
    + split; [discriminate |]. intros _. now left.
    + split; [| discriminate]. intros _. now exists message.
    + split; [discriminate |]. intros _. now right.
    + split.
      * intros Hs. now destruct (status st).
      * intros Hs. apply IHready. now destruct (status st).
  - cbn. split; discriminate.
Qed.

(** X24: the status line of [App] over the states the engine reaches:
    under the status ['error'] it shows the message of the failure, never
    the default text; under ['ready'] it shows the notice of the synthetic
    fallback whenever that notice is attached, and otherwise reports on the
    slice. *)
Theorem statusLabel_over_reachable_states :
  forall (opts : StreamOptions) (st : StreamState) (sliceLength : nat),
    reachable opts st ->
    (status st = StatusError ->
       error st = Some (statusLabel (status st) (error st) sliceLength)) /\
    (status st = StatusReady ->
       (error st = Some fallbackNotice /\
        statusLabel (status st) (error st) sliceLength = fallbackNotice) \/
       (error st = None /\
        statusLabel (status st) (error st) sliceLength =
          if (sliceLength =? 0)%nat then "No observations in the selected hour window."
          else ("Streaming " ++ Number_toString (Fin (INR sliceLength))
                  ++ " observations from the selected hours.")%string)).
Proof.
  intros opts st n Hreach.
  destruct (reachable_status_message opts st Hreach) as [Herr Hready]. split.
  - intros Hs. destruct (Herr Hs) as [message Hm]. rewrite Hs, Hm. reflexivity.
  - intros Hs. destruct (Hready Hs) as [Hnone | Hnotice]; rewrite Hs.
    + right. rewrite Hnone. split; reflexivity.
    + left. rewrite Hnotice. split; reflexivity.
Qed.

(** X25: [formatRelative] on a valid date: less than a minute ago, or in
    the future, reads ['just now']; within the hour it names between 1 and
    60 minutes; from an hour on it names at least 1 hour, the nearest whole
    number of hours. *)
Theorem formatRelative_names_positive_amounts :
  forall (now t : Z),
    let delta := (now - t)%Z in
    ((delta < 60000)%Z -> formatRelative now (ValidDate t) = "just now") /\
    ((60000 <= delta < 3600000)%Z ->
       exists minutes, (1 <= minutes <= 60)%Z /\
         formatRelative now (ValidDate t) =
           (Number_toString (Fin (IZR minutes)) ++ " min ago")%string) /\
    ((3600000 <= delta)%Z ->
       exists hours, (1 <= hours)%Z /\
         (IZR hours - / 2 <= IZR delta / 3600000 < IZR hours + / 2)%R /\
         formatRelative now (ValidDate t) =
           (Number_toString (Fin (IZR hours)) ++ "h ago")%string).
Proof.
  intros now t delta. unfold formatRelative. cbn [getTime]. fold delta.
  change (1000 * 60 * 60)%Z with 3600000%Z. change (1000 * 60)%Z with 60000%Z.
  split; [| split].
  - intros Hd. destruct (Z.ltb_spec delta 60000); [reflexivity | lia].
  - intros [Hlo Hhi].
    destruct (Z.ltb_spec delta 60000); [lia |].
    destruct (Z.ltb_spec delta 3600000); [| lia].
    exists (Math_round (IZR delta / (1000 * 60))). split; [| reflexivity].
    apply IZR_le in Hlo. apply IZR_lt in Hhi.
    pose proof (Math_round_monotone 1 (IZR delta / (1000 * 60)) ltac:(lra)) as Hone.
    pose proof (Math_round_monotone (IZR delta / (1000 * 60)) 60 ltac:(lra)) as Hsixty.
    rewrite (Math_round_IZR 1) in Hone. rewrite (Math_round_IZR 60) in Hsixty. lia.
  - intros Hlo.
    destruct (Z.ltb_spec delta 60000); [lia |].
    destruct (Z.ltb_spec delta 3600000); [lia |].
    exists (Math_round (IZR delta / (1000 * 60 * 60))).
    apply IZR_le in Hlo.
    pose proof (Math_round_monotone 1 (IZR delta / (1000 * 60 * 60)) ltac:(lra)) as Hone.
    rewrite (Math_round_IZR 1) in Hone.
    split; [exact Hone |]. split; [| reflexivity].
    pose proof (Math_round_nearest (IZR delta / (1000 * 60 * 60))) as Hn.
    replace (IZR delta / 3600000)%R with (IZR delta / (1000 * 60 * 60))%R by (field; lra).
    exact Hn.
Qed.

End StatusLine.

Lemma statusLabel_over_reachable_states_witness :
  @statusLabel exampleHost (status exampleLoaded) (error exampleLoaded) 0 =
    "No observations in the selected hour window.".
Proof.
  destruct (@statusLabel_over_reachable_states exampleHost (exampleOptions 250)
              exampleLoaded 0 exampleLoaded_reachable) as [_ Hready].
  destruct (Hready eq_refl) as [[Hnotice _] | [_ Hlabel]].
  - discriminate Hnotice.
  - exact Hlabel.
Defined.

Lemma formatRelative_names_positive_amounts_witness :
  exists minutes, (1 <= minutes <= 60)%Z /\
    @formatRelative exampleHost 3599000 (ValidDate 0) =
      (@Number_toString exampleHost (Fin (IZR minutes)) ++ " min ago")%string.
Proof.
  apply (proj1 (proj2 (@formatRelative_names_positive_amounts exampleHost 3599000 0))).
  lia.
Defined.

(** ** The timeline *)

Lemma progress_unit (len : nat) (i : Z) :
  (0 <= i < Z.max 1 (Z.of_nat len))%Z -> (0 <= progress len i <= 1)%R.
Proof.
  intros [Hlo Hhi]. unfold progress.
  destruct (Nat.leb_spec len 1) as [_ | Hlen]; [lra |].
  assert (Hn : (1 <= INR len - 1)%R).
  { rewrite INR_IZR_INZ. replace (IZR (Z.of_nat len) - 1)%R with (IZR (Z.of_nat len - 1))
      by (rewrite minus_IZR; reflexivity).
    apply IZR_le. lia. }
  assert (Hi : (0 <= IZR i <= INR len - 1)%R).
  { split; [apply IZR_le; lia |]. rewrite INR_IZR_INZ.
    replace (IZR (Z.of_nat len) - 1)%R with (IZR (Z.of_nat len - 1))
      by (rewrite minus_IZR; reflexivity).
    apply IZR_le. lia. }
  split.
  - apply Rmult_le_pos; [tauto |]. left. apply Rinv_0_lt_compat. lra.
  - apply (Rmult_le_reg_r (INR len - 1)); [lra |].
    unfold Rdiv. rewrite Rmult_assoc, Rinv_l by lra. lra.
Qed.

(** X26: for a window within the day and an index within the slice, the
    timeline is drawn in order: the chunk starts at 0 per cent or later,
    the playback marker lies within the chunk, and the chunk ends at 100
    per cent or before. *)
Theorem playback_marker_within_chunk :
  forall (w : Window) (p : Player),
    windowWithinDay w -> (0 <= windowDuration w)%Z -> indexInBounds p ->
    let marker := playbackMarkerPct w (progress (List.length (slice p)) (index p)) in
    (0 <= chunkStartPct w)%R /\ (chunkStartPct w <= marker)%R /\
    (marker <= chunkEndPct w)%R /\ (chunkEndPct w <= 100)%R.
Proof.
  intros w p [Hlo Hhi] Hdur Hindex marker.
  pose proof (progress_unit (List.length (slice p)) (index p) Hindex) as Hp.
  unfold marker, playbackMarkerPct, chunkWidthPct, chunkEndPct, chunkStartPct, windowEnd.
  rewrite Z.min_l by exact Hhi.
  unfold HOURS_IN_DAY in *. rewrite plus_IZR.
  apply IZR_le in Hlo, Hhi, Hdur. rewrite plus_IZR in Hhi.
  set (q := progress (List.length (slice p)) (index p)) in *.
  set (a := IZR (windowStart w)) in *. set (d := IZR (windowDuration w)) in *.
  repeat split; nra.
Qed.

Lemma playback_marker_within_chunk_witness :
  let w := {| windowStart := 6; windowDuration := 12 |} in
  let p := {| slice := threeSamples; playing := false; speed := 1; index := 1 |} in
  (chunkStartPct w <= playbackMarkerPct w (progress 3 1) <= chunkEndPct w)%R.
Proof.
  intros w p.
  destruct (playback_marker_within_chunk w p) as (_ & Hlo & Hhi & _).
  - unfold windowWithinDay, HOURS_IN_DAY. cbn. lia.
  - cbn. lia.
  - unfold indexInBounds. cbn. lia.
  - split; [exact Hlo | exact Hhi].
Defined.
